(** * prometheus-webhook-collector: the extractor, the metric cache and the
      webhook handler of [app.py], embedded in Rocq.

    The embedding follows [app.py] function by function.  Python values are a
    dynamic-value type, Python floats are IEEE binary64 numbers (the kernel's
    primitive floats), exceptions are an error result that keeps the state
    reached when the exception was raised, and the process-wide objects
    ([registry], [metrics_cache], the metric instances they share) live in one
    explicit world that every operation threads.

    The third-party libraries the code calls ([re], [json], [jmespath],
    the parsing of floats, the naming rules of [prometheus_client]) are an
    interface, [PyLibs]; everything proved in the sections holds for every
    implementation of it.  [cachetools.TTLCache] (version 5: an item is
    expired from the moment the clock reaches its expiry time) and the
    registry and metric objects of [prometheus_client] are modelled
    operation by operation.

    What the model fixes: the clock is read once per request and moves
    between requests only; [exporter_metrics] and the textfile output are
    off, as in [defaults]; the body of a request arrives parsed. *)

From Stdlib Require Import ZArith String Ascii List Bool Lia PrimFloat Uint63.
From Stdlib Require Import DecimalString.
From stdpp Require Import base option list.
Import ListNotations.
Open Scope string_scope.
Open Scope Z_scope.

(** ** Python values and exceptions *)

(** A JSON/YAML-like Python value: [None], [bool], [int], [float], [str],
    [list] and [dict] (insertion-ordered, string keys). *)
#[warnings="-register-all"]
Inductive pyvalue : Type :=
  | JNull
  | JBool (b : bool)
  | JInt (z : Z)
  | JFloat (f : float)
  | JStr (s : string)
  | JList (l : list pyvalue)
  | JDict (d : list (string * pyvalue)).

(** The exceptions the modelled code can raise. *)
Inductive exn : Type :=
  | TypeError
  | ValueError
  | KeyError
  | AttributeError
  | AssertionError
  | StopIteration
  | OverflowError
  | ReError
  | JMESPathError.

(** The outcome of a Python expression: a value or a raised exception. *)
Inductive result (A : Type) : Type :=
  | Ok (a : A)
  | Raise (e : exn).
Arguments Ok {A} a.
Arguments Raise {A} e.

Definition rbind {A B} (r : result A) (k : A -> result B) : result B :=
  match r with
  | Ok a => k a
  | Raise e => Raise e
  end.

Declare Scope py_scope.
Delimit Scope py_scope with py.
Notation "'let*' x ':=' r 'in' k" := (rbind r (fun x => k))
  (at level 10, x name, r at level 100, k at level 200) : py_scope.

(** Python truthiness ([not v] is its negation). *)
Definition truthy (v : pyvalue) : bool :=
  match v with
  | JNull => false
  | JBool b => b
  | JInt z => negb (z =? 0)
  | JFloat f => negb (PrimFloat.eqb f 0%float)
  | JStr s => negb (String.eqb s "")
  | JList l => match l with [] => false | _ => true end
  | JDict d => match d with [] => false | _ => true end
  end.

(** [d.get(k, default)] on an insertion-ordered dict. *)
Fixpoint dict_get (k : string) (d : list (string * pyvalue)) (default : pyvalue)
  : pyvalue :=
  match d with
  | [] => default
  | (k', v) :: d' => if String.eqb k k' then v else dict_get k d' default
  end.

(** [d[k] = v]: overwrite in place, or append a new key. *)
Fixpoint dict_set (k : string) (v : pyvalue) (d : list (string * pyvalue))
  : list (string * pyvalue) :=
  match d with
  | [] => [(k, v)]
  | (k', v') :: d' =>
      if String.eqb k k' then (k, v) :: d' else (k', v') :: dict_set k v d'
  end.

(** [{**a, **b}]. *)
Definition dict_merge (a b : list (string * pyvalue)) : list (string * pyvalue) :=
  fold_left (fun acc kv => dict_set (fst kv) (snd kv) acc) b a.

(** [s.strip("/")]: drop every leading and trailing slash. *)
Fixpoint lstrip_slash (s : string) : string :=
  match s with
  | String "/" s' => lstrip_slash s'
  | _ => s
  end.

Fixpoint string_rev (s : string) : string :=
  match s with
  | EmptyString => EmptyString
  | String c s' => string_rev s' ++ String c EmptyString
  end.

Definition strip_slash (s : string) : string :=
  string_rev (lstrip_slash (string_rev (lstrip_slash s))).

(** [s.startswith("/")]. *)
Definition startswith_slash (s : string) : bool :=
  match s with
  | String "/" _ => true
  | _ => false
  end.

(** ** The libraries the code calls *)

(** What [app.py] uses of its libraries.
    - [re_search p s]: [re.search(p, s)]; [None] when nothing matches,
      otherwise the match's groups, a group that took no part being [None]
      (the argument of [groups] replaces it).
    - [re_match p s]: whether [re.match(p, s)] is a match object.
    - [json_dumps v]: [json.dumps(v)].
    - [jmespath_search q v]: [jmespath.search(q, v, options)].
    - [py_repr v]: [str(v)] for a value that is not a string.
    - [float_of_str s]: [float(s)], [None] for [ValueError].
    - [float_of_int z]: [float(z)].
    - [metric_names cls name]: the time series names a collector of class
      [cls] constructed with [name] claims in a registry.
    - [valid_metric cls name labelnames]: whether the constructor accepts the
      metric name and label names. *)
Inductive metric_class : Type := Gauge | Counter | Info.

Class PyLibs : Type := {
  re_search : string -> string -> result (option (list (option string)));
  re_match : string -> string -> result bool;
  json_dumps : pyvalue -> result string;
  jmespath_search : string -> pyvalue -> result pyvalue;
  py_repr : pyvalue -> string;
  float_of_str : string -> option float;
  float_of_int : Z -> result float;
  metric_names : metric_class -> string -> list string;
  valid_metric : metric_class -> string -> list string -> bool
}.

Section Extractor.
Context `{L : PyLibs}.
Open Scope py_scope.

(** [str(v)]. *)
Definition py_str (v : pyvalue) : string :=
  match v with
  | JStr s => s
  | _ => py_repr v
  end.

(** [isinstance(partial, str) and partial.startswith("/")]. *)
Definition is_regex (partial : pyvalue) : bool :=
  match partial with
  | JStr s => startswith_slash s
  | _ => false
  end.

(** The regex branch of the loop body of [run_extractor] (lines 106-108). *)
Definition regex_stage (partial : pyvalue) (prev default : pyvalue)
  : result pyvalue :=
  let* text := json_dumps prev in
  let* m := re_search (strip_slash (py_str partial)) text in
  match m with
  | None => Ok JNull
  | Some groups =>
      match groups with
      | [] => Raise StopIteration
      | g :: _ => Ok (match g with Some s => JStr s | None => default end)
      end
  end.

(** The jmespath branch of the loop body (lines 110-112). *)
Definition jmespath_stage (partial : pyvalue) (prev default : pyvalue)
  : result pyvalue :=
  let* r := jmespath_search (py_str partial) prev in
  Ok (if truthy r then r else default).

(** One iteration of the inner loop (lines 103-112). *)
Definition run_partial (default : pyvalue) (prev partial : pyvalue)
  : result pyvalue :=
  if negb (truthy partial) then Ok default
  else if is_regex partial then regex_stage partial prev default
  else jmespath_stage partial prev default.

(** The inner loop over one chain (lines 102-112). *)
Fixpoint run_chain (default : pyvalue) (prev : pyvalue) (chain : list pyvalue)
  : result pyvalue :=
  match chain with
  | [] => Ok prev
  | partial :: rest =>
      let* r := run_partial default prev partial in
      run_chain default r rest
  end.

(** [x if isinstance(x, list) else [x]]. *)
Definition as_list (v : pyvalue) : list pyvalue :=
  match v with
  | JList l => l
  | _ => [v]
  end.

(** The outer loop (lines 96-113). *)
Fixpoint run_chains (default data : pyvalue) (extractors : list pyvalue)
  : result (list pyvalue) :=
  match extractors with
  | [] => Ok []
  | extractor :: rest =>
      let* prev := run_chain default data (as_list extractor) in
      let* extracted := run_chains default data rest in
      Ok (prev :: extracted)
  end.

(** [run_extractor(extractors, data, default)]. *)
Definition run_extractor (extractors data default : pyvalue) : result pyvalue :=
  let* extracted := run_chains default data (as_list extractors) in
  Ok (match extracted with
      | [x] => x
      | _ => JList extracted
      end).

End Extractor.

(** ** The functions [app.py] adds to jmespath *)

(** [CustomFunctions._func_items] (lines 23-25): the list of the
    [[key, value]] pairs of an object, in the order of its keys. *)
Definition _func_items (arg : list (string * pyvalue)) : list pyvalue :=
  map (fun kv => JList [JStr (fst kv); snd kv]) arg.

(** What [dict] takes of one element of its argument: the element is
    iterated and must give two items, key and value.  A list gives its
    elements, a string its characters, a dict its keys; anything else is not
    iterable. *)
Definition as_pair (e : pyvalue) : result (pyvalue * pyvalue) :=
  match e with
  | JList [k; v] => Ok (k, v)
  | JList _ => Raise ValueError
  | JStr (String a (String b EmptyString)) =>
      Ok (JStr (String a EmptyString), JStr (String b EmptyString))
  | JStr _ => Raise ValueError
  | JDict [(k1, _); (k2, _)] => Ok (JStr k1, JStr k2)
  | JDict _ => Raise ValueError
  | _ => Raise TypeError
  end.

(** [dict(pairs)], one element after the other: a later pair replaces the
    value of a key already there.  A key that is a list or a dict is
    unhashable.  A key that is [None], a bool or a number gives a dict
    that [pyvalue], whose dicts have string keys, does not hold: from there
    on the accumulator is [None], and the elements left are still checked. *)
Fixpoint dict_from (pairs : list pyvalue)
  (acc : option (list (string * pyvalue)))
  : result (option (list (string * pyvalue))) :=
  match pairs with
  | [] => Ok acc
  | e :: rest =>
      match as_pair e with
      | Raise x => Raise x
      | Ok (JStr k, v) => dict_from rest (option_map (dict_set k v) acc)
      | Ok (JList _, _) => Raise TypeError
      | Ok (JDict _, _) => Raise TypeError
      | Ok (_, _) => dict_from rest None
      end
  end.

(** [CustomFunctions._func_to_object] (lines 27-29): [dict(pairs)];
    [Ok None] is a dict with a key that is not a string. *)
Definition _func_to_object (pairs : list pyvalue) : result (option pyvalue) :=
  match dict_from pairs (Some []) with
  | Ok d => Ok (option_map JDict d)
  | Raise x => Raise x
  end.

(** ** The process-wide state *)

(** A labelled metric object of [prometheus_client] ([Gauge], [Counter] or
    [Info]): its constructor arguments and [_metrics], the children by tuple
    of label values.  A child of a gauge or counter holds one float; the
    payload of an info child is never written by [app.py] (see [child_info]),
    so the float of an info child is left at zero. *)
Record metric : Type := {
  m_class : metric_class;
  m_name : string;
  m_documentation : pyvalue;
  m_labelnames : list string;
  m_metrics : list (list string * float)
}.

(** The dict [app.py] stores under a key of [metrics_cache] (lines 220-227);
    [cm_instance] is the identity of the metric object. *)
Record cached_metric : Type := {
  cm_instance : nat;
  cm_name : string;
  cm_help : pyvalue;
  cm_type : pyvalue;
  cm_value : float;
  cm_labels : pyvalue
}.

(** One item of the [TTLCache]: key, value and the time its link expires. *)
Record cache_item : Type := {
  ci_key : string;
  ci_value : cached_metric;
  ci_expires : Z
}.

(** The world: the metric objects by identity, the registry
    ([_collector_to_names]; [_names_to_collectors] is its inverse),
    [metrics_cache] in least-recently-used order (the order of the cache's
    [__links]; its expiry list is the same items in order of [ci_expires],
    the clock being monotonic), and the clock the cache's timer reads. *)
Record world : Type := {
  heap : list metric;
  registry : list (nat * list string);
  metrics_cache : list cache_item;
  now : Z
}.

Definition set_heap (h : list metric) (w : world) : world :=
  {| heap := h; registry := registry w;
     metrics_cache := metrics_cache w; now := now w |}.

Definition set_registry (r : list (nat * list string)) (w : world) : world :=
  {| heap := heap w; registry := r;
     metrics_cache := metrics_cache w; now := now w |}.

Definition set_cache (c : list cache_item) (w : world) : world :=
  {| heap := heap w; registry := registry w;
     metrics_cache := c; now := now w |}.

(** Time passing between two requests. *)
Definition tick (d : Z) (w : world) : world :=
  {| heap := heap w; registry := registry w;
     metrics_cache := metrics_cache w; now := now w + d |}.

(** A computation on the world that may raise; the world reached is kept
    also when it raises, as Python keeps the effects made before a raise. *)
Definition M (A : Type) : Type := world -> result A * world.

Definition ret {A} (a : A) : M A := fun w => (Ok a, w).
Definition raise {A} (e : exn) : M A := fun w => (Raise e, w).
Definition lift {A} (r : result A) : M A := fun w => (r, w).
Definition bind {A B} (m : M A) (k : A -> M B) : M B :=
  fun w => match m w with
           | (Ok a, w') => k a w'
           | (Raise e, w') => (Raise e, w')
           end.

Notation "'do*' x ':=' m 'in' k" := (bind m (fun x => k))
  (at level 10, x name, m at level 100, k at level 200) : py_scope.
Notation "m ';;' k" := (bind m (fun _ => k))
  (at level 100, k at level 200, right associativity) : py_scope.

(** An entry of [event_handlers]: the pattern and the extractors, an
    absent [extractors] being the empty dict. *)
Record event_handler : Type := {
  h_event_title : string;
  h_extractors : list (string * pyvalue)
}.

(** What the handler reads of a request: the method, the parsed body
    ([request.json]) and the dict of the attributes of the request object
    ([vars(request)]), as far as its values are values of [pyvalue]. *)
Inductive http_method : Type := POST | PUT | DELETE.

Record request : Type := {
  rq_method : http_method;
  rq_json : pyvalue;
  rq_vars : pyvalue
}.

(** A [Response]: the status and the value given to [json.dumps] for the
    body, [None] for the empty body. *)
Record response : Type := {
  rs_body : option pyvalue;
  rs_status : Z
}.

(** The configuration file, with the keys [app.py] reads.  A key that may be
    left out is an option.  [max_size] counts entries: it is a natural
    number. *)
Record Config : Type := {
  event_handlers : list event_handler;
  webhook_basepath : option string;
  cache_max_size : option nat;
  cache_ttl : option Z
}.

(** [defaults["cache"]]. *)
Definition default_max_size : nat := 128.
Definition default_ttl : Z := 600.

(** [sorted(names)] and equality of lists of strings. *)
Fixpoint insert_sorted (s : string) (l : list string) : list string :=
  match l with
  | [] => [s]
  | x :: l' => if String.leb s x then s :: l else x :: insert_sorted s l'
  end.

Definition sorted (l : list string) : list string :=
  fold_right insert_sorted [] l.

Fixpoint strings_eqb (a b : list string) : bool :=
  match a, b with
  | [], [] => true
  | x :: a', y :: b' => String.eqb x y && strings_eqb a' b'
  | _, _ => false
  end.

(** Whether a dict handed over as keyword arguments has the key [self].
    Every method binds its first parameter, [self], to the object it is
    called on; a keyword of that name is a second value for it. *)
Definition binds_self (labels : list (string * pyvalue)) : bool :=
  existsb (String.eqb "self") (map fst labels).

Section Engine.
Context `{L : PyLibs} (config : Config).
Open Scope py_scope.

(** [maxsize] and [ttl] of [metrics_cache] (lines 72-77). *)
Definition maxsize : nat :=
  match cache_max_size config with Some n => n | None => default_max_size end.

Definition ttl : Z :=
  match cache_ttl config with Some t => t | None => default_ttl end.

(** *** The registry of [prometheus_client] *)

Definition registered (i : nat) (w : world) : bool :=
  existsb (fun e => Nat.eqb (fst e) i) (registry w).

Definition registered_names (w : world) : list string :=
  concat (map snd (registry w)).

(** [registry.register(collector)]: [ValueError] on a name already taken. *)
Definition registry_register (i : nat) (names : list string) : M unit :=
  fun w =>
    if existsb (fun n => existsb (String.eqb n) (registered_names w)) names
    then (Raise ValueError, w)
    else (Ok tt, set_registry (registry w ++ [(i, names)]) w).

(** [registry.unregister(collector)]: [KeyError] when it is not there. *)
Definition registry_unregister (i : nat) : M unit :=
  fun w =>
    if registered i w
    then (Ok tt,
          set_registry
            (List.filter (fun e => negb (Nat.eqb (fst e) i)) (registry w)) w)
    else (Raise KeyError, w).

(** *** Metric objects *)

(** [Gauge(name, help, labelnames=..., registry=registry)] and its siblings:
    validate, build the object, register it. *)
Definition new_metric (cls : metric_class) (name : string) (help : pyvalue)
  (labelnames : list string) : M nat :=
  fun w =>
    if negb (valid_metric cls name labelnames) then (Raise ValueError, w)
    else
      let i := length (heap w) in
      let m := {| m_class := cls; m_name := name; m_documentation := help;
                  m_labelnames := labelnames; m_metrics := [] |} in
      (registry_register i (metric_names cls name) ;; ret i)
        (set_heap (heap w ++ [m]) w).

(** The object behind an identity; every identity handed out is in the
    heap, so the [KeyError] is never seen. *)
Definition deref (i : nat) : M metric :=
  fun w => match heap w !! i with
           | Some m => (Ok m, w)
           | None => (Raise KeyError, w)
           end.

Definition assign (i : nat) (m : metric) : M unit :=
  fun w => (Ok tt, set_heap (<[i := m]> (heap w)) w).

Fixpoint child_get (lv : list string) (cs : list (list string * float))
  : option float :=
  match cs with
  | [] => None
  | (lv', x) :: cs' => if strings_eqb lv lv' then Some x else child_get lv cs'
  end.

Fixpoint child_put (lv : list string) (x : float)
  (cs : list (list string * float)) : list (list string * float) :=
  match cs with
  | [] => [(lv, x)]
  | (lv', x') :: cs' =>
      if strings_eqb lv lv' then (lv, x) :: cs'
      else (lv', x') :: child_put lv x cs'
  end.

(** [c.labels], called with the dict as keyword arguments (lines 125, 128
    and 131).  The method is [labels(self, *labelvalues, **labelkwargs)]: a
    key [self] in the dict is a second value for its first parameter, and
    the call raises [TypeError] before the method runs.  Otherwise the
    method refuses an object without label names and label names other than
    the object's ([ValueError]), and gives the child for these label values,
    created at zero when it is new.  The result names the child: parent and
    label values. *)
Definition metric_labels (c : nat) (labels : list (string * pyvalue))
  : M (nat * list string) :=
  do* m := deref c in
  if binds_self labels then raise TypeError
  else
    match m_labelnames m with
    | [] => raise ValueError
    | _ =>
        if negb (strings_eqb (sorted (map fst labels))
                             (sorted (m_labelnames m)))
        then raise ValueError
        else
          let lv := map (fun l => py_str (dict_get l labels JNull))
                        (m_labelnames m) in
          match child_get lv (m_metrics m) with
          | Some _ => ret (c, lv)
          | None =>
              assign c {| m_class := m_class m; m_name := m_name m;
                          m_documentation := m_documentation m;
                          m_labelnames := m_labelnames m;
                          m_metrics := m_metrics m ++ [(lv, 0%float)] |} ;;
              ret (c, lv)
          end
    end.

(** Write the float of a child. *)
Definition child_write (ch : nat * list string) (f : float -> float)
  : M unit :=
  do* m := deref (fst ch) in
  match child_get (snd ch) (m_metrics m) with
  | None => raise KeyError
  | Some x =>
      assign (fst ch)
        {| m_class := m_class m; m_name := m_name m;
           m_documentation := m_documentation m;
           m_labelnames := m_labelnames m;
           m_metrics := child_put (snd ch) (f x) (m_metrics m) |}
  end.

(** [child.set(value)]: only a gauge has the method. *)
Definition child_set (ch : nat * list string) (v : float) : M unit :=
  do* m := deref (fst ch) in
  match m_class m with
  | Gauge => child_write ch (fun _ => v)
  | _ => raise AttributeError
  end.

(** [child.inc(value)]: a gauge adds; a counter refuses a negative amount;
    an info has no such method. *)
Definition child_inc (ch : nat * list string) (v : float) : M unit :=
  do* m := deref (fst ch) in
  match m_class m with
  | Gauge => child_write ch (fun x => PrimFloat.add x v)
  | Counter =>
      if PrimFloat.ltb v 0%float then raise ValueError
      else child_write ch (fun x => PrimFloat.add x v)
  | Info => raise AttributeError
  end.

(** [child.info(value)] with [value] a float: a gauge or counter has no such
    method, and [Info.info] calls [value.keys()], which a float lacks. *)
Definition child_info (ch : nat * list string) (v : float) : M unit :=
  raise AttributeError.

(** [instance.clear()]: drop every child. *)
Definition metric_clear (i : nat) : M unit :=
  do* m := deref i in
  assign i {| m_class := m_class m; m_name := m_name m;
              m_documentation := m_documentation m;
              m_labelnames := m_labelnames m; m_metrics := [] |}.

(** *** [cachetools.TTLCache] and the wrapper class [Cache] *)

(** The item stored under a key, and the cache without the key. *)
Definition cache_find (key : string) (c : list cache_item)
  : option cache_item :=
  List.find (fun it => String.eqb key (ci_key it)) c.

Definition cache_remove (key : string) (c : list cache_item)
  : list cache_item :=
  List.filter (fun it => negb (String.eqb key (ci_key it))) c.

(** [time < link.expires]: the item has not expired at time [t]. *)
Definition live (t : Z) (it : cache_item) : bool := t <? ci_expires it.

(** [TTLCache.expire(time)]: drop the items whose time has come.  Nothing
    else happens to them: the method deletes through [Cache.__delitem__]
    and does not call [pop]. *)
Definition cache_expire : M unit :=
  fun w => (Ok tt, set_cache (List.filter (live (now w)) (metrics_cache w)) w).

(** [key in metrics_cache]. *)
Definition cache_contains (key : string) : M bool :=
  fun w => (Ok (match cache_find key (metrics_cache w) with
                | Some it => live (now w) it
                | None => false
                end), w).

(** [metrics_cache[key]]: the link moves to the recent end, then an expired
    or missing key is a [KeyError]. *)
Definition cache_getitem (key : string) : M cached_metric :=
  fun w =>
    match cache_find key (metrics_cache w) with
    | None => (Raise KeyError, w)
    | Some it =>
        let w' := set_cache (cache_remove key (metrics_cache w) ++ [it]) w in
        if live (now w) it then (Ok (ci_value it), w')
        else (Raise KeyError, w')
    end.

(** [del metrics_cache[key]]. *)
Definition cache_delitem (key : string) : M unit :=
  fun w =>
    match cache_find key (metrics_cache w) with
    | None => (Raise KeyError, w)
    | Some it =>
        let w' := set_cache (cache_remove key (metrics_cache w)) w in
        if live (now w) it then (Ok tt, w') else (Raise KeyError, w')
    end.

(** [cachetools.Cache.pop(key)], the method [super().pop] reaches. *)
Definition cachetools_pop (key : string) : M cached_metric :=
  do* present := cache_contains key in
  if present : bool then
    do* value := cache_getitem key in
    cache_delitem key ;;
    ret value
  else raise KeyError.

(** [Cache.pop] of [app.py] (lines 63-68).  Every value the handler stores
    has the key ["instance"], so the test of line 65 holds. *)
Definition Cache_pop (key : string) : M cached_metric :=
  do* value := cachetools_pop key in
  metric_clear (cm_instance value) ;;
  registry_unregister (cm_instance value) ;;
  ret value.

(** [TTLCache.popitem()]: expire, then pop the least recently used key
    through [self.pop], which is [Cache.pop] of [app.py]. *)
Definition cache_popitem : M (string * cached_metric) :=
  cache_expire ;;
  do* key := (fun w => match metrics_cache w with
                       | [] => (Raise KeyError, w)
                       | it :: _ => (Ok (ci_key it), w)
                       end) in
  do* value := Cache_pop key in
  ret (key, value).

(** [while self.currsize + size > maxsize: self.popitem()] of
    [Cache.__setitem__], every value having size 1.  The loop runs on fuel;
    [evict_loop_fuel] shows that the length of the cache is fuel enough. *)
Fixpoint evict_loop (fuel : nat) : M unit :=
  fun w =>
    if (length (metrics_cache w) + 1 <=? maxsize)%nat then (Ok tt, w)
    else match fuel with
         | O => (Raise KeyError, w)
         | S fuel' => (cache_popitem ;; evict_loop fuel') w
         end.

(** [metrics_cache[key] = value]: expire; refuse when nothing fits; make
    room for a new key; store the value and put a fresh link, expiring
    [ttl] from now, at the recent end. *)
Definition cache_setitem (key : string) (value : cached_metric) : M unit :=
  cache_expire ;;
  if (maxsize <? 1)%nat then raise ValueError
  else
    (fun w =>
       match cache_find key (metrics_cache w) with
       | Some _ => (Ok tt, w)
       | None => evict_loop (length (metrics_cache w)) w
       end) ;;
    fun w =>
      (Ok tt,
       set_cache (cache_remove key (metrics_cache w)
                  ++ [{| ci_key := key; ci_value := value;
                         ci_expires := now w + ttl |}]) w).

(** *** [setup_metric] and the handler *)

(** [float(v)]. *)
Definition py_float (v : pyvalue) : result float :=
  match v with
  | JNull => Raise TypeError
  | JBool b => Ok (if b then 1%float else 0%float)
  | JInt z => float_of_int z
  | JFloat f => Ok f
  | JStr s => match float_of_str s with
              | Some f => Ok f
              | None => Raise ValueError
              end
  | JList _ => Raise TypeError
  | JDict _ => Raise TypeError
  end.

(** [old_instance or cls(metric_name, help, labelnames=label_keys,
    registry=registry)]: a metric object is truthy. *)
Definition instance_or_new (old_instance : option nat) (cls : metric_class)
  (metric_name : string) (help : pyvalue) (label_keys : list string) : M nat :=
  match old_instance with
  | Some c => ret c
  | None => new_metric cls metric_name help label_keys
  end.

(** [setup_metric] (lines 118-135). *)
Definition setup_metric (m_type : pyvalue) (metric_name : string)
  (help labels : pyvalue) (value : float) (old_instance : option nat) : M nat :=
  match m_type with
  | JStr t =>
      match labels with
      | JDict [] => raise ValueError
      | JDict items =>
          let label_keys := map fst items in
          if String.eqb t "gauge" then
            do* c := instance_or_new old_instance Gauge metric_name help
                       label_keys in
            do* ch := metric_labels c items in
            child_set ch value ;;
            ret c
          else if String.eqb t "counter" then
            do* c := instance_or_new old_instance Counter metric_name help
                       label_keys in
            do* ch := metric_labels c items in
            child_inc ch value ;;
            ret c
          else if String.eqb t "info" then
            do* c := instance_or_new old_instance Info metric_name help
                       label_keys in
            do* ch := metric_labels c items in
            child_info ch value ;;
            ret c
          else raise ValueError
      | _ => raise AttributeError
      end
  | _ => raise AssertionError
  end.

(** Lines 210-230: look the key up, set the metric up, store the entry; the
    debug [print(metrics_cache)] expires the cache once more. *)
Definition store_metric (metric_name : string) (help m_type : pyvalue)
  (value : float) (labels : pyvalue) : M unit :=
  let key := metric_name in
  do* present := cache_contains key in
  do* old_instance :=
    (if present : bool then
       do* entry := cache_getitem key in ret (Some (cm_instance entry))
     else ret None) in
  do* metric_instance :=
    setup_metric m_type metric_name help labels value old_instance in
  cache_setitem key
    {| cm_instance := metric_instance; cm_name := metric_name;
       cm_help := help; cm_type := m_type; cm_value := value;
       cm_labels := labels |} ;;
  cache_expire.

(** Lines 171-174: the first handler whose pattern [re.match]es the title;
    the generator stops there, later patterns are not tried. *)
Fixpoint find_handler (handlers : list event_handler) (event_title : string)
  : result (option event_handler) :=
  match handlers with
  | [] => Ok None
  | c :: rest =>
      let* matched := re_match (h_event_title c) event_title in
      if matched : bool then Ok (Some c) else find_handler rest event_title
  end.

(** Lines 178-191: the 404 of an event no handler matches.  The dict is built
    from [config["webhook_basepath"]], a [KeyError] when the file leaves the
    key out. *)
Definition not_found_response : M response :=
  match webhook_basepath config with
  | None => raise KeyError
  | Some basepath =>
      ret {| rs_body := Some (JDict
               [("error", JStr "not found");
                ("webhook_basepath", JStr basepath);
                ("configured_events",
                 JList (map (fun c => JStr (basepath ++ "/ + /"
                                            ++ h_event_title c ++ "/"))
                            (event_handlers config)))]);
             rs_status := 404 |}
  end.

(** [reduce(lambda a, b: {**a, **b}, labels)] (line 208). *)
Definition merge_two (a b : pyvalue) : result pyvalue :=
  match a, b with
  | JDict x, JDict y => Ok (JDict (dict_merge x y))
  | _, _ => Raise TypeError
  end.

Fixpoint reduce_merge (acc : pyvalue) (l : list pyvalue) : result pyvalue :=
  match l with
  | [] => Ok acc
  | b :: l' => let* acc' := merge_two acc b in reduce_merge acc' l'
  end.

Definition merge_labels (labels : pyvalue) : result pyvalue :=
  match labels with
  | JList [] => Raise TypeError
  | JList (a :: l) => reduce_merge a l
  | _ => Ok labels
  end.

(** Lines 197-208: the four extractions and the merge of the labels. *)
Definition extract_fields (metric_extractors : list (string * pyvalue))
  (jmespath_data : pyvalue) : result (pyvalue * pyvalue * float * pyvalue) :=
  let* help := run_extractor (dict_get "help" metric_extractors JNull)
                 jmespath_data (JStr "default help") in
  let* m_type := run_extractor (dict_get "type" metric_extractors JNull)
                   jmespath_data (JStr "gauge") in
  let* raw := run_extractor (dict_get "value" metric_extractors JNull)
                jmespath_data JNull in
  let* value := py_float raw in
  let* labels := run_extractor (dict_get "labels" metric_extractors JNull)
                   jmespath_data
                   (JDict [("warn", JStr "label extraction failed")]) in
  let* labels := merge_labels labels in
  Ok (help, m_type, value, labels).

(** Lines 210-239: store the metric and answer 200. *)
Definition store_fields (metric_name : string)
  (fields : pyvalue * pyvalue * float * pyvalue) : M response :=
  let '(help, m_type, value, labels) := fields in
  store_metric metric_name help m_type value labels ;;
  ret {| rs_body := None; rs_status := 200 |}.

(** [receive_webhook_request(event_title)] (lines 146-239), with the
    textfile output off, as [defaults] has it. *)
Definition receive_webhook_request (event_title : string) (rq : request)
  : M response :=
  let metric_name := event_title in
  match rq_method rq with
  | DELETE =>
      do* present := cache_contains metric_name in
      if negb present then
        ret {| rs_body := Some (JDict [("error", JStr "not found")]);
               rs_status := 404 |}
      else
        Cache_pop metric_name ;;
        ret {| rs_body := Some (JDict [("removed_metric", JStr metric_name)]);
               rs_status := 202 |}
  | _ =>
      let data := rq_json rq in
      do* handler := lift (find_handler (event_handlers config) event_title) in
      match handler with
      | None => not_found_response
      | Some handler =>
          let metric_extractors := h_extractors handler in
          let jmespath_data := JDict [("data", data); ("req", rq_vars rq)] in
          do* fields := lift (extract_fields metric_extractors jmespath_data) in
          store_fields metric_name fields
      end
  end.

(** The server: requests arrive one after the other while time passes; an
    exception ends its request (the framework answers 500) and the world
    stays as the request left it. *)
Inductive event : Type :=
  | Request (event_title : string) (rq : request)
  | Tick (d : Z).

Definition step (w : world) (ev : event) : world :=
  match ev with
  | Request event_title rq => snd (receive_webhook_request event_title rq w)
  | Tick d => tick (Z.max 0 d) w
  end.

Definition run (evs : list event) (w : world) : world :=
  fold_left step evs w.

End Engine.

(** The world at start-up: no metric, an empty registry, an empty cache. *)
Definition init_world (t0 : Z) : world :=
  {| heap := []; registry := []; metrics_cache := []; now := t0 |}.

(** ** A small implementation of the library interface

    Exact on a fragment of each library, enough to run the handler on
    concrete requests: regular expressions that are a literal, or a literal
    with one parenthesised literal inside; jmespath queries that are a dotted
    path of identifiers, alone or behind a leading [*]; JSON text of values
    without floats whose strings need no escape; floats written as decimal
    integers, [nan] or [inf].
    Outside its fragment a function answers with an exception. *)
Module Fragment.

Definition plain_char (c : ascii) : bool :=
  let n := nat_of_ascii c in
  ((48 <=? n) && (n <=? 57) || (65 <=? n) && (n <=? 90)
   || (97 <=? n) && (n <=? 122) || (n =? 95) || (n =? 32))%nat.

Definition ident_char (c : ascii) : bool :=
  plain_char c && negb (nat_of_ascii c =? 32)%nat.

Fixpoint all_chars (p : ascii -> bool) (s : string) : bool :=
  match s with
  | EmptyString => true
  | String c s' => p c && all_chars p s'
  end.

Definition is_ident (s : string) : bool :=
  match s with
  | EmptyString => false
  | String c _ =>
      all_chars ident_char s
      && negb ((48 <=? nat_of_ascii c) && (nat_of_ascii c <=? 57))%nat
  end.

(** [s.split(c, 1)] when [c] occurs. *)
Fixpoint split_at (c : ascii) (s : string) : option (string * string) :=
  match s with
  | EmptyString => None
  | String x s' =>
      if Ascii.eqb x c then Some (EmptyString, s')
      else match split_at c s' with
           | Some (a, b) => Some (String x a, b)
           | None => None
           end
  end.

Fixpoint split_all (c : ascii) (s : string) : list string :=
  match s with
  | EmptyString => [EmptyString]
  | String x s' =>
      if Ascii.eqb x c then EmptyString :: split_all c s'
      else match split_all c s' with
           | a :: l => String x a :: l
           | [] => [String x EmptyString]
           end
  end.

Definition occurs (needle hay : string) : bool :=
  match String.index 0 needle hay with
  | Some _ => true
  | None => match needle with EmptyString => true | _ => false end
  end.

Definition lit_search (p s : string)
  : result (option (list (option string))) :=
  match split_at "(" p with
  | None =>
      if all_chars plain_char p
      then Ok (if occurs p s then Some [] else None)
      else Raise ReError
  | Some (pre, rest) =>
      match split_at ")" rest with
      | None => Raise ReError
      | Some (grp, post) =>
          if all_chars plain_char pre && all_chars plain_char grp
             && all_chars plain_char post
          then Ok (if occurs (pre ++ grp ++ post) s
                   then Some [Some grp] else None)
          else Raise ReError
      end
  end.

(** A pattern [^literal], [literal], [^literal.*] or [literal.*] matches at
    the start of the string when the literal is a prefix of it. *)
Definition drop_caret (p : string) : string :=
  match p with
  | String "^" p' => p'
  | _ => p
  end.

Definition drop_dot_star (p : string) : string :=
  match string_rev p with
  | String "*" (String "." r) => string_rev r
  | _ => p
  end.

Definition lit_match (p s : string) : result bool :=
  let lit := drop_dot_star (drop_caret p) in
  if all_chars plain_char lit then Ok (String.prefix lit s)
  else Raise ReError.

Definition dquote : string := String (ascii_of_nat 34) EmptyString.

Definition decimal (z : Z) : string := NilZero.string_of_int (Z.to_int z).

Fixpoint join (sep : string) (l : list string) : string :=
  match l with
  | [] => EmptyString
  | [x] => x
  | x :: l' => x ++ sep ++ join sep l'
  end.

Fixpoint dumps (v : pyvalue) : result string :=
  match v with
  | JNull => Ok "null"
  | JBool b => Ok (if b then "true" else "false")
  | JInt z => Ok (decimal z)
  | JFloat _ => Raise TypeError
  | JStr s =>
      if all_chars plain_char s then Ok (dquote ++ s ++ dquote)
      else Raise TypeError
  | JList l =>
      let* items :=
        (fix go (l : list pyvalue) : result (list string) :=
           match l with
           | [] => Ok []
           | x :: r =>
               let* a := dumps x in
               let* b := go r in Ok (a :: b)
           end) l in
      Ok ("[" ++ join ", " items ++ "]")
  | JDict d =>
      let* items :=
        (fix go (d : list (string * pyvalue)) : result (list string) :=
           match d with
           | [] => Ok []
           | (k, x) :: r =>
               if all_chars plain_char k then
                 let* a := dumps x in
                 let* b := go r in
                 Ok ((dquote ++ k ++ dquote ++ ": " ++ a) :: b)
               else Raise TypeError
           end) d in
      Ok ("{" ++ join ", " items ++ "}")
  end%py.

Fixpoint path_get (ids : list string) (v : pyvalue) : pyvalue :=
  match ids with
  | [] => v
  | i :: r =>
      match v with
      | JDict d => path_get r (dict_get i d JNull)
      | _ => JNull
      end
  end.

(** The query [*] at the head of a path, a projection over the values of
    an object: the rest of the path is asked of each value, in the order of
    the keys, and the answers that are not null are collected.  Asked of
    anything that is no object it gives null. *)
Definition star_get (ids : list string) (v : pyvalue) : pyvalue :=
  match v with
  | JDict d =>
      JList (List.filter (fun x => match x with JNull => false | _ => true end)
               (map (fun kv => path_get ids (snd kv)) d))
  | _ => JNull
  end.

Definition path_search (q : string) (v : pyvalue) : result pyvalue :=
  match split_all "." q with
  | first :: ids =>
      if String.eqb first "*" then
        if forallb is_ident ids then Ok (star_get ids v)
        else Raise JMESPathError
      else if forallb is_ident (first :: ids)
      then Ok (path_get (first :: ids) v)
      else Raise JMESPathError
  | [] => Raise JMESPathError
  end.

Definition repr (v : pyvalue) : string :=
  match v with
  | JNull => "None"
  | JBool b => if b then "True" else "False"
  | JInt z => decimal z
  | JStr s => s
  | _ => "?"
  end.

Definition int_to_float (z : Z) : result float :=
  if (Z.abs z <? 2 ^ 53)%Z then
    let f := PrimFloat.of_uint63 (Uint63.of_Z (Z.abs z)) in
    Ok (if (z <? 0)%Z then PrimFloat.opp f else f)
  else Raise OverflowError.

Definition parse_float (s : string) : option float :=
  if String.eqb s "nan" then Some PrimFloat.nan
  else if String.eqb s "inf" then Some PrimFloat.infinity
  else match NilZero.int_of_string s with
       | Some d => match int_to_float (Z.of_int d) with
                   | Ok f => Some f
                   | Raise _ => None
                   end
       | None => None
       end.

Definition strip_total (name : string) : string :=
  match string_rev name with
  | String "l" (String "a" (String "t" (String "o" (String "t"
      (String "_" r))))) => string_rev r
  | _ => name
  end.

Definition names_of (cls : metric_class) (name : string) : list string :=
  match cls with
  | Gauge => [name]
  | Counter =>
      let base := strip_total name in
      [base; base ++ "_total"; base ++ "_created"]
  | Info => [name; name ++ "_info"]
  end.

(** The constructor takes a metric name and label names that are
    identifiers; a label name that starts with two underscores is
    reserved. *)
Definition valid_names (cls : metric_class) (name : string)
  (labelnames : list string) : bool :=
  is_ident name
  && forallb (fun l => is_ident l && negb (String.prefix "__" l)) labelnames.

#[export] Instance libs : PyLibs := {|
  re_search := lit_search;
  re_match := lit_match;
  json_dumps := dumps;
  jmespath_search := path_search;
  py_repr := repr;
  float_of_str := parse_float;
  float_of_int := int_to_float;
  metric_names := names_of;
  valid_metric := valid_names
|}.

End Fragment.

(** * Sample configuration and requests *)

(** Two handlers, the second wider than the first; the queries are paths
    into the wrapper dict.  The file has no [webhook_basepath]. *)
Definition sample_extractors : list (string * pyvalue) :=
  [("type", JStr "data.type"); ("value", JStr "data.value");
   ("labels", JStr "data.labels")].

Definition sample_config : Config :=
  {| event_handlers :=
       [{| h_event_title := "^odalogs_error";
           h_extractors := sample_extractors |};
        {| h_event_title := "^odalogs_.*";
           h_extractors := ("help", JStr "data.help") :: sample_extractors |}];
     webhook_basepath := None;
     cache_max_size := Some 2%nat;
     cache_ttl := Some 10 |}.

(** A POST whose body gives the type, the value and one label. *)
Definition post (m_type : string) (value : pyvalue) : request :=
  {| rq_method := POST;
     rq_json := JDict [("type", JStr m_type); ("value", value);
                       ("labels", JDict [("host", JStr "a")])];
     rq_vars := JDict [] |}.

(** The answer to a create/update that went through. *)
Definition ok_200 : response := {| rs_body := None; rs_status := 200 |}.

(** The handler under the sample configuration and the small libraries. *)
Definition serve (event_title : string) (rq : request) (w : world)
  : result response * world :=
  receive_webhook_request (L := Fragment.libs) sample_config event_title rq w.

(** After a gauge posted under ["odalogs_a"] at time 0. *)
Definition w_a : world :=
  snd (serve "odalogs_a" (post "gauge" (JInt 5)) (init_world 0)).

(** Then, eleven seconds later, a gauge under ["odalogs_b"]. *)
Definition w_ab : world :=
  snd (serve "odalogs_b" (post "gauge" (JInt 1)) (tick 11 w_a)).

(** The item of ["odalogs_a"] in [w_a]. *)
Definition item_a : cache_item :=
  {| ci_key := "odalogs_a";
     ci_value := {| cm_instance := 0; cm_name := "odalogs_a";
                    cm_help := JStr "default help"; cm_type := JStr "gauge";
                    cm_value := 5%float;
                    cm_labels := JDict [("host", JStr "a")] |};
     ci_expires := 10 |}.

(** The default of the labels (line 204). *)
Definition warn_default : pyvalue :=
  JDict [("warn", JStr "label extraction failed")].

(** After a counter created under ["odalogs_c"] with delta 5. *)
Definition w_c1 : world :=
  snd (store_metric (L := Fragment.libs) sample_config "odalogs_c"
         (JStr "h") (JStr "counter") 5%float (JDict [("host", JStr "a")])
         (run (L := Fragment.libs) sample_config [] (init_world 0))).

(** From [w_a], one second later, a gauge under ["odalogs_b"]; then,
    one more second later, a counter under ["odalogs_c"]. *)
Definition w_b : world :=
  snd (serve "odalogs_b" (post "gauge" (JInt 1)) (tick 1 w_a)).

Definition w_c : world :=
  snd (serve "odalogs_c" (post "counter" (JInt 2)) (tick 1 w_b)).

(** A configuration whose one handler has no extractors, and that leaves the
    size and the time to live of the cache to the defaults. *)
Definition bare_config : Config :=
  {| event_handlers :=
       [{| h_event_title := "^odalogs_.*"; h_extractors := [] |}];
     webhook_basepath := Some "/webhook";
     cache_max_size := None;
     cache_ttl := None |}.

(** The dict the handler gives the extractors for a request (line 195). *)
Definition wrapper (rq : request) : pyvalue :=
  JDict [("data", rq_json rq); ("req", rq_vars rq)].

(** A configuration whose handler takes the labels by a query that does
    not name [data]: a projection over the values of the wrapper dict. *)
Definition star_config : Config :=
  {| event_handlers :=
       [{| h_event_title := "^odalogs_.*";
           h_extractors := [("type", JStr "data.type");
                            ("value", JStr "data.value");
                            ("labels", JStr "*.labels")] |}];
     webhook_basepath := None;
     cache_max_size := None;
     cache_ttl := None |}.

(** One label, [host], with the value given. *)
Definition host (v : string) : list (string * pyvalue) := [("host", JStr v)].

(** After a gauge created under ["odalogs_g"] with value 5. *)
Definition w_g1 : world :=
  snd (store_metric (L := Fragment.libs) sample_config "odalogs_g"
         (JStr "h") (JStr "gauge") 5%float (JDict (host "a"))
         (run (L := Fragment.libs) sample_config [] (init_world 0))).

(** Two gauges posted one time unit apart, and one more unit passed: the
    cache, of size two, is full. *)
Definition evs_ab : list event :=
  [Request "odalogs_a" (post "gauge" (JInt 5)); Tick 1;
   Request "odalogs_b" (post "gauge" (JInt 1)); Tick 1].

(** * Vocabulary of the properties *)

Section Facts.
Context `{L : PyLibs} (config : Config).
Open Scope py_scope.

(** [m] keeps [P]: from a world with [P] it ends, raising or not, in a
    world with [P]. *)
Definition keeps {A} (P : world -> Prop) (m : M A) : Prop :=
  forall w, P w -> P (snd (m w)).

(** A property that survives any change of the registry and any change of
    the heap that keeps every identity: such a property speaks of the cache,
    the clock and the size of the heap only. *)
Definition grow_only (P : world -> Prop) : Prop :=
  (forall w h, (length (heap w) <= length h)%nat -> P w -> P (set_heap h w))
  /\ (forall w r, P w -> P (set_registry r w)).

(** A property that survives any assignment to the object [i]. *)
Definition assign_at (i : nat) (P : world -> Prop) : Prop :=
  forall w m, P w -> P (set_heap (<[i := m]> (heap w)) w).

(** The cache holds at most [maxsize] items. *)
Definition bounded (w : world) : Prop :=
  (length (metrics_cache w) <= maxsize config)%nat.

(** From [P], [m] ends in [Q] when it returns and in [E] when it raises. *)
Definition ends {A} (P : world -> Prop) (m : M A)
  (Q : A -> world -> Prop) (E : world -> Prop) : Prop :=
  forall w, P w -> match m w with
                   | (Ok a, w') => Q a w'
                   | (Raise _, w') => E w'
                   end.

(** The object after [clear()]. *)
Definition cleared (m : metric) : metric :=
  {| m_class := m_class m; m_name := m_name m;
     m_documentation := m_documentation m;
     m_labelnames := m_labelnames m; m_metrics := [] |}.

(** The keys of the cache are distinct and every cached identity is in
    the heap. *)
Definition well_formed (w : world) : Prop :=
  List.NoDup (map ci_key (metrics_cache w))
  /\ forall it, In it (metrics_cache w) ->
                (cm_instance (ci_value it) < length (heap w))%nat.

(** A property of the size of the heap only: the cache may change at will. *)
Definition steady (P : world -> Prop) : Prop :=
  grow_only P /\ forall w c, P w -> P (set_cache c w).

(** The heap holds at least [n] objects. *)
Definition heap_has (n : nat) (w : world) : Prop :=
  (n <= length (heap w))%nat.

(** The world after [TTLCache.expire]. *)
Definition expired (w : world) : world :=
  set_cache (List.filter (live (now w)) (metrics_cache w)) w.

(** [w'] differs from [w] at most in the object [c]. *)
Definition touches (c : nat) (w w' : world) : Prop :=
  registry w' = registry w
  /\ metrics_cache w' = metrics_cache w
  /\ now w' = now w
  /\ length (heap w') = length (heap w)
  /\ forall j, j <> c -> heap w' !! j = heap w !! j.

(** The item [cache_setitem] appends in world [w]. *)
Definition new_item (key : string) (value : cached_metric) (w : world)
  : cache_item :=
  {| ci_key := key; ci_value := value; ci_expires := now w + ttl config |}.

(** The dict the handler stores (lines 220-227). *)
Definition entry_of (c : nat) (name : string) (help m_type : pyvalue)
  (value : float) (labels : pyvalue) : cached_metric :=
  {| cm_instance := c; cm_name := name; cm_help := help; cm_type := m_type;
     cm_value := value; cm_labels := labels |}.

(** A create/update request for [key], answered 200. *)
Definition upserted (key : string) (w w' : world) : Prop :=
  exists rq,
    rq_method rq <> DELETE
    /\ receive_webhook_request config key rq w
       = (Ok {| rs_body := None; rs_status := 200 |}, w').

(** Upserts of the keys of a list, one after the other, time passing
    before each. *)
Inductive upserts : list string -> world -> world -> Prop :=
  | upserts_nil w : upserts [] w w
  | upserts_cons key keys d w w1 w2 :
      0 <= d -> upserted key (tick d w) w1 -> upserts keys w1 w2 ->
      upserts (key :: keys) w w2.

(** The cache holds the keys [done], in this order, with the instances
    [base], [base + 1], ...; these are the registered collectors and the
    last objects of the heap; nothing expires before [t0 + ttl]. *)
Definition filled (t0 : Z) (base : nat) (done : list string) (w : world)
  : Prop :=
  map ci_key (metrics_cache w) = done
  /\ map (fun it => cm_instance (ci_value it)) (metrics_cache w)
     = seq base (length done)
  /\ map fst (registry w) = seq base (length done)
  /\ length (heap w) = (base + length done)%nat
  /\ (forall it, In it (metrics_cache w) -> t0 + ttl config <= ci_expires it)
  /\ t0 <= now w.

(** What the registry exports for the child [lv] of the collector [c]. *)
Definition exported (w : world) (c : nat) (lv : list string) : option float :=
  if registered c w then
    match heap w !! c with
    | Some m => child_get lv (m_metrics m)
    | None => None
    end
  else None.

(** The label values [labels] gives to the label names [names]. *)
Definition label_values (names : list string) (items : list (string * pyvalue))
  : list string :=
  map (fun l => py_str (dict_get l items JNull)) names.

(** The tuple of label values of a metric created with [labels]. *)
Definition label_tuple (labels : pyvalue) : list string :=
  match labels with
  | JDict items => label_values (map fst items) items
  | _ => []
  end.

(** The object with its children replaced. *)
Definition with_metrics (m : metric) (cs : list (list string * float))
  : metric :=
  {| m_class := m_class m; m_name := m_name m;
     m_documentation := m_documentation m;
     m_labelnames := m_labelnames m; m_metrics := cs |}.



(** ** Vocabulary of the invariants *)

(** The metric object of a cache item. *)
Definition instance_of (it : cache_item) : nat := cm_instance (ci_value it).

(** Every cached metric is in the registry, and no two items of the cache
    share a metric object. *)
Definition tracked (w : world) : Prop :=
  List.NoDup (map instance_of (metrics_cache w))
  /\ forall it, In it (metrics_cache w) -> registered (instance_of it) w = true.

(** The cache is consistent with the heap and the registry. *)
Definition consistent (w : world) : Prop := well_formed w /\ tracked w.

(** A property that survives a longer heap and one more registry entry. *)
Definition append_only (P : world -> Prop) : Prop :=
  (forall w h, (length (heap w) <= length h)%nat -> P w -> P (set_heap h w))
  /\ (forall w e, P w -> P (set_registry (registry w ++ [e]) w)).

(** The objects [cs] are registered, in the heap, and in no cache item. *)
Definition aside (cs : list nat) (w : world) : Prop :=
  forall c, In c cs ->
    registered c w = true /\ heap_has (S c) w
    /\ forall it, In it (metrics_cache w) -> instance_of it <> c.

(** The object [c] is registered, in the heap, and cached under [key] at
    most. *)
Definition owned (c : nat) (key : string) (w : world) : Prop :=
  registered c w = true /\ heap_has (S c) w
  /\ forall it, In it (metrics_cache w) -> instance_of it = c -> ci_key it = key.

(** No item of the cache has expired. *)
Definition all_live (w : world) : Prop :=
  forall it, In it (metrics_cache w) -> live (now w) it = true.

(** The type string that selects a class in [setup_metric]. *)
Definition type_of (cls : metric_class) : string :=
  match cls with
  | Gauge => "gauge"
  | Counter => "counter"
  | Info => "info"
  end.

(** Whether the child of an instance of class [inst] has the method that
    [setup_metric] calls for the class [cls] of the request, and takes the
    value: [set] is a method of gauges, [inc] of gauges and counters, and a
    counter refuses an amount below zero; [info] with a float always fails. *)
Definition accepts (cls inst : metric_class) (v : float) : bool :=
  match cls, inst with
  | Gauge, Gauge => true
  | Counter, Gauge => true
  | Counter, Counter => negb (PrimFloat.ltb v 0%float)
  | _, _ => false
  end.

(** The class a type string selects in [setup_metric]. *)
Definition class_of (t : string) : option metric_class :=
  if String.eqb t "gauge" then Some Gauge
  else if String.eqb t "counter" then Some Counter
  else if String.eqb t "info" then Some Info
  else None.

(** The key is cached, just stored, with the gauge [c], whose label names
    are [names]; the gauge is registered. *)
Definition gauge_at (key : string) (c : nat) (names : list string)
  (w : world) : Prop :=
  exists it m,
    cache_find key (metrics_cache w) = Some it
    /\ ci_expires it = now w + ttl config
    /\ cm_instance (ci_value it) = c
    /\ heap w !! c = Some m
    /\ m_class m = Gauge
    /\ m_labelnames m = names
    /\ registered c w = true.

(** Upserts of gauge values on one key with the same labels, time passing
    before each; the first that raises ends the run. *)
Fixpoint gauge_upserts (key : string) (labels : pyvalue)
  (steps : list (Z * pyvalue * float)) (w : world) : result unit * world :=
  match steps with
  | [] => (Ok tt, w)
  | (d, help, v) :: rest =>
      match store_metric config key help (JStr "gauge") v labels (tick d w)
      with
      | (Ok _, w') => gauge_upserts key labels rest w'
      | (Raise e, w') => (Raise e, w')
      end
  end.

(** The object [c] is in the heap under the metric name [key]. *)
Definition named_for (c : nat) (key : string) (w : world) : Prop :=
  exists m, heap w !! c = Some m /\ m_name m = key.

(** The registry holds for every collector the names its object claims, no
    name is held twice, and every cached metric has the name of its key. *)
Definition named (w : world) : Prop :=
  (forall i ns, In (i, ns) (registry w) ->
     exists m, heap w !! i = Some m
               /\ ns = metric_names (m_class m) (m_name m))
  /\ (forall i ns j ms n,
        In (i, ns) (registry w) -> In (j, ms) (registry w) ->
        In n ns -> In n ms -> i = j)
  /\ (forall it, In it (metrics_cache w) ->
        named_for (instance_of it) (ci_key it) w).

(** [named], and the objects of [extra] under their names. *)
Definition named_with (extra : list (nat * string)) (w : world) : Prop :=
  named w /\ forall c key, In (c, key) extra -> named_for c key w.

(** The object [c] is in the heap and [labels] is a dict that its method
    [labels] takes: no key is [self], and the keys are its label names. *)
Definition labelled_for (c : nat) (labels : pyvalue) (w : world) : Prop :=
  exists m items,
    heap w !! c = Some m /\ labels = JDict items
    /\ binds_self items = false
    /\ strings_eqb (sorted (map fst items)) (sorted (m_labelnames m)) = true.

(** Every cache entry records labels that its metric takes. *)
Definition labelled (w : world) : Prop :=
  forall it, In it (metrics_cache w) ->
    labelled_for (instance_of it) (cm_labels (ci_value it)) w.

(** [labelled], and the objects of [extra] with their labels. *)
Definition labelled_with (extra : list (nat * pyvalue)) (w : world) : Prop :=
  labelled w
  /\ forall c labels, In (c, labels) extra -> labelled_for c labels w.

(** * Properties *)

(** ** The extractor *)

Lemma run_chain_app (default prev : pyvalue) (a b : list pyvalue) :
  run_chain default prev (a ++ b)
  = (let* r := run_chain default prev a in run_chain default r b).
Proof.
  revert prev; induction a as [|p a IH]; intros prev; simpl; [reflexivity|].
  destruct (run_partial default prev p) as [r|e]; simpl; auto.
Qed.

Lemma run_partial_falsy (default prev p : pyvalue) :
  truthy p = false -> run_partial default prev p = Ok default.
Proof. intros H; unfold run_partial; rewrite H; reflexivity. Qed.

(** A single stage, not wrapped in lists, is a chain of one stage. *)
Lemma run_extractor_single (p data default : pyvalue) :
  (forall l, p <> JList l) ->
  run_extractor p data default = run_partial default data p.
Proof.
  intros Hp; unfold run_extractor.
  assert (Hl : as_list p = [p]) by (destruct p; try reflexivity; congruence).
  rewrite Hl; simpl; rewrite Hl; simpl.
  destruct (run_partial default data p); reflexivity.
Qed.

(** What the regex stage does in each case of the search. *)
Lemma regex_stage_first_group (partial prev default : pyvalue) text s rest :
  json_dumps prev = Ok text ->
  re_search (strip_slash (py_str partial)) text = Ok (Some (Some s :: rest)) ->
  regex_stage partial prev default = Ok (JStr s).
Proof. intros H1 H2; unfold regex_stage; rewrite H1; simpl; rewrite H2; reflexivity. Qed.

Lemma regex_stage_idle_group (partial prev default : pyvalue) text rest :
  json_dumps prev = Ok text ->
  re_search (strip_slash (py_str partial)) text = Ok (Some (None :: rest)) ->
  regex_stage partial prev default = Ok default.
Proof. intros H1 H2; unfold regex_stage; rewrite H1; simpl; rewrite H2; reflexivity. Qed.

Lemma regex_stage_no_match (partial prev default : pyvalue) text :
  json_dumps prev = Ok text ->
  re_search (strip_slash (py_str partial)) text = Ok None ->
  regex_stage partial prev default = Ok JNull.
Proof. intros H1 H2; unfold regex_stage; rewrite H1; simpl; rewrite H2; reflexivity. Qed.

Lemma regex_stage_no_group (partial prev default : pyvalue) text :
  json_dumps prev = Ok text ->
  re_search (strip_slash (py_str partial)) text = Ok (Some []) ->
  regex_stage partial prev default = Raise StopIteration.
Proof. intros H1 H2; unfold regex_stage; rewrite H1; simpl; rewrite H2; reflexivity. Qed.

(** C5, as amended.  A falsy stage does not end the chain: it throws the
    intermediate value away, puts the default in its place, and the stages
    after it run on the default.  The chain's result is the default only
    when those stages give it back, as when the falsy stage is the last. *)
Theorem C5_falsy_stage_restarts_from_default
  (default prev r p : pyvalue) (before after : list pyvalue) :
  truthy p = false ->
  run_chain default prev before = Ok r ->
  run_chain default prev (before ++ p :: after)
    = run_chain default default after
  /\ run_chain default prev (before ++ [p]) = Ok default.
Proof.
  intros Hp Hb; split; rewrite run_chain_app, Hb; simpl;
    rewrite (run_partial_falsy _ _ _ Hp); reflexivity.
Qed.

(** C10.  A jmespath stage whose query gives a falsy result, be it [None],
    zero, [False], the empty string or an empty list or dict, gives the
    default: the stage cannot tell an extracted zero or empty mapping from
    a query that found nothing. *)
Theorem C10_falsy_query_result_becomes_default
  (partial prev default r : pyvalue) :
  truthy partial = true ->
  is_regex partial = false ->
  jmespath_search (py_str partial) prev = Ok r ->
  r = JNull \/ r = JInt 0 \/ r = JFloat 0%float \/ r = JBool false
  \/ r = JStr "" \/ r = JList [] \/ r = JDict [] \/ truthy r = false ->
  run_partial default prev partial = Ok default.
Proof.
  intros Hp Hre Hq Hr.
  assert (Hf : truthy r = false).
  { destruct Hr as [->|[->|[->|[->|[->|[->|[->|H]]]]]]]; auto. }
  unfold run_partial, jmespath_stage.
  rewrite Hp, Hre, Hq; simpl; rewrite Hf; reflexivity.
Qed.

(** ** Reasoning on computations *)

Lemma bind_ok_inv {A B} (m : M A) (k : A -> M B) w b w' :
  bind m k w = (Ok b, w') ->
  exists a w1, m w = (Ok a, w1) /\ k a w1 = (Ok b, w').
Proof.
  unfold bind; destruct (m w) as [[a|e] w1]; intros H; [eauto|discriminate].
Qed.

Lemma keeps_ret {A} P (a : A) : keeps P (ret a).
Proof. intros w H; exact H. Qed.

Lemma keeps_raise {A} P e : keeps P (@raise A e).
Proof. intros w H; exact H. Qed.

Lemma keeps_lift {A} P (r : result A) : keeps P (lift r).
Proof. intros w H; exact H. Qed.

Lemma keeps_bind {A B} P (m : M A) (k : A -> M B) :
  keeps P m -> (forall a, keeps P (k a)) -> keeps P (bind m k).
Proof.
  intros Hm Hk w H; unfold bind.
  specialize (Hm w H); destruct (m w) as [[a|e] w1]; simpl in *; auto.
  apply Hk; exact Hm.
Qed.

(** ** The metric objects and the registry leave the cache alone *)

Lemma keeps_registry_register P i names :
  grow_only P -> keeps P (registry_register i names).
Proof.
  intros [_ Hr] w H; unfold registry_register.
  destruct (existsb _ names); simpl; auto.
Qed.

Lemma keeps_registry_unregister P i :
  grow_only P -> keeps P (registry_unregister i).
Proof.
  intros [_ Hr] w H; unfold registry_unregister.
  destruct (registered i w); simpl; auto.
Qed.

Lemma keeps_new_metric P cls name help labelnames :
  grow_only P -> keeps P (new_metric cls name help labelnames).
Proof.
  intros HP w H; unfold new_metric.
  destruct (negb _); simpl; auto.
  apply keeps_bind;
    [apply keeps_registry_register; exact HP|intros; apply keeps_ret|].
  apply HP; [rewrite length_app; lia|exact H].
Qed.

Lemma keeps_deref P i : keeps P (deref i).
Proof. intros w H; unfold deref; destruct (heap w !! i); exact H. Qed.

Lemma grow_assign P i : grow_only P -> assign_at i P.
Proof.
  intros [Hh _] w m H. apply Hh; [rewrite length_insert; lia|exact H].
Qed.

Lemma keeps_assign P i m : assign_at i P -> keeps P (assign i m).
Proof. intros Hh w H; simpl. apply Hh, H. Qed.

Lemma keeps_metric_labels P c labels :
  assign_at c P -> keeps P (metric_labels c labels).
Proof.
  intros HP; unfold metric_labels.
  apply keeps_bind; [apply keeps_deref|intros m].
  destruct (binds_self labels); [apply keeps_raise|].
  destruct (m_labelnames m); [apply keeps_raise|].
  destruct (negb _); [apply keeps_raise|].
  destruct (child_get _ _); [apply keeps_ret|].
  apply keeps_bind; [apply keeps_assign; exact HP|intros; apply keeps_ret].
Qed.

Lemma keeps_child_write P ch f :
  assign_at (fst ch) P -> keeps P (child_write ch f).
Proof.
  intros HP; unfold child_write.
  apply keeps_bind; [apply keeps_deref|intros m].
  destruct (child_get _ _); [apply keeps_assign; exact HP|apply keeps_raise].
Qed.

Lemma keeps_child_set P ch v :
  assign_at (fst ch) P -> keeps P (child_set ch v).
Proof.
  intros HP; unfold child_set.
  apply keeps_bind; [apply keeps_deref|intros m].
  destruct (m_class m); try apply keeps_raise.
  apply keeps_child_write; exact HP.
Qed.

Lemma keeps_child_inc P ch v :
  assign_at (fst ch) P -> keeps P (child_inc ch v).
Proof.
  intros HP; unfold child_inc.
  apply keeps_bind; [apply keeps_deref|intros m].
  destruct (m_class m); try apply keeps_raise.
  - apply keeps_child_write; exact HP.
  - destruct (PrimFloat.ltb v 0); [apply keeps_raise|].
    apply keeps_child_write; exact HP.
Qed.

Lemma keeps_metric_clear P i : assign_at i P -> keeps P (metric_clear i).
Proof.
  intros HP; unfold metric_clear.
  apply keeps_bind; [apply keeps_deref|intros m].
  apply keeps_assign; exact HP.
Qed.

Lemma keeps_instance_or_new P old cls name help keys :
  grow_only P -> keeps P (instance_or_new old cls name help keys).
Proof.
  intros HP; destruct old; simpl; [apply keeps_ret|].
  apply keeps_new_metric; exact HP.
Qed.

Lemma keeps_setup_metric P m_type name help labels value old :
  grow_only P -> keeps P (setup_metric m_type name help labels value old).
Proof.
  intros HP; unfold setup_metric.
  destruct m_type; try apply keeps_raise.
  destruct labels as [| | | | | |items]; try apply keeps_raise.
  destruct items as [|kv items]; [apply keeps_raise|].
  repeat match goal with
         | |- keeps _ (if ?b then _ else _) => destruct b
         end; try apply keeps_raise;
    (apply keeps_bind; [apply keeps_instance_or_new; exact HP|intros c];
     apply keeps_bind; [apply keeps_metric_labels, grow_assign, HP|intros ch];
     apply keeps_bind; [|intros; apply keeps_ret]).
  - apply keeps_child_set, grow_assign, HP.
  - apply keeps_child_inc, grow_assign, HP.
  - apply keeps_raise.
Qed.

(** ** The bound on the cache *)

Lemma grow_only_bounded : grow_only bounded.
Proof. split; intros; assumption. Qed.

Lemma cache_remove_length key c :
  (length (cache_remove key c) <= length c)%nat.
Proof. apply filter_length_le. Qed.

Lemma cache_remove_found key c it :
  cache_find key c = Some it ->
  (length (cache_remove key c) + 1 <= length c)%nat.
Proof.
  unfold cache_find, cache_remove; induction c as [|x c IH]; simpl; [discriminate|].
  destruct (String.eqb key (ci_key x)); simpl.
  - intros _. pose proof (filter_length_le (fun it => negb (String.eqb key (ci_key it))) c). lia.
  - intros H; specialize (IH H); lia.
Qed.

Lemma keeps_bounded_expire : keeps bounded cache_expire.
Proof.
  intros w H; unfold bounded in *; simpl.
  pose proof (filter_length_le (live (now w)) (metrics_cache w)); lia.
Qed.

Lemma keeps_bounded_contains key : keeps bounded (cache_contains key).
Proof. intros w H; exact H. Qed.

Lemma keeps_bounded_getitem key : keeps bounded (cache_getitem key).
Proof.
  intros w H; unfold cache_getitem.
  destruct (cache_find key (metrics_cache w)) as [it|] eqn:Hf; [|exact H].
  assert (bounded (set_cache (cache_remove key (metrics_cache w) ++ [it]) w)).
  { unfold bounded in *; simpl. rewrite length_app; simpl.
    pose proof (cache_remove_found _ _ _ Hf); lia. }
  destruct (live (now w) it); assumption.
Qed.

Lemma keeps_bounded_delitem key : keeps bounded (cache_delitem key).
Proof.
  intros w H; unfold cache_delitem.
  destruct (cache_find key (metrics_cache w)) as [it|] eqn:Hf; [|exact H].
  assert (bounded (set_cache (cache_remove key (metrics_cache w)) w)).
  { unfold bounded in *; simpl.
    pose proof (cache_remove_length key (metrics_cache w)); lia. }
  destruct (live (now w) it); assumption.
Qed.

Lemma keeps_bounded_Cache_pop key : keeps bounded (Cache_pop key).
Proof.
  unfold Cache_pop, cachetools_pop.
  apply keeps_bind; [|intros v].
  - apply keeps_bind; [apply keeps_bounded_contains|intros b].
    destruct b; [|apply keeps_raise].
    apply keeps_bind; [apply keeps_bounded_getitem|intros v].
    apply keeps_bind; [apply keeps_bounded_delitem|intros; apply keeps_ret].
  - apply keeps_bind; [apply keeps_metric_clear, grow_assign, grow_only_bounded|intros].
    apply keeps_bind; [apply keeps_registry_unregister, grow_only_bounded|].
    intros; apply keeps_ret.
Qed.

Lemma keeps_bounded_popitem : keeps bounded cache_popitem.
Proof.
  unfold cache_popitem.
  apply keeps_bind; [apply keeps_bounded_expire|intros _].
  apply keeps_bind; [|intros key].
  - intros w H; destruct (metrics_cache w); exact H.
  - apply keeps_bind; [apply keeps_bounded_Cache_pop|intros; apply keeps_ret].
Qed.

(** The eviction loop ends, when it does not raise, with room for one
    more entry. *)
Lemma evict_loop_room fuel w :
  bounded w ->
  match evict_loop config fuel w with
  | (Ok _, w') => (length (metrics_cache w') + 1 <= maxsize config)%nat
  | (Raise _, w') => bounded w'
  end.
Proof.
  revert w; induction fuel as [|fuel IH]; intros w H; simpl.
  - destruct (Nat.leb_spec (length (metrics_cache w) + 1) (maxsize config)); auto.
  - destruct (Nat.leb_spec (length (metrics_cache w) + 1) (maxsize config)); auto.
    unfold bind. pose proof (keeps_bounded_popitem w H) as Hp.
    destruct (cache_popitem w) as [[a|e] w1]; simpl in Hp; auto.
    apply IH; exact Hp.
Qed.

Lemma keeps_bounded_setitem key value : keeps bounded (cache_setitem config key value).
Proof.
  unfold cache_setitem.
  apply keeps_bind; [apply keeps_bounded_expire|intros _].
  destruct (Nat.ltb_spec (maxsize config) 1); [apply keeps_raise|].
  intros w Hw; unfold bind.
  destruct (cache_find key (metrics_cache w)) as [it|] eqn:Hf.
  - unfold bounded in *; simpl. rewrite length_app; simpl.
    pose proof (cache_remove_found _ _ _ Hf); lia.
  - pose proof (evict_loop_room (length (metrics_cache w)) w Hw) as Hr.
    destruct (evict_loop _ _ w) as [[[]|e] w1]; simpl; auto.
    unfold bounded; simpl. rewrite length_app; simpl.
    pose proof (cache_remove_length key (metrics_cache w1)); lia.
Qed.

Lemma keeps_bounded_store_metric name help m_type value labels :
  keeps bounded (store_metric config name help m_type value labels).
Proof.
  unfold store_metric.
  apply keeps_bind; [apply keeps_bounded_contains|intros present].
  apply keeps_bind; [|intros old].
  { destruct present; [|apply keeps_ret].
    apply keeps_bind; [apply keeps_bounded_getitem|intros; apply keeps_ret]. }
  apply keeps_bind; [apply keeps_setup_metric, grow_only_bounded|intros c].
  apply keeps_bind; [apply keeps_bounded_setitem|intros _].
  apply keeps_bounded_expire.
Qed.

Lemma keeps_bounded_request event_title rq :
  keeps bounded (receive_webhook_request config event_title rq).
Proof.
  unfold receive_webhook_request.
  destruct (rq_method rq).
  1,2: (apply keeps_bind; [apply keeps_lift|intros [handler|]];
        [|unfold not_found_response; destruct (webhook_basepath config);
          [apply keeps_ret|apply keeps_raise]];
        apply keeps_bind; [apply keeps_lift|intros [[[help m_type] value] labels]];
        unfold store_fields;
        apply keeps_bind; [apply keeps_bounded_store_metric|intros; apply keeps_ret]).
  apply keeps_bind; [apply keeps_bounded_contains|intros present].
  destruct (negb present); [apply keeps_ret|].
  apply keeps_bind; [apply keeps_bounded_Cache_pop|intros; apply keeps_ret].
Qed.

Lemma bounded_step w ev : bounded w -> bounded (step config w ev).
Proof.
  intros H; destruct ev as [event_title rq|d]; simpl.
  - apply keeps_bounded_request; exact H.
  - exact H.
Qed.

Lemma bounded_run evs w : bounded w -> bounded (run config evs w).
Proof.
  revert w; induction evs as [|ev evs IH]; intros w H; simpl; auto.
  apply IH, bounded_step, H.
Qed.

(** ** The handler: matching, extraction, the unparsable value *)

Lemma find_handler_first_match (handlers before after : list event_handler)
  (c : event_handler) (event_title : string) :
  handlers = (before ++ c :: after)%list ->
  Forall (fun h => re_match (h_event_title h) event_title = Ok false) before ->
  re_match (h_event_title c) event_title = Ok true ->
  find_handler handlers event_title = Ok (Some c).
Proof.
  intros -> Hb Hc; induction Hb as [|h before Hh Hb IH]; simpl.
  - rewrite Hc; reflexivity.
  - rewrite Hh; simpl; exact IH.
Qed.

Lemma find_handler_no_match handlers event_title :
  Forall (fun h => re_match (h_event_title h) event_title = Ok false) handlers ->
  find_handler handlers event_title = Ok None.
Proof.
  intros H; induction H as [|h handlers Hh H IH]; simpl; [reflexivity|].
  rewrite Hh; simpl; exact IH.
Qed.

(** With [webhook_basepath] in the file, an event no handler matches is
    answered 404 with every configured pattern, in the order of the file,
    and the world is left alone. *)
Lemma no_handler_404 event_title rq w basepath :
  rq_method rq <> DELETE ->
  find_handler (event_handlers config) event_title = Ok None ->
  webhook_basepath config = Some basepath ->
  receive_webhook_request config event_title rq w
  = (Ok {| rs_body := Some (JDict
             [("error", JStr "not found");
              ("webhook_basepath", JStr basepath);
              ("configured_events",
               JList (map (fun c => JStr (basepath ++ "/ + /"
                                          ++ h_event_title c ++ "/"))
                          (event_handlers config)))]);
           rs_status := 404 |}, w).
Proof.
  intros Hm Hf Hb; unfold receive_webhook_request, bind, lift.
  destruct (rq_method rq); try congruence;
    rewrite Hf; unfold not_found_response; rewrite Hb; reflexivity.
Qed.

(** Without the key, the same event ends in [KeyError]. *)
Lemma no_handler_no_basepath event_title rq w :
  rq_method rq <> DELETE ->
  find_handler (event_handlers config) event_title = Ok None ->
  webhook_basepath config = None ->
  receive_webhook_request config event_title rq w = (Raise KeyError, w).
Proof.
  intros Hm Hf Hb; unfold receive_webhook_request, bind, lift.
  destruct (rq_method rq); try congruence;
    rewrite Hf; unfold not_found_response; rewrite Hb; reflexivity.
Qed.

(** ** The handler and its extractions *)

(** An extraction that raises ends the request where it started. *)
Lemma request_extract_raises event_title rq w handler e :
  rq_method rq <> DELETE ->
  find_handler (event_handlers config) event_title = Ok (Some handler) ->
  extract_fields (h_extractors handler)
    (JDict [("data", rq_json rq); ("req", rq_vars rq)]) = Raise e ->
  receive_webhook_request config event_title rq w = (Raise e, w).
Proof.
  intros Hm Hf Hx. unfold receive_webhook_request, bind, lift.
  destruct (rq_method rq); try congruence; rewrite Hf, Hx; reflexivity.
Qed.

Lemma extract_fields_value_refused metric_extractors jmespath_data raw e :
  run_extractor (dict_get "value" metric_extractors JNull) jmespath_data JNull
  = Ok raw ->
  py_float raw = Raise e ->
  exists e',
    extract_fields metric_extractors jmespath_data = Raise e'
    /\ (forall help m_type,
          run_extractor (dict_get "help" metric_extractors JNull)
            jmespath_data (JStr "default help") = Ok help ->
          run_extractor (dict_get "type" metric_extractors JNull)
            jmespath_data (JStr "gauge") = Ok m_type ->
          e' = e).
Proof.
  intros Hv He. unfold extract_fields.
  destruct (run_extractor (dict_get "help" _ _) _ _) as [help|e1]; simpl.
  2: { exists e1; split; [reflexivity|intros; discriminate]. }
  destruct (run_extractor (dict_get "type" _ _) _ _) as [m_type|e2]; simpl.
  2: { exists e2; split; [reflexivity|intros; discriminate]. }
  rewrite Hv; simpl; rewrite He; simpl.
  exists e; split; [reflexivity|intros; reflexivity].
Qed.

(** When the four extractions on the wrapper dict, [float] and the merge of
    the labels all return, the handler stores what they returned and
    answers 200. *)
Lemma request_extracted event_title rq w handler
  help m_type raw value labels0 labels :
  rq_method rq <> DELETE ->
  find_handler (event_handlers config) event_title = Ok (Some handler) ->
  run_extractor (dict_get "help" (h_extractors handler) JNull) (wrapper rq)
    (JStr "default help") = Ok help ->
  run_extractor (dict_get "type" (h_extractors handler) JNull) (wrapper rq)
    (JStr "gauge") = Ok m_type ->
  run_extractor (dict_get "value" (h_extractors handler) JNull) (wrapper rq)
    JNull = Ok raw ->
  py_float raw = Ok value ->
  run_extractor (dict_get "labels" (h_extractors handler) JNull) (wrapper rq)
    warn_default = Ok labels0 ->
  merge_labels labels0 = Ok labels ->
  receive_webhook_request config event_title rq w
  = (store_metric config event_title help m_type value labels ;;
     ret ok_200) w.
Proof.
  intros Hm Hf Hh Ht Hv Hfl Hl Hmg.
  unfold receive_webhook_request, bind at 1, lift.
  unfold wrapper, warn_default in *.
  destruct (rq_method rq); try congruence;
    rewrite Hf; unfold bind at 1, extract_fields;
    rewrite Hh; simpl; rewrite Ht; simpl; rewrite Hv; simpl;
    rewrite Hfl; simpl; rewrite Hl; simpl; rewrite Hmg; reflexivity.
Qed.

(** C6, as amended.  The handler hands the extracted value to [float] and
    does nothing else with it.  When [float] refuses it, the handler
    raises: it returns no response, puts no default in the value's place,
    and leaves the cache, the registry and the metric objects as they
    were; the exception is the one of [float] whenever the extractions of
    help and type, which come first, raise nothing.  When [float] takes it,
    the float that comes out, finite or not, goes to [setup_metric] and the
    cache as it is: the request is the store of that value, answered 200
    when the store returns. *)
Theorem C6_unparsable_value_raises event_title rq w handler raw :
  rq_method rq <> DELETE ->
  find_handler (event_handlers config) event_title = Ok (Some handler) ->
  run_extractor (dict_get "value" (h_extractors handler) JNull)
    (wrapper rq) JNull = Ok raw ->
  (forall e,
     py_float raw = Raise e ->
     exists e',
       receive_webhook_request config event_title rq w = (Raise e', w)
       /\ (forall help m_type,
             run_extractor (dict_get "help" (h_extractors handler) JNull)
               (wrapper rq) (JStr "default help") = Ok help ->
             run_extractor (dict_get "type" (h_extractors handler) JNull)
               (wrapper rq) (JStr "gauge") = Ok m_type ->
             e' = e))
  /\ (forall value help m_type labels0 labels,
        py_float raw = Ok value ->
        run_extractor (dict_get "help" (h_extractors handler) JNull)
          (wrapper rq) (JStr "default help") = Ok help ->
        run_extractor (dict_get "type" (h_extractors handler) JNull)
          (wrapper rq) (JStr "gauge") = Ok m_type ->
        run_extractor (dict_get "labels" (h_extractors handler) JNull)
          (wrapper rq) warn_default = Ok labels0 ->
        merge_labels labels0 = Ok labels ->
        receive_webhook_request config event_title rq w
        = (store_metric config event_title help m_type value labels ;;
           ret ok_200) w).
Proof.
  intros Hm Hf Hv. split.
  - intros e He.
    destruct (extract_fields_value_refused (h_extractors handler) (wrapper rq)
                raw e Hv He) as (e' & Hx & Hsame).
    exists e'; split; [|exact Hsame].
    apply (request_extract_raises event_title rq w handler e' Hm Hf Hx).
  - intros value help m_type labels0 labels Hfl Hh Ht Hl Hmg.
    apply (request_extracted event_title rq w handler help m_type raw value
             labels0 labels); assumption.
Qed.

(** A stage [data] at the head of a chain hands the body to the stages
    behind it. *)
Lemma run_chain_data (default body vars : pyvalue) (chain : list pyvalue) :
  (forall d, jmespath_search "data" (JDict d) = Ok (dict_get "data" d JNull)) ->
  truthy body = true ->
  run_chain default (JDict [("data", body); ("req", vars)])
    (JStr "data" :: chain)
  = run_chain default body chain.
Proof.
  intros Hq Hb. simpl run_chain.
  assert (Hp : run_partial default (JDict [("data", body); ("req", vars)])
                 (JStr "data") = Ok body).
  { unfold run_partial, jmespath_stage; simpl. rewrite Hq; simpl.
    rewrite Hb. reflexivity. }
  rewrite Hp. reflexivity.
Qed.

(** A field name of the body, asked of the wrapper dict, finds nothing. *)
Lemma run_extractor_top_level (k default body vars : pyvalue) name :
  k = JStr name ->
  (forall d, jmespath_search name (JDict d) = Ok (dict_get name d JNull)) ->
  name <> "" -> startswith_slash name = false ->
  name <> "data" -> name <> "req" ->
  run_extractor k (JDict [("data", body); ("req", vars)]) default
  = Ok default.
Proof.
  intros -> Hq Hk Hs Hd Hr.
  assert (Hkt : truthy (JStr name) = true).
  { simpl. destruct (String.eqb_spec name ""); [contradiction|reflexivity]. }
  rewrite run_extractor_single by (intros l; discriminate).
  unfold run_partial, jmespath_stage; rewrite Hkt; simpl; rewrite Hs.
  rewrite Hq; simpl.
  destruct (String.eqb_spec name "data"); [contradiction|].
  destruct (String.eqb_spec name "req"); [contradiction|reflexivity].
Qed.

(** C9, as amended.  The extractors of a create/update request run on the
    wrapper dict, not on the body: what the handler stores is what the four
    extractors give on the wrapper.  So a query that is the name [k] of a
    field of the body finds nothing and gives the default, whatever the
    body holds, and as the value extractor it makes every request raise
    ([TypeError], from [float] of the default [None], when help and type
    extract).  Behind a stage [data] every chain of stages, and so every
    query, runs on the body.  The queries [k] and [data] are taken to be
    answered by a lookup of the key, as the library answers a field name;
    nothing is said of other queries on the wrapper, and a projection over
    its values reaches the body without the name [data]. *)
Theorem C9_extractors_run_on_wrapper event_title rq handler w :
  rq_method rq <> DELETE ->
  find_handler (event_handlers config) event_title = Ok (Some handler) ->
  (forall help m_type raw value labels0 labels,
     run_extractor (dict_get "help" (h_extractors handler) JNull) (wrapper rq)
       (JStr "default help") = Ok help ->
     run_extractor (dict_get "type" (h_extractors handler) JNull) (wrapper rq)
       (JStr "gauge") = Ok m_type ->
     run_extractor (dict_get "value" (h_extractors handler) JNull) (wrapper rq)
       JNull = Ok raw ->
     py_float raw = Ok value ->
     run_extractor (dict_get "labels" (h_extractors handler) JNull)
       (wrapper rq) warn_default = Ok labels0 ->
     merge_labels labels0 = Ok labels ->
     receive_webhook_request config event_title rq w
     = (store_metric config event_title help m_type value labels ;;
        ret ok_200) w)
  /\ (forall k,
        (forall d, jmespath_search k (JDict d) = Ok (dict_get k d JNull)) ->
        k <> "" -> startswith_slash k = false -> k <> "data" -> k <> "req" ->
        (forall default,
           run_extractor (JStr k) (wrapper rq) default = Ok default)
        /\ (dict_get "value" (h_extractors handler) JNull = JStr k ->
            exists e,
              receive_webhook_request config event_title rq w = (Raise e, w)
              /\ (forall help m_type,
                    run_extractor
                      (dict_get "help" (h_extractors handler) JNull)
                      (wrapper rq) (JStr "default help") = Ok help ->
                    run_extractor
                      (dict_get "type" (h_extractors handler) JNull)
                      (wrapper rq) (JStr "gauge") = Ok m_type ->
                    e = TypeError)))
  /\ ((forall d,
         jmespath_search "data" (JDict d) = Ok (dict_get "data" d JNull)) ->
      truthy (rq_json rq) = true ->
      (forall chain default,
         run_extractor (JList [JList (JStr "data" :: chain)]) (wrapper rq)
           default
         = run_extractor (JList [JList chain]) (rq_json rq) default)
      /\ (forall q default,
            (forall l, q <> JList l) ->
            run_extractor (JList [JList [JStr "data"; q]]) (wrapper rq) default
            = run_extractor q (rq_json rq) default)).
Proof.
  intros Hm Hf. split; [|split].
  - intros help m_type raw value labels0 labels Hh Ht Hv Hfl Hl Hmg.
    apply (request_extracted event_title rq w handler help m_type raw value
             labels0 labels); assumption.
  - intros k Hq Hk Hs Hd Hr.
    assert (Htop : forall default,
              run_extractor (JStr k) (wrapper rq) default = Ok default).
    { intros default.
      apply (run_extractor_top_level (JStr k) default (rq_json rq) (rq_vars rq)
               k eq_refl Hq Hk Hs Hd Hr). }
    split; [exact Htop|]. intros Hv.
    destruct (extract_fields_value_refused (h_extractors handler) (wrapper rq)
                JNull TypeError) as (e & Hx & He).
    + rewrite Hv. apply Htop.
    + reflexivity.
    + exists e. split; [|exact He].
      apply (request_extract_raises event_title rq w handler e Hm Hf Hx).
  - intros Hq Hb.
    assert (Hchain : forall chain default,
              run_extractor (JList [JList (JStr "data" :: chain)]) (wrapper rq)
                default
              = run_extractor (JList [JList chain]) (rq_json rq) default).
    { intros chain default. unfold run_extractor, wrapper.
      cbn [as_list run_chains].
      rewrite (run_chain_data default (rq_json rq) (rq_vars rq) chain Hq Hb).
      reflexivity. }
    split; [exact Hchain|].
    intros q default Hl. rewrite Hchain.
    rewrite (run_extractor_single q) by exact Hl.
    unfold run_extractor. simpl.
    destruct (run_partial default (rq_json rq) q); reflexivity.
Qed.

(** ** Lists of cache items and of children *)

Lemma strings_eqb_eq a b : strings_eqb a b = true <-> a = b.
Proof.
  revert b; induction a as [|x a IH]; intros [|y b]; simpl; split;
    try discriminate; try reflexivity.
  - intros H; apply andb_true_iff in H as [H1 H2].
    apply String.eqb_eq in H1; apply IH in H2; congruence.
  - intros H; injection H as -> ->. rewrite String.eqb_refl; simpl.
    apply IH; reflexivity.
Qed.

Lemma strings_eqb_refl a : strings_eqb a a = true.
Proof. apply strings_eqb_eq; reflexivity. Qed.

Lemma cache_find_key key c it :
  cache_find key c = Some it -> ci_key it = key /\ In it c.
Proof.
  unfold cache_find; intros H; apply find_some in H as [H1 H2].
  apply String.eqb_eq in H2; auto.
Qed.

Lemma cache_find_none key c :
  cache_find key c = None <-> ~ In key (map ci_key c).
Proof.
  unfold cache_find; induction c as [|x c IH]; simpl; [tauto|].
  destruct (String.eqb_spec key (ci_key x)) as [->|Hne].
  - split; [discriminate|intros H; exfalso; apply H; auto].
  - rewrite IH; split; [intros H [H1|H1]; congruence|tauto].
Qed.

Lemma cache_remove_absent key c :
  ~ In key (map ci_key c) -> cache_remove key c = c.
Proof.
  unfold cache_remove; induction c as [|x c IH]; simpl; [reflexivity|].
  intros H. destruct (String.eqb_spec key (ci_key x)) as [->|Hne]; simpl.
  - exfalso; apply H; auto.
  - rewrite IH; [reflexivity|tauto].
Qed.

Lemma cache_remove_keys key c :
  map ci_key (cache_remove key c)
  = List.filter (fun k => negb (String.eqb key k)) (map ci_key c).
Proof.
  unfold cache_remove; induction c as [|x c IH]; simpl; [reflexivity|].
  destruct (String.eqb key (ci_key x)); simpl; rewrite IH; reflexivity.
Qed.

Lemma cache_remove_in key c it :
  In it (cache_remove key c) -> In it c /\ ci_key it <> key.
Proof.
  unfold cache_remove; intros H; apply filter_In in H as [H1 H2].
  split; [exact H1|]. intros <-. rewrite String.eqb_refl in H2; discriminate.
Qed.

Lemma cache_remove_gone key c : ~ In key (map ci_key (cache_remove key c)).
Proof.
  intros H; apply in_map_iff in H as (it & Hk & Hin).
  apply cache_remove_in in Hin as [_ Hne]; congruence.
Qed.

Lemma cache_remove_app key a b :
  cache_remove key (a ++ b) = (cache_remove key a ++ cache_remove key b)%list.
Proof. unfold cache_remove; apply List.filter_app. Qed.

Lemma cache_remove_idem key c :
  cache_remove key (cache_remove key c) = cache_remove key c.
Proof. apply cache_remove_absent, cache_remove_gone. Qed.

Lemma NoDup_keys_remove key c :
  List.NoDup (map ci_key c) -> List.NoDup (map ci_key (cache_remove key c)).
Proof. rewrite cache_remove_keys; apply List.NoDup_filter. Qed.

Lemma NoDup_keys_put key c it :
  ci_key it = key ->
  List.NoDup (map ci_key c) ->
  List.NoDup (map ci_key (cache_remove key c ++ [it])).
Proof.
  intros Hk Hn. rewrite map_app; simpl.
  apply List.NoDup_app.
  - apply NoDup_keys_remove, Hn.
  - apply List.NoDup_cons; [intros []|apply List.NoDup_nil].
  - intros k Hin [<-|[]]. rewrite Hk in Hin.
    apply (cache_remove_gone key c), Hin.
Qed.

Lemma NoDup_keys_live t c :
  List.NoDup (map ci_key c) ->
  List.NoDup (map ci_key (List.filter (live t) c)).
Proof.
  induction c as [|x c IH]; simpl; [auto|].
  intros H; apply List.NoDup_cons_iff in H as [H1 H2].
  destruct (live t x); simpl; [|auto].
  apply List.NoDup_cons; [|auto].
  intros Hin; apply H1.
  apply in_map_iff in Hin as (it & Hk & Hin). apply filter_In in Hin as [Hin _].
  apply in_map_iff; eauto.
Qed.

(** ** Computations with a postcondition *)

Lemma ends_bind {A B} P (m : M A) (k : A -> M B) Q R E :
  ends P m Q E -> (forall a, ends (Q a) (k a) R E) -> ends P (bind m k) R E.
Proof.
  intros Hm Hk w H; unfold bind. specialize (Hm w H).
  destruct (m w) as [[a|e] w1]; [apply Hk, Hm|exact Hm].
Qed.

Lemma ends_ret {A} (P : world -> Prop) (a : A) (Q : A -> world -> Prop) E :
  (forall w, P w -> Q a w) -> ends P (ret a) Q E.
Proof. intros H w Hw; simpl; auto. Qed.

Lemma ends_raise {A} (P : world -> Prop) e (Q : A -> world -> Prop)
  (E : world -> Prop) :
  (forall w, P w -> E w) -> ends P (raise e) Q E.
Proof. intros H w Hw; simpl; auto. Qed.

Lemma ends_weaken {A} (P P' : world -> Prop) (m : M A)
  (Q Q' : A -> world -> Prop) (E E' : world -> Prop) :
  ends P m Q E -> (forall w, P' w -> P w) ->
  (forall a w, Q a w -> Q' a w) -> (forall w, E w -> E' w) ->
  ends P' m Q' E'.
Proof.
  intros H HP HQ HE w Hw. specialize (H w (HP w Hw)).
  destruct (m w) as [[a|e] w1]; auto.
Qed.

Lemma keeps_ends {A} P (m : M A) : keeps P m -> ends P m (fun _ => P) P.
Proof.
  intros H w Hw. specialize (H w Hw). destruct (m w) as [[a|e] w1]; exact H.
Qed.

Lemma ends_keeps {A} P (m : M A) : ends P m (fun _ => P) P -> keeps P m.
Proof.
  intros H w Hw. specialize (H w Hw). destruct (m w) as [[a|e] w1]; exact H.
Qed.

Lemma keeps_run {A} P (m : M A) w r w' :
  keeps P m -> P w -> m w = (r, w') -> P w'.
Proof. intros H Hw Hm. specialize (H w Hw). rewrite Hm in H; exact H. Qed.

Lemma keeps_and {A} (P Q : world -> Prop) (m : M A) :
  keeps P m -> keeps Q m -> keeps (fun w => P w /\ Q w) m.
Proof. intros HP HQ w [H1 H2]; split; auto. Qed.

(** ** Exact effects of the operations that return *)

Lemma deref_ok i w m w' :
  deref i w = (Ok m, w') -> w' = w /\ heap w !! i = Some m.
Proof.
  unfold deref; destruct (heap w !! i); intros H; inversion H; auto.
Qed.

Lemma new_metric_ok cls name help labelnames w c w' :
  new_metric cls name help labelnames w = (Ok c, w') ->
  c = length (heap w)
  /\ w' = set_registry (registry w ++ [(c, metric_names cls name)])
            (set_heap (heap w ++ [{| m_class := cls; m_name := name;
                                     m_documentation := help;
                                     m_labelnames := labelnames;
                                     m_metrics := [] |}]) w).
Proof.
  unfold new_metric. destruct (negb _); [discriminate|].
  unfold bind, registry_register, ret; simpl.
  destruct (existsb _ _); [discriminate|].
  intros H; inversion H; subst; auto.
Qed.

Lemma registry_unregister_ok i w u w' :
  registry_unregister i w = (Ok u, w') ->
  registered i w = true
  /\ w' = set_registry
            (List.filter (fun e => negb (Nat.eqb (fst e) i)) (registry w)) w.
Proof.
  unfold registry_unregister. destruct (registered i w); [|discriminate].
  intros H; inversion H; auto.
Qed.

Lemma cache_getitem_ok key w v w' :
  cache_getitem key w = (Ok v, w') ->
  exists it, cache_find key (metrics_cache w) = Some it
             /\ live (now w) it = true /\ v = ci_value it
             /\ w' = set_cache (cache_remove key (metrics_cache w) ++ [it]) w.
Proof.
  unfold cache_getitem.
  destruct (cache_find key (metrics_cache w)) as [it|]; [|discriminate].
  destruct (live (now w) it) eqn:Hl; [|discriminate].
  intros H; inversion H; subst; eauto.
Qed.

Lemma cache_delitem_ok key w u w' :
  cache_delitem key w = (Ok u, w') ->
  w' = set_cache (cache_remove key (metrics_cache w)) w.
Proof.
  unfold cache_delitem.
  destruct (cache_find key (metrics_cache w)) as [it|]; [|discriminate].
  destruct (live (now w) it); [|discriminate].
  intros H; inversion H; auto.
Qed.

(** The method of [cachetools] returns the live value of the key and
    removes it. *)
Lemma cachetools_pop_ok key w v w' :
  cachetools_pop key w = (Ok v, w') ->
  exists it, cache_find key (metrics_cache w) = Some it
             /\ live (now w) it = true /\ v = ci_value it
             /\ w' = set_cache (cache_remove key (metrics_cache w)) w.
Proof.
  unfold cachetools_pop, bind at 1, cache_contains.
  destruct (cache_find key (metrics_cache w)) as [it|] eqn:Hf; [|discriminate].
  destruct (live (now w) it) eqn:Hl; [|discriminate].
  intros H. apply bind_ok_inv in H as (v' & w1 & Hg & H).
  apply cache_getitem_ok in Hg as (it' & Hf' & _ & -> & ->).
  rewrite Hf in Hf'; injection Hf' as <-.
  apply bind_ok_inv in H as (u & w2 & Hd & H).
  apply cache_delitem_ok in Hd as ->. inversion H; subst.
  exists it; repeat split; auto.
  destruct w; unfold set_cache; simpl.
  rewrite cache_remove_app, cache_remove_idem; simpl.
  apply cache_find_key in Hf as [Hk _]. rewrite Hk, String.eqb_refl; simpl.
  rewrite app_nil_r; reflexivity.
Qed.

(** [Cache.pop] of [app.py], when it returns: the live entry is gone from
    the cache, its metric is cleared and no longer in the registry. *)
Lemma Cache_pop_ok key w v w' :
  Cache_pop key w = (Ok v, w') ->
  exists it m,
    cache_find key (metrics_cache w) = Some it
    /\ live (now w) it = true /\ v = ci_value it
    /\ heap w !! cm_instance v = Some m
    /\ registered (cm_instance v) w = true
    /\ w' = {| heap := <[cm_instance v := cleared m]> (heap w);
               registry := List.filter
                             (fun e => negb (Nat.eqb (fst e) (cm_instance v)))
                             (registry w);
               metrics_cache := cache_remove key (metrics_cache w);
               now := now w |}.
Proof.
  unfold Cache_pop. intros H.
  apply bind_ok_inv in H as (v' & w1 & Hp & H).
  apply cachetools_pop_ok in Hp as (it & Hf & Hl & -> & ->).
  apply bind_ok_inv in H as (u & w2 & Hc & H).
  unfold metric_clear in Hc.
  apply bind_ok_inv in Hc as (m & w3 & Hd & Hc).
  apply deref_ok in Hd as [-> Hm]. simpl in Hm.
  unfold assign in Hc. inversion Hc; subst; clear Hc.
  apply bind_ok_inv in H as (u' & w4 & Hu & H).
  apply registry_unregister_ok in Hu as [Hr ->].
  inversion H; subst.
  exists it, m; repeat split; auto.
Qed.

Lemma registered_filter_out i (r : list (nat * list string)) :
  existsb (fun e => Nat.eqb (fst e) i)
    (List.filter (fun e => negb (Nat.eqb (fst e) i)) r) = false.
Proof.
  induction r as [|e r IH]; simpl; [reflexivity|].
  destruct (Nat.eqb (fst e) i) eqn:He; simpl; [exact IH|].
  rewrite He; exact IH.
Qed.

Lemma registered_filter_other i j (r : list (nat * list string)) :
  i <> j ->
  existsb (fun e => Nat.eqb (fst e) i)
    (List.filter (fun e => negb (Nat.eqb (fst e) j)) r)
  = existsb (fun e => Nat.eqb (fst e) i) r.
Proof.
  intros Hne; induction r as [|e r IH]; simpl; [reflexivity|].
  destruct (Nat.eqb_spec (fst e) j) as [Hj|Hj]; simpl.
  - destruct (Nat.eqb_spec (fst e) i); [congruence|exact IH].
  - rewrite IH; reflexivity.
Qed.

(** Both paths that go through [Cache.pop] take the metric out of the
    registry: the explicit delete and the eviction for size. *)
Lemma Cache_pop_unregisters key w v w' :
  Cache_pop key w = (Ok v, w') ->
  registered (cm_instance v) w' = false
  /\ cache_find key (metrics_cache w') = None.
Proof.
  intros H. apply Cache_pop_ok in H as (it & m & Hf & Hl & -> & Hm & Hr & ->).
  split.
  - unfold registered; simpl. apply registered_filter_out.
  - simpl. apply cache_find_none, cache_remove_gone.
Qed.

(** ** Well-formed worlds *)

Lemma grow_only_well_formed : grow_only well_formed.
Proof.
  split.
  - intros w h Hh [H1 H2]; split; [exact H1|].
    intros it Hin; specialize (H2 it Hin); simpl in *; lia.
  - intros w r H; exact H.
Qed.

Lemma keeps_wf_expire : keeps well_formed cache_expire.
Proof.
  intros w [H1 H2]; split; simpl.
  - apply NoDup_keys_live, H1.
  - intros it Hin; apply filter_In in Hin as [Hin _]; auto.
Qed.

Lemma wf_remove key w :
  well_formed w -> well_formed (set_cache (cache_remove key (metrics_cache w)) w).
Proof.
  intros [H1 H2]; split; simpl.
  - apply NoDup_keys_remove, H1.
  - intros it Hin; apply cache_remove_in in Hin as [Hin _]; auto.
Qed.

Lemma wf_put key it w :
  ci_key it = key ->
  (cm_instance (ci_value it) < length (heap w))%nat ->
  well_formed w ->
  well_formed (set_cache (cache_remove key (metrics_cache w) ++ [it]) w).
Proof.
  intros Hk Hv [H1 H2]; split; simpl.
  - apply NoDup_keys_put; assumption.
  - intros x Hin; apply in_app_iff in Hin as [Hin|[<-|[]]]; [|exact Hv].
    apply cache_remove_in in Hin as [Hin _]; auto.
Qed.

Lemma ends_wf_getitem key :
  ends well_formed (cache_getitem key)
    (fun v w => well_formed w /\ (cm_instance v < length (heap w))%nat)
    well_formed.
Proof.
  intros w Hw; unfold cache_getitem.
  destruct (cache_find key (metrics_cache w)) as [it|] eqn:Hf; [|exact Hw].
  apply cache_find_key in Hf as [Hk Hin].
  assert (Hv : (cm_instance (ci_value it) < length (heap w))%nat)
    by (apply Hw, Hin).
  pose proof (wf_put key it w Hk Hv Hw) as Hw'.
  destruct (live (now w) it); [split|]; assumption.
Qed.

Lemma keeps_wf_Cache_pop key : keeps well_formed (Cache_pop key).
Proof.
  unfold Cache_pop, cachetools_pop.
  apply keeps_bind; [|intros v].
  - apply keeps_bind; [intros w H; exact H|intros b].
    destruct b; [|apply keeps_raise].
    apply keeps_bind; [|intros v].
    + apply ends_keeps. eapply ends_weaken; [apply ends_wf_getitem|..]; auto.
      intros a w [H _]; exact H.
    + apply keeps_bind; [|intros; apply keeps_ret].
      intros w H; unfold cache_delitem.
      destruct (cache_find key (metrics_cache w)) as [it|]; [|exact H].
      pose proof (wf_remove key w H). destruct (live (now w) it); assumption.
  - apply keeps_bind; [apply keeps_metric_clear, grow_assign, grow_only_well_formed|intros].
    apply keeps_bind; [apply keeps_registry_unregister, grow_only_well_formed|].
    intros; apply keeps_ret.
Qed.

Lemma keeps_popitem P :
  keeps P cache_expire -> (forall key, keeps P (Cache_pop key)) ->
  keeps P cache_popitem.
Proof.
  intros He Hp; unfold cache_popitem.
  apply keeps_bind; [exact He|intros _].
  apply keeps_bind; [|intros key].
  - intros w H; destruct (metrics_cache w); exact H.
  - apply keeps_bind; [apply Hp|intros; apply keeps_ret].
Qed.

Lemma keeps_evict_loop P fuel :
  keeps P cache_popitem -> keeps P (evict_loop config fuel).
Proof.
  intros Hp; induction fuel as [|fuel IH]; intros w H; simpl.
  - destruct (_ <=? _)%nat; exact H.
  - destruct (_ <=? _)%nat; [exact H|].
    apply (keeps_bind P cache_popitem (fun _ => evict_loop config fuel));
      auto.
Qed.

Lemma keeps_steady_expire P : steady P -> keeps P cache_expire.
Proof. intros [_ H] w Hw; simpl; apply H, Hw. Qed.

Lemma keeps_steady_getitem P key : steady P -> keeps P (cache_getitem key).
Proof.
  intros [_ H] w Hw; unfold cache_getitem.
  destruct (cache_find key (metrics_cache w)) as [it|]; [|exact Hw].
  destruct (live (now w) it); simpl; apply H, Hw.
Qed.

Lemma keeps_steady_delitem P key : steady P -> keeps P (cache_delitem key).
Proof.
  intros [_ H] w Hw; unfold cache_delitem.
  destruct (cache_find key (metrics_cache w)) as [it|]; [|exact Hw].
  destruct (live (now w) it); simpl; apply H, Hw.
Qed.

Lemma keeps_steady_Cache_pop P key : steady P -> keeps P (Cache_pop key).
Proof.
  intros HP; unfold Cache_pop, cachetools_pop.
  apply keeps_bind; [|intros v].
  - apply keeps_bind; [intros w H; exact H|intros b].
    destruct b; [|apply keeps_raise].
    apply keeps_bind; [apply keeps_steady_getitem, HP|intros v].
    apply keeps_bind; [apply keeps_steady_delitem, HP|intros; apply keeps_ret].
  - apply keeps_bind; [apply keeps_metric_clear, grow_assign, HP|intros].
    apply keeps_bind; [apply keeps_registry_unregister, HP|].
    intros; apply keeps_ret.
Qed.

Lemma keeps_steady_evict_loop P fuel :
  steady P -> keeps P (evict_loop config fuel).
Proof.
  intros HP. apply keeps_evict_loop, keeps_popitem.
  - apply keeps_steady_expire, HP.
  - intros key; apply keeps_steady_Cache_pop, HP.
Qed.

Lemma steady_heap_has n : steady (heap_has n).
Proof.
  unfold heap_has; repeat split; intros; simpl in *; try assumption; lia.
Qed.

Lemma ends_wf_setitem key value :
  ends (fun w => well_formed w /\ heap_has (S (cm_instance value)) w)
    (cache_setitem config key value) (fun _ => well_formed) well_formed.
Proof.
  set (P := fun w => well_formed w /\ heap_has (S (cm_instance value)) w).
  assert (HPe : keeps P cache_expire).
  { apply keeps_and; [apply keeps_wf_expire|].
    apply keeps_steady_expire, steady_heap_has. }
  assert (HPl : forall fuel, keeps P (evict_loop config fuel)).
  { intros fuel. apply keeps_evict_loop, keeps_popitem; [exact HPe|].
    intros k; apply keeps_and; [apply keeps_wf_Cache_pop|].
    apply keeps_steady_Cache_pop, steady_heap_has. }
  intros w Hw. unfold cache_setitem, bind.
  specialize (HPe w Hw). destruct (cache_expire w) as [[u|e] w1] eqn:He;
    simpl in HPe; [|apply HPe].
  destruct (_ <? 1)%nat; [apply HPe|].
  assert (Hroom : match (match cache_find key (metrics_cache w1) with
                         | Some _ => (Ok tt, w1)
                         | None => evict_loop config
                                     (length (metrics_cache w1)) w1
                         end) with
                  | (_, w2) => P w2
                  end).
  { destruct (cache_find key (metrics_cache w1)); [exact HPe|].
    specialize (HPl (length (metrics_cache w1)) w1 HPe).
    destruct (evict_loop config _ w1) as [r w2]; exact HPl. }
  destruct (match cache_find key (metrics_cache w1) with
            | Some _ => _ | None => _ end) as [[u2|e2] w2];
    [|apply Hroom].
  destruct Hroom as [Hw2 Hv2].
  apply wf_put; [reflexivity|exact Hv2|exact Hw2].
Qed.

Lemma instance_or_new_ok old cls name help keys w c w' :
  instance_or_new old cls name help keys w = (Ok c, w') ->
  match old with
  | Some c0 => c = c0 /\ w' = w
  | None => c = length (heap w) /\ heap_has (S c) w'
  end.
Proof.
  destruct old as [c0|]; simpl; intros H.
  - inversion H; auto.
  - apply new_metric_ok in H as [-> ->]; split; [reflexivity|].
    unfold heap_has; simpl. rewrite length_app; simpl; lia.
Qed.

(** [setup_metric] returns the old instance when it has one, a new
    object at the end of the heap otherwise; either is then in the heap. *)
Lemma setup_metric_result m_type name help labels value old w c w' :
  setup_metric m_type name help labels value old w = (Ok c, w') ->
  match old with
  | Some c0 => c = c0 /\ (heap_has (S c0) w -> heap_has (S c) w')
  | None => c = length (heap w) /\ heap_has (S c) w'
  end.
Proof.
  unfold setup_metric.
  destruct m_type; try discriminate.
  destruct labels as [| | | | | |items]; try discriminate.
  destruct items as [|kv items]; [discriminate|].
  intros H.
  assert (Hgo : exists cls c0 w1 ch w2 (op : M unit) w3,
    instance_or_new old cls name help (map fst (kv :: items)) w
      = (Ok c0, w1)
    /\ metric_labels c0 (kv :: items) w1 = (Ok ch, w2)
    /\ (forall n, keeps (heap_has n) op)
    /\ op w2 = (Ok tt, w3) /\ c = c0 /\ w' = w3).
  { repeat match type of H with
           | (if ?b then _ else _) _ = _ => destruct b
           end; try discriminate;
      apply bind_ok_inv in H as (c0 & w1 & Hi & H);
      apply bind_ok_inv in H as (ch & w2 & Hl & H);
      apply bind_ok_inv in H as ([] & w3 & Hc & H);
      inversion H; subst; clear H.
    - exists Gauge, c, w1, ch, w2, (child_set ch value), w'.
      repeat split; auto.
      intros n; apply keeps_child_set, grow_assign, steady_heap_has.
    - exists Counter, c, w1, ch, w2, (child_inc ch value), w'.
      repeat split; auto.
      intros n; apply keeps_child_inc, grow_assign, steady_heap_has.
    - discriminate. }
  destruct Hgo as (cls & c0 & w1 & ch & w2 & op & w3 & Hi & Hl & Hk & Hc & -> & ->).
  apply instance_or_new_ok in Hi.
  assert (Hstep : heap_has (S c0) w1 -> heap_has (S c0) w3).
  { intros H1. eapply keeps_run; [apply Hk| |exact Hc].
    eapply keeps_run; [apply keeps_metric_labels, grow_assign, steady_heap_has| |exact Hl].
    exact H1. }
  destruct old as [c1|].
  - destruct Hi as [-> ->]; auto.
  - destruct Hi as [-> H1]; auto.
Qed.

Lemma ends_wf_setup_metric m_type name help labels value old :
  ends (fun w => well_formed w
                 /\ forall c0, old = Some c0 -> heap_has (S c0) w)
    (setup_metric m_type name help labels value old)
    (fun c w => well_formed w /\ heap_has (S c) w) well_formed.
Proof.
  intros w [Hw Hv].
  pose proof (keeps_setup_metric _ m_type name help labels value old
                grow_only_well_formed w Hw) as Hw2.
  destruct (setup_metric m_type name help labels value old w)
    as [[c|e] w2] eqn:Hs; [|exact Hw2].
  split; [exact Hw2|].
  apply setup_metric_result in Hs. destruct old as [c0|].
  - destruct Hs as [-> Hs]; apply Hs, Hv; reflexivity.
  - apply Hs.
Qed.

Lemma keeps_wf_store_metric name help m_type value labels :
  keeps well_formed (store_metric config name help m_type value labels).
Proof.
  apply ends_keeps. unfold store_metric.
  eapply ends_bind with (Q := fun _ => well_formed);
    [intros w H; exact H|intros present].
  eapply ends_bind with
    (Q := fun old w => well_formed w
                       /\ forall c0, old = Some c0 -> heap_has (S c0) w).
  { destruct present.
    - eapply ends_bind; [apply ends_wf_getitem|intros v].
      apply ends_ret. intros w [Hw Hv]; split; [exact Hw|].
      intros c0 H; injection H as <-; exact Hv.
    - apply ends_ret. intros w Hw; split; [exact Hw|discriminate]. }
  intros old.
  eapply ends_bind; [apply ends_wf_setup_metric|intros c].
  eapply ends_bind with (Q := fun _ => well_formed).
  { eapply ends_weaken; [apply ends_wf_setitem| |auto|auto].
    intros w H; exact H. }
  intros _. apply keeps_ends, keeps_wf_expire.
Qed.

Lemma keeps_request P event_title rq :
  (forall name help m_type value labels,
     keeps P (store_metric config name help m_type value labels)) ->
  (forall key, keeps P (Cache_pop key)) ->
  keeps P (receive_webhook_request config event_title rq).
Proof.
  intros Hs Hp. unfold receive_webhook_request.
  destruct (rq_method rq).
  1,2: (apply keeps_bind; [apply keeps_lift|intros [handler|]];
        [|unfold not_found_response; destruct (webhook_basepath config);
          [apply keeps_ret|apply keeps_raise]];
        apply keeps_bind;
          [apply keeps_lift|intros [[[help m_type] value] labels]];
        unfold store_fields;
        apply keeps_bind; [apply Hs|intros; apply keeps_ret]).
  apply keeps_bind; [intros w H; exact H|intros present].
  destruct (negb present); [apply keeps_ret|].
  apply keeps_bind; [apply Hp|intros; apply keeps_ret].
Qed.

Lemma wf_step w ev : well_formed w -> well_formed (step config w ev).
Proof.
  intros H; destruct ev as [event_title rq|d]; simpl; [|exact H].
  apply keeps_request; [apply keeps_wf_store_metric|apply keeps_wf_Cache_pop|].
  exact H.
Qed.

Lemma wf_run evs w : well_formed w -> well_formed (run config evs w).
Proof.
  revert w; induction evs as [|ev evs IH]; intros w H; simpl; auto.
  apply IH, wf_step, H.
Qed.

Lemma wf_init t0 : well_formed (init_world t0).
Proof. split; simpl; [apply List.NoDup_nil|intros it []]. Qed.

Lemma bounded_init t0 : bounded (init_world t0).
Proof. unfold bounded; simpl; lia. Qed.

(** ** The eviction loop has fuel enough *)

Lemma cache_popitem_ok w kv w' :
  cache_popitem w = (Ok kv, w') ->
  exists it rest,
    List.filter (live (now w)) (metrics_cache w) = it :: rest
    /\ fst kv = ci_key it
    /\ Cache_pop (ci_key it) (expired w) = (Ok (snd kv), w').
Proof.
  unfold cache_popitem, bind at 1, cache_expire. fold (expired w).
  unfold bind at 1.
  destruct (metrics_cache (expired w)) as [|it rest] eqn:Hc; [discriminate|].
  intros H. apply bind_ok_inv in H as (v & w1 & Hp & H).
  inversion H; subst. exists it, rest; repeat split; auto.
Qed.

Lemma cache_popitem_shrinks w kv w' :
  cache_popitem w = (Ok kv, w') ->
  (length (metrics_cache w') < length (metrics_cache w))%nat.
Proof.
  intros H. apply cache_popitem_ok in H as (it & rest & Hf & _ & Hp).
  apply Cache_pop_ok in Hp as (it' & m & _ & _ & _ & _ & _ & ->).
  simpl. rewrite Hf. simpl. rewrite String.eqb_refl; simpl.
  pose proof (cache_remove_length (ci_key it) rest).
  pose proof (filter_length_le (live (now w)) (metrics_cache w)) as Hl.
  rewrite Hf in Hl; simpl in Hl. lia.
Qed.

Lemma cache_popitem_empty w :
  metrics_cache w = [] -> cache_popitem w = (Raise KeyError, w).
Proof.
  intros H. unfold cache_popitem, bind, cache_expire. simpl.
  rewrite H; simpl. destruct w; simpl in *; subst; reflexivity.
Qed.

(** Fuel beyond the length of the cache changes nothing: the loop never
    stops for want of fuel. *)
Lemma evict_loop_fuel f1 f2 w :
  (length (metrics_cache w) <= f1)%nat ->
  (length (metrics_cache w) <= f2)%nat ->
  evict_loop config f1 w = evict_loop config f2 w.
Proof.
  revert f2 w; induction f1 as [|f1 IH]; intros f2 w H1 H2.
  - assert (Hnil : metrics_cache w = [])
      by (destruct (metrics_cache w); [reflexivity|simpl in H1; lia]).
    destruct f2 as [|f2]; simpl; [reflexivity|].
    destruct (_ <=? _)%nat; [reflexivity|].
    unfold bind. rewrite (cache_popitem_empty w Hnil); reflexivity.
  - destruct f2 as [|f2]; simpl.
    + assert (Hnil : metrics_cache w = [])
        by (destruct (metrics_cache w); [reflexivity|simpl in H2; lia]).
      destruct (_ <=? _)%nat; [reflexivity|].
      unfold bind. rewrite (cache_popitem_empty w Hnil); reflexivity.
    + destruct (_ <=? _)%nat; [reflexivity|].
      unfold bind. destruct (cache_popitem w) as [[kv|e] w1] eqn:Hp;
        [|reflexivity].
      apply cache_popitem_shrinks in Hp. apply IH; lia.
Qed.

(** ** What [setup_metric] touches *)

Lemma touches_refl c w : touches c w w.
Proof. repeat split; auto. Qed.

Lemma assign_at_touches c w : assign_at c (touches c w).
Proof.
  intros w1 m (H1 & H2 & H3 & H4 & H5); repeat split; simpl; auto.
  - rewrite length_insert; exact H4.
  - intros j Hj. rewrite list_lookup_insert_ne by auto. apply H5, Hj.
Qed.

Lemma metric_labels_fst c labels w ch w' :
  metric_labels c labels w = (Ok ch, w') -> fst ch = c.
Proof.
  unfold metric_labels. intros H.
  apply bind_ok_inv in H as (m & w1 & _ & H).
  destruct (binds_self labels); [discriminate|].
  destruct (m_labelnames m); [discriminate|].
  destruct (negb _); [discriminate|].
  destruct (child_get _ _).
  - inversion H; reflexivity.
  - apply bind_ok_inv in H as (u & w2 & _ & H). inversion H; reflexivity.
Qed.

(** [labels] returns only for a dict without the key [self]. *)
Lemma metric_labels_ok_self c labels w ch w' :
  metric_labels c labels w = (Ok ch, w') -> binds_self labels = false.
Proof.
  unfold metric_labels. intros H.
  apply bind_ok_inv in H as (m & w1 & _ & H).
  destruct (binds_self labels); [discriminate|reflexivity].
Qed.

(** So does [setup_metric]. *)
Lemma setup_metric_ok_self m_type name help items value old w c w' :
  setup_metric m_type name help (JDict items) value old w = (Ok c, w') ->
  binds_self items = false.
Proof.
  unfold setup_metric.
  destruct m_type; try discriminate.
  destruct items as [|kv items]; [discriminate|].
  intros H.
  repeat match type of H with
         | (if ?b then _ else _) _ = _ => destruct b
         end; try discriminate;
    apply bind_ok_inv in H as (c0 & w1 & _ & H);
    apply bind_ok_inv in H as (ch & w2 & Hl & _);
    exact (metric_labels_ok_self _ _ _ _ _ Hl).
Qed.

(** A [setup_metric] that returns has taken or made its instance and then
    assigned to that object only. *)
Lemma setup_metric_ok_inv m_type name help labels value old w c w' :
  setup_metric m_type name help labels value old w = (Ok c, w') ->
  exists cls items w1,
    labels = JDict items
    /\ instance_or_new old cls name help (map fst items) w = (Ok c, w1)
    /\ forall P, assign_at c P -> P w1 -> P w'.
Proof.
  unfold setup_metric.
  destruct m_type; try discriminate.
  destruct labels as [| | | | | |items]; try discriminate.
  destruct items as [|kv items]; [discriminate|].
  intros H.
  repeat match type of H with
         | (if ?b then _ else _) _ = _ => destruct b
         end; try discriminate;
    apply bind_ok_inv in H as (c0 & w1 & Hi & H);
    apply bind_ok_inv in H as (ch & w2 & Hl & H);
    apply bind_ok_inv in H as ([] & w3 & Hc & H);
    inversion H; subst; clear H;
    pose proof (metric_labels_fst _ _ _ _ _ Hl) as Hch.
  - exists Gauge, (kv :: items), w1; repeat split; auto.
    intros P HP H1.
    eapply keeps_run; [apply keeps_child_set; rewrite Hch; exact HP| |exact Hc].
    eapply keeps_run; [apply keeps_metric_labels, HP| |exact Hl]. exact H1.
  - exists Counter, (kv :: items), w1; repeat split; auto.
    intros P HP H1.
    eapply keeps_run; [apply keeps_child_inc; rewrite Hch; exact HP| |exact Hc].
    eapply keeps_run; [apply keeps_metric_labels, HP| |exact Hl]. exact H1.
  - discriminate.
Qed.

(** With an old instance, [setup_metric] constructs nothing: it returns
    that instance and touches no other object, nor the registry. *)
Lemma setup_metric_old m_type name help labels value c0 w c w' :
  setup_metric m_type name help labels value (Some c0) w = (Ok c, w') ->
  c = c0 /\ touches c0 w w'.
Proof.
  intros H. apply setup_metric_ok_inv in H as (cls & items & w1 & _ & Hi & HP).
  simpl in Hi. inversion Hi; subst.
  split; [reflexivity|]. apply HP; [apply assign_at_touches|apply touches_refl].
Qed.

(** Without one, it appends one object to the heap and one entry to the
    registry, and touches nothing else. *)
Lemma setup_metric_new m_type name help labels value w c w' :
  setup_metric m_type name help labels value None w = (Ok c, w') ->
  c = length (heap w)
  /\ length (heap w') = S (length (heap w))
  /\ (exists names, registry w' = (registry w ++ [(c, names)])%list)
  /\ metrics_cache w' = metrics_cache w
  /\ now w' = now w
  /\ (forall j, j <> c -> heap w' !! j = heap w !! j).
Proof.
  intros H. apply setup_metric_ok_inv in H as (cls & items & w1 & _ & Hi & HP).
  simpl in Hi. apply new_metric_ok in Hi as [-> ->].
  set (c := length (heap w)) in *.
  set (w1 := set_registry _ _) in *.
  pose proof (HP (touches c w1) (assign_at_touches c w1) (touches_refl c w1))
    as (H1 & H2 & H3 & H4 & H5).
  repeat split; auto.
  - rewrite H4; subst w1; simpl. rewrite length_app; simpl; lia.
  - rewrite H1; subst w1; simpl; eauto.
  - intros j Hj. rewrite H5 by auto. subst w1; simpl.
    destruct (Nat.lt_ge_cases j c) as [Hlt|Hge].
    + apply lookup_app_l; exact Hlt.
    + rewrite lookup_ge_None_2 by (rewrite length_app; simpl; fold c; lia).
      symmetry; apply lookup_ge_None_2; fold c; lia.
Qed.

(** ** Exact effects of storing *)

Lemma filter_live_idem t (c : list cache_item) :
  List.filter (live t) (List.filter (live t) c) = List.filter (live t) c.
Proof.
  induction c as [|x c IH]; simpl; [reflexivity|].
  destruct (live t x) eqn:Hx; simpl; [rewrite Hx, IH|]; auto.
Qed.

Lemma expired_idem w : expired (expired w) = expired w.
Proof. unfold expired, set_cache; simpl. rewrite filter_live_idem; reflexivity. Qed.

Lemma evict_loop_done fuel w :
  (length (metrics_cache w) + 1 <= maxsize config)%nat ->
  evict_loop config fuel w = (Ok tt, w).
Proof.
  intros H. apply Nat.leb_le in H. destruct fuel; simpl; rewrite H; reflexivity.
Qed.

(** Storing under a key that is live in the cache, or with room left,
    evicts nothing. *)
Lemma cache_setitem_room key value w :
  (1 <= maxsize config)%nat ->
  cache_find key (List.filter (live (now w)) (metrics_cache w)) <> None
  \/ (length (List.filter (live (now w)) (metrics_cache w)) + 1
      <= maxsize config)%nat ->
  cache_setitem config key value w
  = (Ok tt,
     set_cache (cache_remove key (List.filter (live (now w)) (metrics_cache w))
                ++ [new_item key value w]) w).
Proof.
  intros Hm H. unfold cache_setitem, bind at 1, cache_expire. fold (expired w).
  destruct (Nat.ltb_spec (maxsize config) 1); [lia|].
  unfold bind. simpl.
  destruct (cache_find key _) eqn:Hf; [reflexivity|].
  destruct H as [H|H]; [congruence|].
  rewrite evict_loop_done by exact H. reflexivity.
Qed.

(** Storing a new key in a full cache pops the least recently used live
    entry through [Cache.pop] and then appends. *)
Lemma cache_setitem_full_ok key value w u w' :
  cache_setitem config key value w = (Ok u, w') ->
  cache_find key (List.filter (live (now w)) (metrics_cache w)) = None ->
  length (List.filter (live (now w)) (metrics_cache w)) = maxsize config ->
  exists it rest v w1,
    List.filter (live (now w)) (metrics_cache w) = it :: rest
    /\ Cache_pop (ci_key it) (expired w) = (Ok v, w1)
    /\ w' = set_cache (cache_remove key (metrics_cache w1)
                       ++ [new_item key value w]) w1.
Proof.
  intros H Hf Hlen. unfold cache_setitem, bind at 1, cache_expire in H.
  fold (expired w) in H.
  destruct (Nat.ltb_spec (maxsize config) 1) as [|Hm]; [discriminate|].
  apply bind_ok_inv in H as ([] & w2 & Hroom & H).
  simpl in Hroom. rewrite Hf in Hroom.
  rewrite Hlen in Hroom.
  destruct (maxsize config) as [|n] eqn:Hmax; [lia|].
  simpl in Hroom. rewrite Hlen, Hmax in Hroom.
  replace (S n + 1 <=? S n)%nat with false in Hroom
    by (symmetry; apply Nat.leb_gt; lia).
  apply bind_ok_inv in Hroom as (kv & w1 & Hp & Hroom).
  pose proof (cache_popitem_shrinks _ _ _ Hp) as Hshrink.
  apply cache_popitem_ok in Hp as (it & rest & Hl & _ & Hp).
  rewrite expired_idem in Hp. simpl in Hl. rewrite filter_live_idem in Hl.
  simpl in Hshrink. rewrite Hlen in Hshrink.
  rewrite evict_loop_done in Hroom by (rewrite Hmax; lia).
  inversion Hroom; subst w2.
  inversion H; subst.
  assert (Hnow : now w1 = now w).
  { apply Cache_pop_ok in Hp as (? & ? & _ & _ & _ & _ & _ & ->); reflexivity. }
  exists it, rest, (snd kv), w1; repeat split; auto.
  unfold new_item; rewrite Hnow; reflexivity.
Qed.

Lemma store_metric_fresh key help m_type value labels w :
  match cache_find key (metrics_cache w) with
  | Some it => live (now w) it
  | None => false
  end = false ->
  store_metric config key help m_type value labels w
  = (do* c := setup_metric m_type key help labels value None in
     cache_setitem config key (entry_of c key help m_type value labels) ;;
     cache_expire) w.
Proof.
  intros H. unfold store_metric, bind at 1, cache_contains. rewrite H.
  reflexivity.
Qed.

Lemma store_metric_present key help m_type value labels w it :
  cache_find key (metrics_cache w) = Some it ->
  live (now w) it = true ->
  store_metric config key help m_type value labels w
  = (do* c := setup_metric m_type key help labels value
                (Some (cm_instance (ci_value it))) in
     cache_setitem config key (entry_of c key help m_type value labels) ;;
     cache_expire)
      (set_cache (cache_remove key (metrics_cache w) ++ [it]) w).
Proof.
  intros Hf Hl. unfold store_metric, bind at 1, cache_contains.
  rewrite Hf, Hl. unfold bind at 1, bind at 1, cache_getitem.
  rewrite Hf, Hl. reflexivity.
Qed.

(** A key that [key in metrics_cache] denies has no live item, the keys of
    the cache being distinct. *)
Lemma not_contained_no_live key w :
  List.NoDup (map ci_key (metrics_cache w)) ->
  match cache_find key (metrics_cache w) with
  | Some it => live (now w) it
  | None => false
  end = false ->
  cache_find key (List.filter (live (now w)) (metrics_cache w)) = None.
Proof.
  intros Hn H. apply cache_find_none. intros Hin.
  apply in_map_iff in Hin as (it & Hk & Hin).
  apply filter_In in Hin as [Hin Hl].
  destruct (cache_find key (metrics_cache w)) as [it'|] eqn:Hf.
  - apply cache_find_key in Hf as [Hk' Hin'].
    assert (it = it'); [|congruence].
    assert (Hkk : ci_key it = ci_key it') by congruence.
    clear - Hn Hkk Hin Hin'.
    induction (metrics_cache w) as [|x c IH]; [destruct Hin|].
    simpl in Hn. apply List.NoDup_cons_iff in Hn as [Hx Hn].
    destruct Hin as [->|Hin], Hin' as [->|Hin']; auto.
    + exfalso; apply Hx. rewrite Hkk. apply in_map; exact Hin'.
    + exfalso; apply Hx. rewrite <- Hkk. apply in_map; exact Hin.
  - apply cache_find_none in Hf. apply Hf. rewrite <- Hk. apply in_map, Hin.
Qed.

Lemma keeps_steady_setitem P key value :
  steady P -> keeps P (cache_setitem config key value).
Proof.
  intros HP. unfold cache_setitem.
  apply keeps_bind; [apply keeps_steady_expire, HP|intros _].
  destruct (_ <? 1)%nat; [apply keeps_raise|].
  apply keeps_bind; [|intros _ w H; simpl; apply HP, H].
  intros w H. destruct (cache_find key (metrics_cache w)); [exact H|].
  apply keeps_steady_evict_loop; assumption.
Qed.

Lemma keeps_steady_store_metric P name help m_type value labels :
  steady P -> keeps P (store_metric config name help m_type value labels).
Proof.
  intros HP. unfold store_metric.
  apply keeps_bind; [intros w H; exact H|intros present].
  apply keeps_bind; [|intros old].
  { destruct present; [|apply keeps_ret].
    apply keeps_bind; [apply keeps_steady_getitem, HP|intros; apply keeps_ret]. }
  apply keeps_bind; [apply keeps_setup_metric, HP|intros c].
  apply keeps_bind; [apply keeps_steady_setitem, HP|intros _].
  apply keeps_steady_expire, HP.
Qed.

Lemma steady_now t : steady (fun w => now w = t).
Proof. repeat split; intros; simpl; assumption. Qed.

Lemma store_metric_now name help m_type value labels w r w' :
  store_metric config name help m_type value labels w = (r, w') ->
  now w' = now w.
Proof.
  intros H.
  apply (keeps_run (fun w0 => now w0 = now w) _ w r w'
           (keeps_steady_store_metric _ name help m_type value labels
              (steady_now (now w))) eq_refl H).
Qed.

(** ** Successive upserts *)

Lemma upserted_store key w w' :
  upserted key w w' ->
  exists help m_type value labels,
    store_metric config key help m_type value labels w = (Ok tt, w').
Proof.
  intros (rq & Hm & H). unfold receive_webhook_request in H.
  assert (Hpost :
    (do* handler := lift (find_handler (event_handlers config) key) in
     match handler with
     | Some handler =>
         do* fields := lift (extract_fields (h_extractors handler)
                               (JDict [("data", rq_json rq);
                                       ("req", rq_vars rq)])) in
         store_fields config key fields
     | None => not_found_response config
     end) w = (Ok {| rs_body := None; rs_status := 200 |}, w')).
  { destruct (rq_method rq); try exact H. congruence. }
  clear H. apply bind_ok_inv in Hpost as (handler & w1 & Hf & H).
  unfold lift in Hf. inversion Hf; subst w1; clear Hf.
  destruct handler as [handler|].
  - apply bind_ok_inv in H as ([[[help m_type] value] labels] & w1 & Hx & H).
    unfold lift in Hx. inversion Hx; subst w1.
    unfold store_fields in H.
    apply bind_ok_inv in H as ([] & w2 & Hs & H).
    inversion H; subst. eauto.
  - unfold not_found_response in H.
    destruct (webhook_basepath config); inversion H.
Qed.

Lemma upserted_now key w w' : upserted key w w' -> now w' = now w.
Proof.
  intros H. apply upserted_store in H as (? & ? & ? & ? & H).
  eapply store_metric_now, H.
Qed.

Lemma upserts_now keys w w' : upserts keys w w' -> now w <= now w'.
Proof.
  induction 1 as [|key keys d w w1 w2 Hd Hu _ IH]; [lia|].
  apply upserted_now in Hu. simpl in Hu. lia.
Qed.

Lemma upserts_app (a b : list string) w w' :
  upserts (a ++ b)%list w w' ->
  exists w1, upserts a w w1 /\ upserts b w1 w'.
Proof.
  revert w; induction a as [|k a IH]; intros w H; simpl in H.
  - exists w; split; [constructor|exact H].
  - inversion H as [|? ? d ? w1 ? Hd Hu Hrest]; subst.
    apply IH in Hrest as (w2 & Ha & Hb).
    exists w2; split; [econstructor; eauto|exact Hb].
Qed.

(** ** Filling the cache *)

Lemma filter_all_live t (c : list cache_item) :
  (forall it, In it c -> t < ci_expires it) -> List.filter (live t) c = c.
Proof.
  induction c as [|x c IH]; intros H; simpl; [reflexivity|].
  assert (Hx : live t x = true) by (apply Z.ltb_lt, H; left; reflexivity).
  rewrite Hx, IH; [reflexivity|]. intros it Hin; apply H; right; exact Hin.
Qed.

Lemma cache_setitem_ok_maxsize key value w u w' :
  cache_setitem config key value w = (Ok u, w') -> (1 <= maxsize config)%nat.
Proof.
  unfold cache_setitem, bind at 1, cache_expire.
  destruct (Nat.ltb_spec (maxsize config) 1); [discriminate|lia].
Qed.

Lemma store_fresh_inv key help m_type value labels w w' :
  match cache_find key (metrics_cache w) with
  | Some it => live (now w) it
  | None => false
  end = false ->
  store_metric config key help m_type value labels w = (Ok tt, w') ->
  exists c wa wb,
    setup_metric m_type key help labels value None w = (Ok c, wa)
    /\ cache_setitem config key (entry_of c key help m_type value labels) wa
       = (Ok tt, wb)
    /\ w' = expired wb.
Proof.
  intros Hf H. rewrite store_metric_fresh in H by exact Hf.
  apply bind_ok_inv in H as (c & wa & Hs & H).
  apply bind_ok_inv in H as ([] & wb & Hi & H).
  inversion H; subst. exists c, wa, wb; auto.
Qed.

Lemma filled_room t0 base done key d help m_type value labels w w' :
  filled t0 base done w ->
  ~ In key done ->
  (length done + 1 <= maxsize config)%nat ->
  0 <= d -> now w + d < t0 + ttl config ->
  store_metric config key help m_type value labels (tick d w) = (Ok tt, w') ->
  filled t0 base (done ++ [key]) w'.
Proof.
  intros (Hk & Hi & Hr & Hh & He & Ht) Hnew Hroom Hd Hlate H.
  assert (Hfind : cache_find key (metrics_cache (tick d w)) = None)
    by (apply cache_find_none; simpl; rewrite Hk; exact Hnew).
  apply store_fresh_inv in H as (c & wa & wb & Hs & Hset & ->);
    [|rewrite Hfind; reflexivity].
  apply setup_metric_new in Hs as (-> & Hha & (names & Hra) & Hca & Hna & _).
  simpl in Hha, Hra, Hca, Hna.
  assert (Hlive : List.filter (live (now wa)) (metrics_cache wa)
                  = metrics_cache w).
  { rewrite Hca, Hna. apply filter_all_live.
    intros it Hin. specialize (He it Hin). lia. }
  rewrite cache_setitem_room in Hset.
  2: lia.
  2: { right. rewrite Hlive, <- Hk, length_map in *. exact Hroom. }
  inversion Hset; subst wb; clear Hset.
  rewrite Hlive.
  rewrite cache_remove_absent by (rewrite Hk; exact Hnew).
  unfold expired; simpl.
  rewrite List.filter_app, Hna.
  rewrite filter_all_live by (intros it Hin; specialize (He it Hin); lia).
  simpl. unfold live at 1; simpl. rewrite Hna.
  replace (now w + d <? now w + d + ttl config) with true
    by (symmetry; apply Z.ltb_lt; lia).
  unfold filled; simpl.
  rewrite Hra, !map_app, Hk, Hi, Hr, Hha, length_app, Hh. simpl.
  rewrite Nat.add_1_r, seq_S.
  repeat split; auto; try lia.
  intros it Hin. apply in_app_iff in Hin as [Hin|[<-|[]]]; [auto|simpl; lia].
Qed.

Lemma map_fst_filter_ne i (r : list (nat * list string)) :
  map fst (List.filter (fun e => negb (Nat.eqb (fst e) i)) r)
  = List.filter (fun j => negb (Nat.eqb j i)) (map fst r).
Proof.
  induction r as [|e r IH]; simpl; [reflexivity|].
  destruct (Nat.eqb (fst e) i); simpl; rewrite IH; reflexivity.
Qed.

Lemma filter_ne_all i (l : list nat) :
  ~ In i l -> List.filter (fun j => negb (Nat.eqb j i)) l = l.
Proof.
  induction l as [|x l IH]; simpl; intros H; [reflexivity|].
  destruct (Nat.eqb_spec x i) as [->|Hne]; simpl.
  - exfalso; apply H; left; reflexivity.
  - rewrite IH; [reflexivity|tauto].
Qed.

Lemma registered_iff i w :
  registered i w = true <-> In i (map fst (registry w)).
Proof.
  unfold registered. rewrite existsb_exists, in_map_iff. split.
  - intros (e & Hin & He). apply Nat.eqb_eq in He. eauto.
  - intros (e & He & Hin). exists e; split; [exact Hin|].
    apply Nat.eqb_eq, He.
Qed.

Lemma filled_full t0 base k0 rest key d help m_type value labels w w' :
  filled t0 base (k0 :: rest) w ->
  List.NoDup (k0 :: rest) ->
  ~ In key (k0 :: rest) ->
  length (k0 :: rest) = maxsize config ->
  0 <= d -> now w + d < t0 + ttl config ->
  store_metric config key help m_type value labels (tick d w) = (Ok tt, w') ->
  filled t0 (S base) (rest ++ [key]) w'.
Proof.
  intros (Hk & Hi & Hr & Hh & He & Ht) Hnd Hnew Hfull Hd Hlate H.
  assert (Hfind : cache_find key (metrics_cache (tick d w)) = None)
    by (apply cache_find_none; simpl; rewrite Hk; exact Hnew).
  apply store_fresh_inv in H as (c & wa & wb & Hs & Hset & ->);
    [|rewrite Hfind; reflexivity].
  apply setup_metric_new in Hs as (-> & Hha & (names & Hra) & Hca & Hna & _).
  simpl in Hha, Hra, Hca, Hna.
  assert (Hlive : List.filter (live (now wa)) (metrics_cache wa)
                  = metrics_cache w).
  { rewrite Hca, Hna. apply filter_all_live.
    intros it Hin. specialize (He it Hin). lia. }
  apply cache_setitem_full_ok in Hset
    as (it & items & v & w1 & Hcons & Hpop & ->).
  2: { rewrite Hlive. exact Hfind. }
  2: { rewrite Hlive, <- Hfull, <- Hk, length_map. reflexivity. }
  rewrite Hlive in Hcons.
  apply Cache_pop_ok in Hpop as (it' & m & Hf' & _ & -> & Hm & Hreg & ->).
  simpl in Hf'. rewrite Hlive, Hcons in Hf'.
  unfold cache_find in Hf'; simpl in Hf'. rewrite String.eqb_refl in Hf'.
  injection Hf' as <-.
  rewrite Hcons in Hk, Hi, He. simpl in Hk, Hi.
  injection Hk as Hk0 Hk. injection Hi as Hi0 Hi.
  apply List.NoDup_cons_iff in Hnd as [Hk0rest Hnd].
  unfold expired; simpl. rewrite Hlive, Hcons. simpl.
  rewrite String.eqb_refl; simpl.
  rewrite (cache_remove_absent (ci_key it)) by (rewrite Hk, Hk0; exact Hk0rest).
  rewrite (cache_remove_absent key)
    by (rewrite Hk; intros Hin; apply Hnew; right; exact Hin).
  rewrite List.filter_app, Hna.
  rewrite filter_all_live
    by (intros x Hin; specialize (He x (or_intror Hin)); lia).
  simpl. unfold live at 1; simpl. rewrite Hna.
  replace (now w + d <? now w + d + ttl config) with true
    by (symmetry; apply Z.ltb_lt; lia).
  unfold filled; simpl.
  rewrite length_insert, Hha, Hh, map_fst_filter_ne, Hra, !map_app, Hk, Hi, Hr.
  rewrite length_app. simpl.
  rewrite Nat.add_1_r, seq_S.
  assert (E : (base + S (length rest) = S base + length rest)%nat) by lia.
  split; [reflexivity|]. split; [rewrite E; reflexivity|]. split.
  { rewrite Hi0, Nat.eqb_refl. simpl.
    rewrite List.filter_app, filter_ne_all by (rewrite in_seq; lia).
    simpl. simpl in Hh. rewrite Hh.
    replace (Nat.eqb (base + S (length rest)) base) with false
      by (symmetry; apply Nat.eqb_neq; lia).
    simpl. rewrite E; reflexivity. }
  split; [lia|]. split; [|lia].
  intros x Hin. apply in_app_iff in Hin as [Hin|[<-|[]]]; [|simpl; lia].
  apply He; right; exact Hin.
Qed.

Lemma store_metric_ok_maxsize key help m_type value labels w u w' :
  store_metric config key help m_type value labels w = (Ok u, w') ->
  (1 <= maxsize config)%nat.
Proof.
  unfold store_metric. intros H.
  apply bind_ok_inv in H as (present & w1 & _ & H).
  apply bind_ok_inv in H as (old & w2 & _ & H).
  apply bind_ok_inv in H as (c & w3 & _ & H).
  apply bind_ok_inv in H as (u' & w4 & H & _).
  eapply cache_setitem_ok_maxsize, H.
Qed.

Lemma upserts_fill t0 base done keys w w' :
  filled t0 base done w ->
  upserts keys w w' ->
  List.NoDup (done ++ keys) ->
  (length done + length keys <= maxsize config)%nat ->
  now w' < t0 + ttl config ->
  filled t0 base (done ++ keys) w'.
Proof.
  intros Hf Hu. revert done Hf.
  induction Hu as [w|key keys d w w1 w2 Hd Hup Hrest IH];
    intros done Hf Hnd Hlen Hlate.
  - rewrite app_nil_r; exact Hf.
  - pose proof (upserts_now _ _ _ Hrest) as Hmono.
    pose proof (upserted_now _ _ _ Hup) as Hnow. simpl in Hnow.
    apply upserted_store in Hup as (help & m_type & value & labels & Hs).
    simpl in Hlen.
    assert (Hnew : ~ In key done).
    { intros Hin. apply List.NoDup_remove_2 in Hnd. apply Hnd.
      apply in_app_iff; left; exact Hin. }
    pose proof (filled_room t0 base done key d help m_type value labels w w1
                  Hf Hnew ltac:(lia) Hd ltac:(lia) Hs) as Hf1.
    replace (done ++ key :: keys)%list with ((done ++ [key]) ++ keys)%list
      in * by (rewrite <- app_assoc; auto).
    apply IH; auto. rewrite length_app; simpl; lia.
Qed.

Lemma filled_init t0 : filled t0 0 [] (init_world t0).
Proof. unfold filled; simpl; repeat split; auto; try lia; intros it []. Qed.

(** C7.  The cache never holds more than [maxsize] entries, whatever
    requests arrive and however time passes.  And when [maxsize + 1]
    distinct keys are upserted from start-up, all before the first could
    expire, the cache ends with the last [maxsize] of them: the first key,
    the least recently used, is gone from the cache and its metric, which
    was registered, is out of the registry, while every entry left has its
    metric registered and the registry holds exactly [maxsize] collectors. *)
Theorem C7_cache_bound :
  (forall evs t0,
     (length (metrics_cache (run config evs (init_world t0)))
      <= maxsize config)%nat)
  /\ (forall t0 k0 keys w1 w,
        upserts [k0] (init_world t0) w1 ->
        upserts keys w1 w ->
        List.NoDup (k0 :: keys) ->
        length (k0 :: keys) = S (maxsize config) ->
        now w < t0 + ttl config ->
        map ci_key (metrics_cache w) = keys
        /\ length (metrics_cache w) = maxsize config
        /\ (exists it0,
              metrics_cache w1 = [it0] /\ ci_key it0 = k0
              /\ registered (cm_instance (ci_value it0)) w1 = true
              /\ registered (cm_instance (ci_value it0)) w = false)
        /\ (forall it, In it (metrics_cache w) ->
                       registered (cm_instance (ci_value it)) w = true)
        /\ length (registry w) = maxsize config).
Proof.
  split.
  { intros evs t0. apply (bounded_run evs (init_world t0)), bounded_init. }
  intros t0 k0 keys w1 w Hfirst Hrest Hnd Hlen Hlate.
  simpl in Hlen. injection Hlen as Hlen.
  assert (Hmax : (1 <= maxsize config)%nat).
  { inversion Hfirst as [|? ? d ? wx ? Hd Hup _]; subst.
    apply upserted_store in Hup as (? & ? & ? & ? & Hs).
    eapply store_metric_ok_maxsize, Hs. }
  pose proof (upserts_now _ _ _ Hrest) as Hmono.
  assert (Hf1 : filled t0 0 [k0] w1).
  { apply (upserts_fill t0 0 [] [k0] (init_world t0) w1);
      [apply filled_init|exact Hfirst| | |]; simpl; try lia.
    apply List.NoDup_cons; [intros []|apply List.NoDup_nil]. }
  destruct (exists_last (l := keys)) as (mid & last & ->).
  { intros ->; simpl in Hlen; lia. }
  rewrite length_app in Hlen; simpl in Hlen.
  apply upserts_app in Hrest as (w2 & Hmid & Hlast).
  pose proof (upserts_now _ _ _ Hlast) as Hmono2.
  assert (Hnd' : List.NoDup (k0 :: mid) /\ ~ In last (k0 :: mid)).
  { replace (k0 :: mid ++ [last])%list with ((k0 :: mid) ++ [last])%list
      in Hnd by reflexivity.
    split.
    - apply List.NoDup_remove_1 in Hnd. rewrite app_nil_r in Hnd; exact Hnd.
    - apply List.NoDup_remove_2 in Hnd. rewrite app_nil_r in Hnd; exact Hnd. }
  destruct Hnd' as [Hnd1 Hnew].
  assert (Hf2 : filled t0 0 (k0 :: mid) w2).
  { apply (upserts_fill t0 0 [k0] mid w1 w2); auto; simpl; lia. }
  inversion Hlast as [|? ? d ? w3 ? Hd Hup Hnil]; subst.
  inversion Hnil; subst.
  pose proof (upserted_now _ _ _ Hup) as Hnow. simpl in Hnow.
  apply upserted_store in Hup as (help & m_type & value & labels & Hs).
  pose proof (filled_full t0 0 k0 mid last d help m_type value labels w2 w
                Hf2 Hnd1 Hnew ltac:(simpl; lia) Hd ltac:(lia) Hs)
    as (Hk & Hi & Hr & _ & _ & _).
  destruct Hf1 as (Hk1 & Hi1 & Hr1 & _ & _ & _).
  rewrite length_app in Hi, Hr; simpl in Hi, Hr.
  split; [exact Hk|].
  split; [rewrite <- (length_map ci_key), Hk, length_app; simpl; lia|].
  split.
  { destruct (metrics_cache w1) as [|it0 [|? ?]]; try discriminate.
    simpl in Hk1, Hi1. injection Hk1 as Hk1. injection Hi1 as Hi1.
    exists it0; repeat split; auto.
    - apply registered_iff. rewrite Hr1, Hi1; simpl; auto.
    - destruct (registered _ w) eqn:Hreg; [|reflexivity].
      apply registered_iff in Hreg. rewrite Hr, Hi1 in Hreg.
      apply in_seq in Hreg; lia. }
  split.
  { intros it Hin. apply registered_iff. rewrite Hr, <- Hi.
    apply (in_map (fun it => cm_instance (ci_value it))), Hin. }
  rewrite <- (length_map fst), Hr, length_seq. lia.
Qed.

(** ** Counters *)

Lemma child_get_put lv x cs : child_get lv (child_put lv x cs) = Some x.
Proof.
  induction cs as [|[lv' x'] cs IH]; simpl.
  - rewrite strings_eqb_refl; reflexivity.
  - destruct (strings_eqb lv lv') eqn:E; simpl; rewrite ?strings_eqb_refl, ?E;
      auto.
Qed.


Lemma insert_sorted_cons s l : insert_sorted s l <> [].
Proof. destruct l; simpl; [|destruct (String.leb s s0)]; discriminate. Qed.

Lemma sorted_nonempty (names : list string) (k : string) (ks : list string) :
  strings_eqb (sorted (k :: ks)) (sorted names) = true -> names <> [].
Proof.
  intros H ->. simpl in H. apply strings_eqb_eq in H.
  apply (insert_sorted_cons k (sorted ks)), H.
Qed.

Lemma insert_sorted_In x s l :
  In x (insert_sorted s l) <-> x = s \/ In x l.
Proof.
  induction l as [|y l IH]; simpl.
  - intuition.
  - destruct (String.leb s y); simpl; [intuition|].
    rewrite IH. intuition.
Qed.

(** Sorting keeps the names. *)
Lemma sorted_In x l : In x (sorted l) <-> In x l.
Proof.
  induction l as [|y l IH]; simpl; [reflexivity|].
  rewrite insert_sorted_In, IH. intuition.
Qed.

(** Label names that are those of an object without the label [self] can
    be handed to [labels]. *)
Lemma names_no_self items names :
  strings_eqb (sorted (map fst items)) (sorted names) = true ->
  ~ In "self" names ->
  binds_self items = false.
Proof.
  intros Hs Hn. apply strings_eqb_eq in Hs.
  unfold binds_self. destruct (existsb _ _) eqn:E; [|reflexivity].
  exfalso. apply Hn. apply existsb_exists in E as (x & Hx & Heq).
  apply String.eqb_eq in Heq. subst x.
  apply sorted_In. rewrite <- Hs. apply sorted_In. exact Hx.
Qed.

Lemma metric_labels_self c items w m :
  heap w !! c = Some m ->
  binds_self items = true ->
  metric_labels c items w = (Raise TypeError, w).
Proof.
  intros Hm Hs. unfold metric_labels, bind at 1, deref. rewrite Hm, Hs.
  reflexivity.
Qed.

Lemma metric_labels_eq c items w m :
  heap w !! c = Some m ->
  binds_self items = false ->
  metric_labels c items w
  = match m_labelnames m with
    | [] => (Raise ValueError, w)
    | _ :: _ =>
        if negb (strings_eqb (sorted (map fst items))
                             (sorted (m_labelnames m)))
        then (Raise ValueError, w)
        else
          let lv := label_values (m_labelnames m) items in
          match child_get lv (m_metrics m) with
          | Some _ => (Ok (c, lv), w)
          | None =>
              (Ok (c, lv),
               set_heap (<[c := with_metrics m
                                  (m_metrics m ++ [(lv, 0%float)])]>
                           (heap w)) w)
          end
    end.
Proof.
  intros Hm Hs. unfold metric_labels, bind at 1, deref. rewrite Hm, Hs.
  destruct (m_labelnames m) as [|n names] eqn:Hn; [reflexivity|].
  destruct (negb _); [reflexivity|]. simpl.
  destruct (child_get _ (m_metrics m)); [reflexivity|].
  unfold with_metrics; rewrite Hn; reflexivity.
Qed.

(** [labels] on an object of the heap: it raises and changes nothing, or
    it returns the child, creating it at zero when it is new. *)
Lemma metric_labels_cases c items w m :
  heap w !! c = Some m ->
  (exists e, metric_labels c items w = (Raise e, w))
  \/ (m_labelnames m <> []
      /\ strings_eqb (sorted (map fst items)) (sorted (m_labelnames m)) = true
      /\ let lv := label_values (m_labelnames m) items in
         match child_get lv (m_metrics m) with
         | Some _ => metric_labels c items w = (Ok (c, lv), w)
         | None =>
             metric_labels c items w
             = (Ok (c, lv),
                set_heap (<[c := with_metrics m
                                   (m_metrics m ++ [(lv, 0%float)])]>
                            (heap w)) w)
         end).
Proof.
  intros Hm. destruct (binds_self items) eqn:Hself.
  { left. eexists. apply (metric_labels_self c items w m Hm Hself). }
  rewrite (metric_labels_eq c items w m Hm Hself).
  destruct (m_labelnames m) as [|n names] eqn:Hn; [left; eexists; reflexivity|].
  destruct (strings_eqb _ _) eqn:He; simpl; [|left; eexists; reflexivity].
  right. split; [discriminate|]. split; [reflexivity|].
  destruct (child_get _ (m_metrics m)); reflexivity.
Qed.

(** [inc] on a child of a counter. *)
Lemma child_inc_counter c lv v w m x :
  heap w !! c = Some m ->
  m_class m = Counter ->
  child_get lv (m_metrics m) = Some x ->
  child_inc (c, lv) v w
  = if PrimFloat.ltb v 0%float then (Raise ValueError, w)
    else (Ok tt,
          set_heap (<[c := with_metrics m
                             (child_put lv (PrimFloat.add x v) (m_metrics m))]>
                      (heap w)) w).
Proof.
  intros Hm Hc Hx. unfold child_inc, bind at 1, deref; simpl. rewrite Hm, Hc.
  destruct (PrimFloat.ltb v 0); [reflexivity|].
  unfold child_write, bind, deref; simpl. rewrite Hm, Hx. reflexivity.
Qed.

Lemma cache_find_last key (a : list cache_item) it :
  ~ In key (map ci_key a) -> ci_key it = key ->
  cache_find key (a ++ [it]) = Some it.
Proof.
  intros Ha Hk. unfold cache_find. induction a as [|x a IH]; simpl.
  - rewrite Hk, String.eqb_refl; reflexivity.
  - simpl in Ha. destruct (String.eqb_spec key (ci_key x)) as [->|Hne].
    + exfalso; apply Ha; left; reflexivity.
    + apply IH. tauto.
Qed.

Lemma cache_find_live_last key t (a : list cache_item) it :
  live t it = true -> ci_key it = key ->
  cache_find key (List.filter (live t) (a ++ [it])) <> None.
Proof.
  intros Hl Hk Hnone. apply cache_find_none in Hnone. apply Hnone.
  apply in_map_iff. exists it; split; [exact Hk|].
  apply filter_In; split; [|exact Hl]. apply in_app_iff; right; left; reflexivity.
Qed.

Lemma filter_live_remove_gone key t (c : list cache_item) :
  ~ In key (map ci_key (List.filter (live t) (cache_remove key c))).
Proof.
  intros H. apply in_map_iff in H as (it & Hk & Hin).
  apply filter_In in Hin as [Hin _].
  apply cache_remove_in in Hin as [_ Hne]. congruence.
Qed.

(** Storing under a live key leaves a live entry for the key, as long as
    entries live at all. *)
Lemma store_tail key value w a it :
  (1 <= maxsize config)%nat -> 0 < ttl config ->
  metrics_cache w = (a ++ [it])%list ->
  live (now w) it = true -> ci_key it = key ->
  exists w',
    (cache_setitem config key value ;; cache_expire) w = (Ok tt, w')
    /\ heap w' = heap w /\ registry w' = registry w /\ now w' = now w
    /\ cache_find key (metrics_cache w') = Some (new_item key value w).
Proof.
  intros Hm Httl Hc Hl Hk.
  unfold bind. rewrite cache_setitem_room.
  2: exact Hm.
  2: { left. rewrite Hc. apply cache_find_live_last; assumption. }
  eexists; split; [reflexivity|]. simpl. repeat split.
  rewrite List.filter_app. simpl.
  assert (Hnew : live (now w) (new_item key value w) = true).
  { unfold live, new_item; simpl. apply Z.ltb_lt. lia. }
  rewrite Hnew. apply cache_find_last; [|reflexivity].
  apply filter_live_remove_gone.
Qed.

Lemma setup_counter_old key help items v c w m x :
  items <> [] ->
  binds_self items = false ->
  heap w !! c = Some m ->
  m_class m = Counter ->
  strings_eqb (sorted (map fst items)) (sorted (m_labelnames m)) = true ->
  child_get (label_values (m_labelnames m) items) (m_metrics m) = Some x ->
  setup_metric (JStr "counter") key help (JDict items) v (Some c) w
  = if PrimFloat.ltb v 0%float then (Raise ValueError, w)
    else (Ok c,
          set_heap
            (<[c := with_metrics m
                      (child_put (label_values (m_labelnames m) items)
                         (PrimFloat.add x v) (m_metrics m))]> (heap w)) w).
Proof.
  intros Hi Hself Hm Hc Hs Hx.
  destruct items as [|kv items]; [congruence|].
  pose proof (sorted_nonempty _ _ _ Hs) as Hn.
  unfold setup_metric.
  assert (E1 : String.eqb "counter" "gauge" = false) by reflexivity.
  assert (E2 : String.eqb "counter" "counter" = true) by reflexivity.
  rewrite E1, E2.
  unfold instance_or_new, bind at 1, ret.
  unfold bind at 1. rewrite (metric_labels_eq c (kv :: items) w m Hm Hself).
  destruct (m_labelnames m) as [|n names] eqn:Hnames; [congruence|].
  rewrite Hs. simpl negb. cbv iota. cbv zeta. rewrite Hx.
  unfold bind. rewrite (child_inc_counter c _ v w m x Hm Hc Hx).
  destruct (PrimFloat.ltb v 0); reflexivity.
Qed.



Lemma child_get_app_new lv x cs :
  child_get lv cs = None -> child_get lv (cs ++ [(lv, x)]) = Some x.
Proof.
  induction cs as [|[lv' x'] cs IH]; simpl.
  - rewrite strings_eqb_refl; reflexivity.
  - destruct (strings_eqb lv lv'); [discriminate|exact IH].
Qed.


Lemma child_put_same lv x y cs :
  child_put lv y ((lv, x) :: cs) = (lv, y) :: cs.
Proof. simpl. rewrite strings_eqb_refl. reflexivity. Qed.

(** The first upsert of a counter builds it with one child, at zero plus
    the delta. *)
Lemma setup_counter_new key help labels v w c wa :
  setup_metric (JStr "counter") key help labels v None w = (Ok c, wa) ->
  exists items,
    labels = JDict items /\ items <> []
    /\ PrimFloat.ltb v 0%float = false
    /\ c = length (heap w)
    /\ heap wa !! c
       = Some {| m_class := Counter; m_name := key; m_documentation := help;
                 m_labelnames := map fst items;
                 m_metrics := [(label_tuple labels,
                                PrimFloat.add 0%float v)] |}
    /\ registered c wa = true
    /\ metrics_cache wa = metrics_cache w
    /\ now wa = now w
    /\ binds_self items = false.
Proof.
  intros H.
  pose proof (setup_metric_new _ _ _ _ _ _ _ _ H)
    as (Hc & _ & (names & Hreg) & Hcache & Hnow & _).
  destruct labels as [| | | | | |items]; try discriminate.
  pose proof (setup_metric_ok_self _ _ _ _ _ _ _ _ _ H) as Hself.
  unfold setup_metric in H.
  destruct items as [|kv items]; [discriminate|].
  exists (kv :: items).
  assert (E1 : String.eqb "counter" "gauge" = false) by reflexivity.
  assert (E2 : String.eqb "counter" "counter" = true) by reflexivity.
  rewrite E1, E2 in H.
  apply bind_ok_inv in H as (c0 & w1 & Hnew & H).
  simpl in Hnew. apply new_metric_ok in Hnew as [-> ->].
  set (m0 := {| m_class := Counter; m_name := key; m_documentation := help;
                m_labelnames := map fst (kv :: items); m_metrics := [] |}) in *.
  set (w1 := set_registry _ _) in *.
  assert (Hm0 : heap w1 !! length (heap w) = Some m0)
    by (subst w1; simpl; apply list_lookup_middle; reflexivity).
  unfold bind at 1 in H.
  rewrite (metric_labels_eq _ (kv :: items) w1 m0 Hm0 Hself) in H.
  assert (Hnames : m_labelnames m0 = map fst (kv :: items)) by reflexivity.
  rewrite Hnames in H.
  change (label_tuple (JDict (kv :: items)))
    with (label_values (map fst (kv :: items)) (kv :: items)).
  remember (label_values (map fst (kv :: items)) (kv :: items)) as lv eqn:Hlv.
  rewrite strings_eqb_refl in H. simpl negb in H.
  change (map fst (kv :: items)) with (fst kv :: map fst items) in H.
  cbv iota zeta in H.
  change (fst kv :: map fst items) with (map fst (kv :: items)) in H.
  change (child_get lv (m_metrics m0)) with (@None float) in H.
  cbv iota in H.
  set (m1 := with_metrics m0 _) in H.
  set (w2 := set_heap _ w1) in H.
  assert (Hlen : (length (heap w) < length (heap w1))%nat)
    by (subst w1; simpl; rewrite length_app; simpl; lia).
  assert (Hm1 : heap w2 !! length (heap w) = Some m1)
    by (subst w2; simpl; apply list_lookup_insert_eq; exact Hlen).
  apply bind_ok_inv in H as ([] & w3 & Hinc & H).
  rewrite (child_inc_counter _ lv v w2 m1 0%float Hm1 eq_refl) in Hinc.
  2: { apply (child_get_app_new lv 0%float []). reflexivity. }
  destruct (PrimFloat.ltb v 0) eqn:Hv; [discriminate|].
  inversion Hinc; subst w3; clear Hinc.
  inversion H; subst c wa; clear H.
  repeat split; auto; try discriminate.
  - simpl. rewrite list_lookup_insert_eq
      by (rewrite length_insert; exact Hlen).
    unfold with_metrics. f_equal. f_equal.
    change (m_metrics m1) with [(lv, 0%float)].
    apply child_put_same.
  - apply registered_iff. rewrite Hreg, map_app. apply in_app_iff.
    right; left; reflexivity.
Qed.

(** What [cache_setitem] keeps when it returns: anything that survives
    expiry and the pops of the eviction. *)
Lemma cache_setitem_ok_keeps (P : world -> Prop) key value w u w' :
  (forall w0, P w0 -> P (expired w0)) ->
  (forall k w0 v w1, P w0 -> Cache_pop k w0 = (Ok v, w1) -> P w1) ->
  P w ->
  cache_setitem config key value w = (Ok u, w') ->
  exists w2,
    P w2
    /\ w' = set_cache (cache_remove key (metrics_cache w2)
                       ++ [{| ci_key := key; ci_value := value;
                              ci_expires := now w2 + ttl config |}]) w2.
Proof.
  intros Hexp Hpop Hw H.
  unfold cache_setitem, bind at 1, cache_expire in H. fold (expired w) in H.
  destruct (_ <? 1)%nat; [discriminate|].
  apply bind_ok_inv in H as ([] & w2 & Hroom & H).
  inversion H; subst w'; clear H.
  exists w2; split; [|reflexivity].
  assert (Hloop : forall fuel w0 w3,
            P w0 -> evict_loop config fuel w0 = (Ok tt, w3) -> P w3).
  { induction fuel as [|fuel IH]; intros w0 w3 H0 Hl; simpl in Hl.
    - destruct (_ <=? _)%nat; inversion Hl; subst; exact H0.
    - destruct (_ <=? _)%nat; [inversion Hl; subst; exact H0|].
      apply bind_ok_inv in Hl as (kv & w4 & Hp & Hl).
      apply cache_popitem_ok in Hp as (it & rest & _ & _ & Hp).
      eapply IH; [|exact Hl]. eapply Hpop; [|exact Hp]. apply Hexp, H0. }
  destruct (cache_find key (metrics_cache (expired w))).
  - inversion Hroom; subst. apply Hexp, Hw.
  - eapply Hloop; [|exact Hroom]. apply Hexp, Hw.
Qed.




(** ** The cached instance is reused *)

Lemma ends_metric_labels P c labels :
  assign_at c P ->
  ends P (metric_labels c labels) (fun ch w => P w /\ fst ch = c) P.
Proof.
  intros HP w Hw.
  pose proof (keeps_metric_labels P c labels HP w Hw) as Hk.
  destruct (metric_labels c labels w) as [[ch|e] w1] eqn:Hl; [|exact Hk].
  split; [exact Hk|]. eapply metric_labels_fst, Hl.
Qed.

Lemma ends_bind_ret {A B} P (a : A) (k : A -> M B) Q E :
  ends P (k a) Q E -> ends P (bind (ret a) k) Q E.
Proof. intros H w Hw. exact (H w Hw). Qed.

(** With an old instance [setup_metric] assigns to that object at most,
    whether it returns or raises. *)
Lemma keeps_setup_metric_old P m_type name help labels value c0 :
  assign_at c0 P ->
  keeps P (setup_metric m_type name help labels value (Some c0)).
Proof.
  intros HP. apply ends_keeps. unfold setup_metric.
  destruct m_type; try (apply ends_raise; auto).
  destruct labels as [| | | | | |items]; try (apply ends_raise; auto).
  destruct items as [|kv items]; [apply ends_raise; auto|].
  repeat match goal with
         | |- ends _ (if ?b then _ else _) _ _ => destruct b
         end; try (apply ends_raise; auto);
    (simpl instance_or_new; apply ends_bind_ret;
     eapply ends_bind; [apply ends_metric_labels, HP|intros ch];
     eapply ends_bind with (Q := fun _ => P);
     [|intros; apply ends_ret; auto]).
  - intros w [Hw Hch]. revert w Hw. apply keeps_ends, keeps_child_set.
    rewrite Hch; exact HP.
  - intros w [Hw Hch]. revert w Hw. apply keeps_ends, keeps_child_inc.
    rewrite Hch; exact HP.
  - apply ends_raise. intros w [Hw _]; exact Hw.
Qed.






(** ** Expiry does not unregister *)

(** [TTLCache.expire] removes an expired item from the cache and leaves
    the registry as it is: the metric of the item stays registered. *)
Lemma expire_leaves_registered w it :
  In it (metrics_cache w) ->
  live (now w) it = false ->
  registered (cm_instance (ci_value it)) w = true ->
  ~ In it (metrics_cache (snd (cache_expire w)))
  /\ registered (cm_instance (ci_value it)) (snd (cache_expire w)) = true.
Proof.
  intros _ Hl Hr; split; [|exact Hr].
  simpl. intros Hin. apply filter_In in Hin as [_ Hin]. congruence.
Qed.

End Facts.

(** * Further properties *)

Section Further.
Context `{L : PyLibs} (config : Config).
Open Scope py_scope.

(** ** The shape of what [run_extractor] returns *)

Lemma run_chains_each (default data : pyvalue) (extractors extracted : list pyvalue) :
  run_chains default data extractors = Ok extracted ->
  Forall2 (fun e x => run_chain default data (as_list e) = Ok x)
    extractors extracted.
Proof.
  revert extracted; induction extractors as [|e es IH]; intros extracted H;
    simpl in H.
  - inversion H; constructor.
  - destruct (run_chain default data (as_list e)) as [x|] eqn:Hx;
      [|discriminate]. simpl in H.
    destruct (run_chains default data es) as [xs|]; [|discriminate].
    simpl in H. inversion H; subst. constructor; auto.
Qed.

(** X2.  What [run_extractor] returns for a list of extractors, when no
    stage raises: for exactly one extractor the bare result of its chain, not
    a list; for any other number a list with one result per extractor, in
    order, the empty list for no extractor. *)
Theorem X2_run_extractor_shape (extractors : list pyvalue)
  (data default r : pyvalue) :
  run_extractor (JList extractors) data default = Ok r ->
  match extractors with
  | [e] => run_chain default data (as_list e) = Ok r
  | _ =>
      exists extracted,
        r = JList extracted
        /\ Forall2 (fun e x => run_chain default data (as_list e) = Ok x)
             extractors extracted
  end.
Proof.
  unfold run_extractor. simpl as_list.
  destruct (run_chains default data extractors) as [extracted|] eqn:Hc;
    [|discriminate].
  simpl. intros H; inversion H; subst; clear H.
  apply run_chains_each in Hc.
  destruct Hc as [|e x es xs He Hes]; [exists []; split; [reflexivity|constructor]|].
  destruct Hes as [|e2 x2 es2 xs2 He2 Hes2]; [exact He|].
  eexists; split; [reflexivity|].
  repeat constructor; assumption.
Qed.


(** ** The value falls back to [None], which [float] refuses *)

(** X3.  A handler whose extractors name no [value], or give it as null,
    refuses every create/update request: the value comes out as the default
    [None], [float] raises, and nothing changes.  The exception is
    [TypeError] whenever the extractions of help and type, which come first,
    raise nothing. *)
Theorem X3_handler_without_value_extractor event_title rq w handler :
  rq_method rq <> DELETE ->
  find_handler (event_handlers config) event_title = Ok (Some handler) ->
  dict_get "value" (h_extractors handler) JNull = JNull ->
  exists e,
    receive_webhook_request config event_title rq w = (Raise e, w)
    /\ (forall help m_type,
          run_extractor (dict_get "help" (h_extractors handler) JNull)
            (JDict [("data", rq_json rq); ("req", rq_vars rq)])
            (JStr "default help") = Ok help ->
          run_extractor (dict_get "type" (h_extractors handler) JNull)
            (JDict [("data", rq_json rq); ("req", rq_vars rq)])
            (JStr "gauge") = Ok m_type ->
          e = TypeError).
Proof.
  intros Hm Hf Hv.
  destruct (extract_fields_value_refused (h_extractors handler)
              (JDict [("data", rq_json rq); ("req", rq_vars rq)])
              JNull TypeError) as (e & Hx & He).
  - rewrite Hv. reflexivity.
  - reflexivity.
  - exists e; split; [|exact He].
    apply (request_extract_raises config event_title rq w handler e Hm Hf Hx).
Qed.

(** X4.  A value that a jmespath query extracts as zero, as [false] or as
    any other falsy value cannot be posted: line 111 puts the default [None]
    in its place and [float] refuses it.  The request raises, [TypeError]
    when help and type extract, and nothing changes. *)
Theorem X4_zero_value_refused event_title rq w handler q r :
  rq_method rq <> DELETE ->
  find_handler (event_handlers config) event_title = Ok (Some handler) ->
  dict_get "value" (h_extractors handler) JNull = JStr q ->
  q <> "" -> startswith_slash q = false ->
  jmespath_search q (JDict [("data", rq_json rq); ("req", rq_vars rq)])
  = Ok r ->
  r = JInt 0 \/ r = JFloat 0%float \/ r = JBool false \/ truthy r = false ->
  exists e,
    receive_webhook_request config event_title rq w = (Raise e, w)
    /\ (forall help m_type,
          run_extractor (dict_get "help" (h_extractors handler) JNull)
            (JDict [("data", rq_json rq); ("req", rq_vars rq)])
            (JStr "default help") = Ok help ->
          run_extractor (dict_get "type" (h_extractors handler) JNull)
            (JDict [("data", rq_json rq); ("req", rq_vars rq)])
            (JStr "gauge") = Ok m_type ->
          e = TypeError).
Proof.
  intros Hm Hf Hv Hq Hs Hr Hz.
  assert (Hfalsy : truthy r = false).
  { destruct Hz as [->|[->|[->|H]]]; auto. }
  destruct (extract_fields_value_refused (h_extractors handler)
              (JDict [("data", rq_json rq); ("req", rq_vars rq)])
              JNull TypeError) as (e & Hx & He).
  - rewrite Hv. rewrite run_extractor_single by (intros l; discriminate).
    unfold run_partial, jmespath_stage. simpl truthy.
    destruct (String.eqb_spec q ""); [contradiction|]. simpl.
    rewrite Hs, Hr. simpl. rewrite Hfalsy. reflexivity.
  - reflexivity.
  - exists e; split; [|exact He].
    apply (request_extract_raises config event_title rq w handler e Hm Hf Hx).
Qed.

(** ** Merging the labels *)

Lemma dict_get_absent k (d : list (string * pyvalue)) dflt :
  ~ In k (map fst d) -> dict_get k d dflt = dflt.
Proof.
  induction d as [|[k' v] d IH]; simpl; [reflexivity|].
  intros H. destruct (String.eqb_spec k k') as [->|Hne]; [|apply IH; tauto].
  exfalso; apply H; left; reflexivity.
Qed.

Lemma dict_get_set k k' v (d : list (string * pyvalue)) dflt :
  dict_get k (dict_set k' v d) dflt
  = if String.eqb k k' then v else dict_get k d dflt.
Proof.
  induction d as [|[k2 v2] d IH]; simpl.
  - destruct (String.eqb k k'); reflexivity.
  - destruct (String.eqb_spec k' k2) as [->|Hne]; simpl.
    + destruct (String.eqb k k2); reflexivity.
    + rewrite IH. destruct (String.eqb_spec k k2) as [->|Hne2]; [|reflexivity].
      destruct (String.eqb_spec k2 k'); [congruence|reflexivity].
Qed.

Lemma dict_set_keys k v (d : list (string * pyvalue)) :
  map fst (dict_set k v d)
  = if existsb (String.eqb k) (map fst d) then map fst d
    else (map fst d ++ [k])%list.
Proof.
  induction d as [|[k2 v2] d IH]; simpl; [reflexivity|].
  destruct (String.eqb_spec k k2) as [->|Hne]; simpl; [reflexivity|].
  rewrite IH. destruct (existsb _ _); reflexivity.
Qed.

Lemma dict_set_NoDup k v (d : list (string * pyvalue)) :
  List.NoDup (map fst d) -> List.NoDup (map fst (dict_set k v d)).
Proof.
  intros H. rewrite dict_set_keys.
  destruct (existsb (String.eqb k) (map fst d)) eqn:He; [exact H|].
  apply List.NoDup_app; [exact H| |].
  - apply List.NoDup_cons; [intros []|apply List.NoDup_nil].
  - intros x Hin [Hx|[]]. subst x.
    assert (Ht : existsb (String.eqb k) (map fst d) = true).
    { apply existsb_exists. exists k; split; [exact Hin|apply String.eqb_refl]. }
    congruence.
Qed.

Lemma dict_merge_NoDup (a b : list (string * pyvalue)) :
  List.NoDup (map fst a) -> List.NoDup (map fst (dict_merge a b)).
Proof.
  unfold dict_merge. revert a; induction b as [|[k v] b IH]; intros a H;
    simpl; [exact H|].
  apply IH, dict_set_NoDup, H.
Qed.

Lemma dict_get_merge k (a b : list (string * pyvalue)) dflt :
  List.NoDup (map fst b) ->
  dict_get k (dict_merge a b) dflt = dict_get k b (dict_get k a dflt).
Proof.
  unfold dict_merge. revert a; induction b as [|[k' v] b IH]; intros a Hb;
    simpl; [reflexivity|].
  simpl in Hb. apply List.NoDup_cons_iff in Hb as [Hk Hb].
  rewrite IH by exact Hb. rewrite dict_get_set.
  destruct (String.eqb_spec k k') as [->|Hne]; [|reflexivity].
  apply dict_get_absent, Hk.
Qed.

Lemma reduce_merge_dicts (a : list (string * pyvalue))
  (ds : list (list (string * pyvalue))) :
  List.NoDup (map fst a) ->
  Forall (fun d => List.NoDup (map fst d)) ds ->
  exists m,
    reduce_merge (JDict a) (map JDict ds) = Ok (JDict m)
    /\ List.NoDup (map fst m)
    /\ forall k dflt,
         dict_get k m dflt
         = fold_left (fun acc d => dict_get k d acc) ds (dict_get k a dflt).
Proof.
  intros Ha Hds. revert a Ha.
  induction Hds as [|d ds Hd Hds IH]; intros a Ha; simpl.
  - exists a; repeat split; auto.
  - destruct (IH (dict_merge a d) (dict_merge_NoDup a d Ha))
      as (m & Hm & Hn & Hget).
    exists m; repeat split; auto.
    intros k dflt. rewrite Hget, dict_get_merge by exact Hd. reflexivity.
Qed.

(** X5.  The merge of line 208.  A list of label dicts is merged from the
    left: the merged dict has for each key the value of the last dict that
    holds it, and its keys are distinct.  An empty list makes [reduce] raise
    [TypeError]. *)
Theorem X5_merged_labels_last_wins :
  merge_labels (JList []) = Raise TypeError
  /\ forall (d0 : list (string * pyvalue))
            (ds : list (list (string * pyvalue))),
       Forall (fun d => List.NoDup (map fst d)) (d0 :: ds) ->
       exists m,
         merge_labels (JList (map JDict (d0 :: ds))) = Ok (JDict m)
         /\ List.NoDup (map fst m)
         /\ forall k dflt,
              dict_get k m dflt
              = fold_left (fun acc d => dict_get k d acc) (d0 :: ds) dflt.
Proof.
  split; [reflexivity|].
  intros d0 ds H. apply Forall_cons_iff in H as [H0 Hds].
  destruct (reduce_merge_dicts d0 ds H0 Hds) as (m & Hm & Hn & Hget).
  exists m; repeat split; auto.
Qed.

(** ** The answers of the handler *)

(** X16.  The answers of the handler.  A delete that returns answers 404,
    having changed nothing, for a key the cache does not hold, and 202
    otherwise, after which the key is gone.  A create/update that returns
    answers 404, having changed nothing, when no handler matches, and 200
    with an empty body otherwise.  Everything else ends in an exception. *)
Theorem X16_answers_of_the_handler event_title rq w resp w' :
  receive_webhook_request config event_title rq w = (Ok resp, w') ->
  match rq_method rq with
  | DELETE =>
      (resp = {| rs_body := Some (JDict [("error", JStr "not found")]);
                 rs_status := 404 |}
       /\ w' = w /\ fst (cache_contains event_title w) = Ok false)
      \/ (resp = {| rs_body := Some (JDict [("removed_metric",
                                              JStr event_title)]);
                    rs_status := 202 |}
          /\ fst (cache_contains event_title w) = Ok true
          /\ fst (cache_contains event_title w') = Ok false)
  | _ =>
      (rs_status resp = 404 /\ w' = w
       /\ find_handler (event_handlers config) event_title = Ok None)
      \/ (resp = {| rs_body := None; rs_status := 200 |}
          /\ exists handler,
               find_handler (event_handlers config) event_title
               = Ok (Some handler))
  end.
Proof.
  intros H. unfold receive_webhook_request in H.
  assert (Hpost :
    rq_method rq <> DELETE ->
    (do* handler := lift (find_handler (event_handlers config) event_title) in
     match handler with
     | Some handler =>
         do* fields := lift (extract_fields (h_extractors handler)
                               (JDict [("data", rq_json rq);
                                       ("req", rq_vars rq)])) in
         store_fields config event_title fields
     | None => not_found_response config
     end) w = (Ok resp, w') ->
    (rs_status resp = 404 /\ w' = w
     /\ find_handler (event_handlers config) event_title = Ok None)
    \/ (resp = {| rs_body := None; rs_status := 200 |}
        /\ exists handler,
             find_handler (event_handlers config) event_title
             = Ok (Some handler))).
  { intros _ Hp. apply bind_ok_inv in Hp as (handler & w1 & Hf & Hp).
    unfold lift in Hf. inversion Hf as [[Hf' Hw]]; subst w1.
    destruct handler as [handler|].
    - right. apply bind_ok_inv in Hp as ([[[help m_type] value] labels] & w1 & Hx & Hp).
      unfold store_fields in Hp.
      apply bind_ok_inv in Hp as ([] & w2 & Hs & Hp).
      inversion Hp; subst. split; [reflexivity|]. exists handler. exact Hf'.
    - left. unfold not_found_response in Hp.
      destruct (webhook_basepath config); inversion Hp; subst.
      repeat split; auto. }
  destruct (rq_method rq); [apply Hpost; [discriminate|exact H]
                           |apply Hpost; [discriminate|exact H]|].
  clear Hpost.
  apply bind_ok_inv in H as (present & w1 & Hc & H).
  unfold cache_contains in Hc. inversion Hc as [[Hp Hw]]; subst w1.
  unfold cache_contains; simpl. rewrite Hp.
  destruct present; simpl in H.
  - right. apply bind_ok_inv in H as (v & w2 & Hpop & H).
    inversion H; subst. split; [reflexivity|]. split; [reflexivity|].
    apply Cache_pop_unregisters in Hpop as [_ Hnone]. rewrite Hnone. reflexivity.
  - left. inversion H; subst. repeat split; reflexivity.
Qed.


(** ** Two deletes *)

Lemma cachetools_pop_live key w it :
  cache_find key (metrics_cache w) = Some it ->
  live (now w) it = true ->
  cachetools_pop key w
  = (Ok (ci_value it), set_cache (cache_remove key (metrics_cache w)) w).
Proof.
  intros Hf Hl.
  unfold cachetools_pop, bind at 1, cache_contains. rewrite Hf, Hl.
  unfold bind at 1, cache_getitem. rewrite Hf, Hl.
  unfold bind, cache_delitem, ret. simpl.
  apply cache_find_key in Hf as Hk. destruct Hk as [Hk _].
  rewrite (cache_find_last key (cache_remove key (metrics_cache w)) it
             (cache_remove_gone key _) Hk), Hl.
  f_equal. unfold set_cache; simpl. f_equal.
  rewrite cache_remove_app, cache_remove_idem. simpl.
  rewrite Hk, String.eqb_refl. simpl. apply app_nil_r.
Qed.

Lemma cachetools_pop_dead key w :
  fst (cache_contains key w) = Ok false ->
  cachetools_pop key w = (Raise KeyError, w).
Proof.
  unfold cachetools_pop, bind, cache_contains. simpl. intros H.
  injection H as ->. reflexivity.
Qed.

Lemma snd_bind_ret {A B} (m : M A) (b : B) w :
  snd ((do* _ := m in ret b) w) = snd (m w).
Proof. unfold bind. destruct (m w) as [[a|e] w1]; reflexivity. Qed.

Lemma grow_only_cache (Q : list cache_item -> Prop) :
  grow_only (fun w => Q (metrics_cache w)).
Proof. split; intros; assumption. Qed.

Lemma Cache_pop_gone key w :
  fst (cache_contains key w) = Ok true ->
  cache_find key (metrics_cache (snd (Cache_pop key w))) = None.
Proof.
  unfold cache_contains. simpl. intros H.
  destruct (cache_find key (metrics_cache w)) as [it|] eqn:Hf;
    [|discriminate].
  injection H as Hl.
  unfold Cache_pop, bind at 1.
  rewrite (cachetools_pop_live key w it Hf Hl).
  set (P := fun w0 : world => cache_find key (metrics_cache w0) = None).
  assert (HP : grow_only P)
    by (apply (grow_only_cache (fun c => cache_find key c = None))).
  apply (keeps_bind P (metric_clear (cm_instance (ci_value it)))).
  - apply keeps_metric_clear, grow_assign, HP.
  - intros _. apply keeps_bind; [|intros; apply keeps_ret].
    apply keeps_registry_unregister, HP.
  - unfold P. simpl. apply cache_find_none, cache_remove_gone.
Qed.

Lemma delete_request key (body vars : pyvalue) w :
  receive_webhook_request config key
    {| rq_method := DELETE; rq_json := body; rq_vars := vars |} w
  = if match cache_find key (metrics_cache w) with
       | Some it => live (now w) it
       | None => false
       end
    then (Cache_pop key ;;
          ret {| rs_body := Some (JDict [("removed_metric", JStr key)]);
                 rs_status := 202 |}) w
    else (Ok {| rs_body := Some (JDict [("error", JStr "not found")]);
                rs_status := 404 |}, w).
Proof.
  unfold receive_webhook_request. cbn [rq_method].
  unfold bind at 1, cache_contains.
  destruct (match cache_find key (metrics_cache w) with
            | Some it => live (now w) it
            | None => false
            end); reflexivity.
Qed.

(** X15.  Whatever the state and whatever the first delete did, a second
    delete of the same key right after it is answered 404, not found. *)
Theorem X15_second_delete_not_found key (body vars body' vars' : pyvalue) w :
  fst (receive_webhook_request config key
         {| rq_method := DELETE; rq_json := body'; rq_vars := vars' |}
         (snd (receive_webhook_request config key
                 {| rq_method := DELETE; rq_json := body; rq_vars := vars |}
                 w)))
  = Ok {| rs_body := Some (JDict [("error", JStr "not found")]);
          rs_status := 404 |}.
Proof.
  set (w1 := snd (receive_webhook_request config key
                    {| rq_method := DELETE; rq_json := body;
                       rq_vars := vars |} w)).
  assert (Hgone : match cache_find key (metrics_cache w1) with
                  | Some it => live (now w1) it
                  | None => false
                  end = false).
  { subst w1. rewrite delete_request.
    destruct (match cache_find key (metrics_cache w) with
              | Some it => live (now w) it
              | None => false
              end) eqn:Hp.
    - rewrite snd_bind_ret, Cache_pop_gone; [reflexivity|].
      unfold cache_contains. simpl. rewrite Hp. reflexivity.
    - simpl. exact Hp. }
  rewrite delete_request, Hgone. reflexivity.
Qed.

(** ** Requests that build nothing, requests that cannot succeed *)

Lemma cache_find_remove_other k key (c : list cache_item) :
  k <> key -> cache_find k (cache_remove key c) = cache_find k c.
Proof.
  intros Hne. unfold cache_find, cache_remove.
  induction c as [|x c IH]; simpl; [reflexivity|].
  destruct (String.eqb_spec key (ci_key x)) as [He|He]; simpl.
  - destruct (String.eqb_spec k (ci_key x)); [congruence|exact IH].
  - rewrite IH. reflexivity.
Qed.

Lemma cache_find_app k (a b : list cache_item) :
  cache_find k (a ++ b)
  = match cache_find k a with
    | Some it => Some it
    | None => cache_find k b
    end.
Proof.
  unfold cache_find. induction a as [|x a IH]; simpl; [reflexivity|].
  destruct (String.eqb k (ci_key x)); [reflexivity|exact IH].
Qed.

(** Reading a key moves its item to the recent end: no lookup changes. *)
Lemma cache_find_requeue key (c : list cache_item) it k :
  cache_find key c = Some it ->
  cache_find k (cache_remove key c ++ [it]) = cache_find k c.
Proof.
  intros Hf. apply cache_find_key in Hf as Hk. destruct Hk as [Hk _].
  destruct (String.eqb_spec k key) as [->|Hne].
  - rewrite Hf. apply cache_find_last; [apply cache_remove_gone|exact Hk].
  - rewrite cache_find_app, cache_find_remove_other by exact Hne.
    destruct (cache_find k c); [reflexivity|].
    unfold cache_find; simpl. rewrite Hk.
    destruct (String.eqb_spec k key); [contradiction|reflexivity].
Qed.

(** Lines 212-214 read the cache and change no lookup. *)
Lemma store_metric_lookup key help m_type value labels w :
  exists old w1,
    store_metric config key help m_type value labels w
    = (do* c := setup_metric m_type key help labels value old in
       cache_setitem config key (entry_of c key help m_type value labels) ;;
       cache_expire) w1
    /\ heap w1 = heap w /\ registry w1 = registry w /\ now w1 = now w
    /\ (forall k, cache_find k (metrics_cache w1)
                  = cache_find k (metrics_cache w))
    /\ match old with
       | Some c0 =>
           exists it, cache_find key (metrics_cache w) = Some it
                      /\ live (now w) it = true
                      /\ cm_instance (ci_value it) = c0
                      /\ metrics_cache w1
                         = (cache_remove key (metrics_cache w) ++ [it])%list
       | None => w1 = w /\ fst (cache_contains key w) = Ok false
       end.
Proof.
  destruct (match cache_find key (metrics_cache w) with
            | Some it => live (now w) it
            | None => false
            end) eqn:Hp.
  - destruct (cache_find key (metrics_cache w)) as [it|] eqn:Hf;
      [|discriminate].
    exists (Some (cm_instance (ci_value it))),
           (set_cache (cache_remove key (metrics_cache w) ++ [it]) w).
    split; [apply store_metric_present; assumption|].
    repeat split; auto.
    + intros k. simpl. apply cache_find_requeue, Hf.
    + exists it; repeat split; auto.
  - exists None, w.
    split; [apply store_metric_fresh; exact Hp|].
    repeat split; auto. unfold cache_contains; simpl. rewrite Hp. reflexivity.
Qed.

Lemma setup_metric_rejects m_type name help labels value old w :
  (forall t, m_type = JStr t -> t <> "gauge" /\ t <> "counter" /\ t <> "info")
  \/ (forall kv items, labels <> JDict (kv :: items)) ->
  exists e, setup_metric m_type name help labels value old w = (Raise e, w).
Proof.
  intros H. unfold setup_metric.
  destruct m_type as [| | | |t| |]; try (eexists; reflexivity).
  destruct labels as [| | | | | |items]; try (eexists; reflexivity).
  destruct items as [|kv items]; [eexists; reflexivity|].
  destruct H as [H|H]; [|exfalso; apply (H kv items); reflexivity].
  destruct (H t eq_refl) as (H1 & H2 & H3).
  destruct (String.eqb_spec t "gauge"); [contradiction|].
  destruct (String.eqb_spec t "counter"); [contradiction|].
  destruct (String.eqb_spec t "info"); [contradiction|].
  eexists; reflexivity.
Qed.

(** X6.  A type that is not one of the strings gauge, counter, info, or
    labels that are not a dict with at least one key, are refused before
    anything is built: the store raises, no metric object is made, nothing
    is registered, and every lookup in the cache answers as before. *)
Theorem X6_rejected_before_construction key help m_type value labels w :
  (forall t, m_type = JStr t -> t <> "gauge" /\ t <> "counter" /\ t <> "info")
  \/ (forall kv items, labels <> JDict (kv :: items)) ->
  exists e w',
    store_metric config key help m_type value labels w = (Raise e, w')
    /\ heap w' = heap w /\ registry w' = registry w /\ now w' = now w
    /\ forall k, cache_find k (metrics_cache w')
                 = cache_find k (metrics_cache w).
Proof.
  intros H.
  destruct (store_metric_lookup key help m_type value labels w)
    as (old & w1 & -> & Hh & Hr & Hn & Hc & _).
  destruct (setup_metric_rejects m_type key help labels value old w1 H)
    as (e & Hs).
  exists e, w1. unfold bind at 1. rewrite Hs. auto.
Qed.

Lemma setup_info_raises name help labels value old w :
  exists e w',
    setup_metric (JStr "info") name help labels value old w = (Raise e, w')
    /\ metrics_cache w' = metrics_cache w /\ now w' = now w.
Proof.
  pose proof (keeps_setup_metric
                (fun w0 => metrics_cache w0 = metrics_cache w
                           /\ now w0 = now w)
                (JStr "info") name help labels value old) as Hk.
  assert (Hg : grow_only (fun w0 => metrics_cache w0 = metrics_cache w
                                    /\ now w0 = now w))
    by (split; intros; assumption).
  specialize (Hk Hg w (conj eq_refl eq_refl)).
  destruct (setup_metric (JStr "info") name help labels value old w)
    as [[c|e] w'] eqn:Hs; simpl in Hk.
  - exfalso. unfold setup_metric in Hs.
    destruct labels as [| | | | | |items]; try discriminate.
    destruct items as [|kv items]; [discriminate|].
    assert (E1 : String.eqb "info" "gauge" = false) by reflexivity.
    assert (E2 : String.eqb "info" "counter" = false) by reflexivity.
    assert (E3 : String.eqb "info" "info" = true) by reflexivity.
    rewrite E1, E2, E3 in Hs.
    apply bind_ok_inv in Hs as (c0 & w1 & _ & Hs).
    apply bind_ok_inv in Hs as (ch & w2 & _ & Hs).
    apply bind_ok_inv in Hs as (u & w3 & Hi & _).
    discriminate.
  - exists e, w'. split; [reflexivity|exact Hk].
Qed.

(** X7.  A metric of type info is never stored: the value handed to
    [info] is the float of line 199, which is no mapping, so the store
    raises whatever the key, the labels and the state, and every lookup in
    the cache answers as before. *)
Theorem X7_info_is_never_stored key help value labels w :
  exists e w',
    store_metric config key help (JStr "info") value labels w = (Raise e, w')
    /\ now w' = now w
    /\ forall k, cache_find k (metrics_cache w')
                 = cache_find k (metrics_cache w).
Proof.
  destruct (store_metric_lookup key help (JStr "info") value labels w)
    as (old & w1 & -> & Hh & Hr & Hn & Hc & _).
  destruct (setup_info_raises key help labels value old w1)
    as (e & w' & Hs & Hc' & Hn').
  exists e, w'. unfold bind at 1. rewrite Hs.
  split; [reflexivity|]. split; [congruence|].
  intros k. rewrite Hc'. apply Hc.
Qed.

(** ** [items] and [to_object] *)

Lemma dict_set_fresh k v (d : list (string * pyvalue)) :
  ~ In k (map fst d) -> dict_set k v d = (d ++ [(k, v)])%list.
Proof.
  induction d as [|[k' v'] d IH]; simpl; [reflexivity|].
  intros H. destruct (String.eqb_spec k k') as [->|Hne].
  - exfalso; apply H; left; reflexivity.
  - rewrite IH; [reflexivity|tauto].
Qed.

Lemma dict_from_items (acc d : list (string * pyvalue)) :
  List.NoDup (map fst (acc ++ d)) ->
  dict_from (_func_items d) (Some acc) = Ok (Some (acc ++ d)%list).
Proof.
  revert acc; induction d as [|[k v] d IH]; intros acc H; simpl.
  - rewrite app_nil_r. reflexivity.
  - rewrite dict_set_fresh.
    + replace (acc ++ (k, v) :: d)%list with ((acc ++ [(k, v)]) ++ d)%list
        in * by (rewrite <- app_assoc; reflexivity).
      apply IH, H.
    + rewrite map_app in H. simpl in H.
      apply List.NoDup_remove_2 in H.
      intros Hin. apply H, in_app_iff. left; exact Hin.
Qed.

(** X1.  [to_object] undoes [items]: the pairs [items] makes of an object
    whose keys are distinct, as the keys of a dict are, give the same object
    back, key for key in the same order. *)
Theorem X1_to_object_inverts_items (d : list (string * pyvalue)) :
  List.NoDup (map fst d) ->
  _func_to_object (_func_items d) = Ok (Some (JDict d)).
Proof.
  intros H. unfold _func_to_object.
  rewrite (dict_from_items [] d H). reflexivity.
Qed.


(** ** Cached metrics are registered *)

Lemma NoDup_map_filter {A B} (f : A -> B) (p : A -> bool) (l : list A) :
  List.NoDup (map f l) -> List.NoDup (map f (List.filter p l)).
Proof.
  induction l as [|x l IH]; simpl; [auto|].
  intros H. apply List.NoDup_cons_iff in H as [H1 H2].
  destruct (p x); simpl; [|auto].
  apply List.NoDup_cons; [|auto].
  intros Hin. apply H1. apply in_map_iff in Hin as (y & Hy & Hin).
  apply filter_In in Hin as [Hin _]. apply in_map_iff; eauto.
Qed.

Lemma NoDup_map_in_eq {A B} (f : A -> B) (l : list A) (a b : A) :
  List.NoDup (map f l) -> In a l -> In b l -> f a = f b -> a = b.
Proof.
  induction l as [|x l IH]; simpl; [intros _ []|].
  intros H Ha Hb Hab. apply List.NoDup_cons_iff in H as [H1 H2].
  destruct Ha as [->|Ha], Hb as [->|Hb]; auto.
  - exfalso; apply H1. rewrite Hab. apply in_map, Hb.
  - exfalso; apply H1. rewrite <- Hab. apply in_map, Ha.
Qed.

Lemma registered_app c (r : list (nat * list string)) e w :
  registered c w = true ->
  registered c (set_registry (registry w ++ [e]) w) = true.
Proof.
  unfold registered; simpl. intros H. rewrite existsb_app, H. reflexivity.
Qed.

Lemma tracked_sub (w : world) (p : cache_item -> bool) :
  tracked w -> tracked (set_cache (List.filter p (metrics_cache w)) w).
Proof.
  intros [H1 H2]; split; simpl.
  - apply NoDup_map_filter, H1.
  - intros it Hin. apply filter_In in Hin as [Hin _]. apply (H2 it Hin).
Qed.

Lemma consistent_sub (w : world) key :
  consistent w ->
  consistent (set_cache (cache_remove key (metrics_cache w)) w).
Proof.
  intros [Hw Ht]; split; [apply wf_remove, Hw|apply tracked_sub, Ht].
Qed.

Lemma consistent_requeue (w : world) key it :
  consistent w -> cache_find key (metrics_cache w) = Some it ->
  consistent (set_cache (cache_remove key (metrics_cache w) ++ [it]) w).
Proof.
  intros [Hw [Hn Hr]] Hf. apply cache_find_key in Hf as [Hk Hin].
  split.
  - apply wf_put; [exact Hk|apply Hw, Hin|exact Hw].
  - split; simpl.
    + rewrite map_app. apply List.NoDup_app.
      * apply NoDup_map_filter, Hn.
      * apply List.NoDup_cons; [intros []|apply List.NoDup_nil].
      * intros c Hc [Hit|[]]. subst c.
        apply in_map_iff in Hc as (it' & He & Hin').
        apply cache_remove_in in Hin' as [Hin' Hne].
        apply Hne. rewrite <- Hk. f_equal.
        apply (NoDup_map_in_eq instance_of (metrics_cache w)); auto.
    + intros x Hx. apply in_app_iff in Hx as [Hx|[<-|[]]]; [|apply Hr, Hin].
      apply cache_remove_in in Hx as [Hx _]. apply Hr, Hx.
Qed.

Lemma consistent_expire : keeps consistent cache_expire.
Proof.
  intros w [Hw Ht]; split.
  - apply (keeps_wf_expire w Hw).
  - apply (tracked_sub w (live (now w)) Ht).
Qed.

Lemma aside_sub cs (w : world) (p : cache_item -> bool) :
  aside cs w -> aside cs (set_cache (List.filter p (metrics_cache w)) w).
Proof.
  intros H c Hc. destruct (H c Hc) as (H1 & H2 & H3).
  repeat split; auto.
  intros it Hin. simpl in Hin. apply filter_In in Hin as [Hin _]. auto.
Qed.

(** What [Cache.pop] does after the item is out of the cache (lines 65-68). *)
Lemma dispose_cases c (v : cached_metric) w :
  (metric_clear c ;; registry_unregister c ;; ret v) w
  = match heap w !! c with
    | None => (Raise KeyError, w)
    | Some m =>
        if registered c w
        then (Ok v,
              set_registry
                (List.filter (fun e => negb (Nat.eqb (fst e) c)) (registry w))
                (set_heap (<[c := cleared m]> (heap w)) w))
        else (Raise KeyError, set_heap (<[c := cleared m]> (heap w)) w)
    end.
Proof.
  unfold bind, metric_clear, bind, deref, assign, registry_unregister, ret.
  destruct (heap w !! c) as [m|]; [|reflexivity].
  unfold registered; simpl. destruct (existsb _ (registry w)); reflexivity.
Qed.

Lemma Cache_pop_cases key w :
  match cache_find key (metrics_cache w) with
  | Some it =>
      if live (now w) it
      then Cache_pop key w
           = (metric_clear (instance_of it) ;;
              registry_unregister (instance_of it) ;;
              ret (ci_value it))
               (set_cache (cache_remove key (metrics_cache w)) w)
      else Cache_pop key w = (Raise KeyError, w)
  | None => Cache_pop key w = (Raise KeyError, w)
  end.
Proof.
  destruct (cache_find key (metrics_cache w)) as [it|] eqn:Hf.
  - destruct (live (now w) it) eqn:Hl.
    + unfold Cache_pop, bind at 1.
      rewrite (cachetools_pop_live key w it Hf Hl). reflexivity.
    + unfold Cache_pop, bind. rewrite cachetools_pop_dead; [reflexivity|].
      unfold cache_contains; simpl. rewrite Hf, Hl. reflexivity.
  - unfold Cache_pop, bind. rewrite cachetools_pop_dead; [reflexivity|].
    unfold cache_contains; simpl. rewrite Hf. reflexivity.
Qed.

(** [Cache.pop] keeps the cache consistent, whether it returns or raises,
    and leaves alone the objects that are in no cache item. *)
Lemma consistent_Cache_pop cs key :
  keeps (fun w => consistent w /\ aside cs w) (Cache_pop key).
Proof.
  intros w [Hw Ha]. pose proof (Cache_pop_cases key w) as E.
  destruct (cache_find key (metrics_cache w)) as [it|] eqn:Hf;
    [|rewrite E; split; assumption].
  destruct (live (now w) it) eqn:Hl; [|rewrite E; split; assumption].
  rewrite E, dispose_cases. clear E.
  apply cache_find_key in Hf as [Hk Hin].
  set (w1 := set_cache (cache_remove key (metrics_cache w)) w).
  assert (Hw1 : consistent w1) by (apply consistent_sub, Hw).
  assert (Ha1 : aside cs w1) by (apply aside_sub, Ha).
  assert (Hne : forall x, In x (metrics_cache w1) ->
                          instance_of x <> instance_of it).
  { intros x Hx Heq. simpl in Hx. apply cache_remove_in in Hx as [Hx Hxk].
    apply Hxk. rewrite <- Hk. f_equal.
    apply (NoDup_map_in_eq instance_of (metrics_cache w)); auto.
    apply Hw. }
  assert (Hnc : forall c, In c cs -> c <> instance_of it).
  { intros c Hc Heq. destruct (Ha c Hc) as (_ & _ & H3).
    apply (H3 it Hin). congruence. }
  destruct (heap w1 !! instance_of it) as [m|]; [|split; assumption].
  set (w2 := set_heap _ w1).
  assert (Hw2 : consistent w2 /\ aside cs w2).
  { destruct Hw1 as [[Hk1 Hh1] Ht1]. split; [split; [split|]|].
    - exact Hk1.
    - intros x Hx. simpl. rewrite length_insert. apply Hh1, Hx.
    - exact Ht1.
    - intros c Hc. destruct (Ha1 c Hc) as (H1 & H2 & H3).
      repeat split; auto. unfold heap_has in *; simpl.
      rewrite length_insert. exact H2. }
  destruct (registered (instance_of it) w1) eqn:Hreg; [|exact Hw2].
  destruct Hw2 as [[Hwf [Hn Hr]] Ha2].
  split; [split; [exact Hwf|split; [exact Hn|]]|].
  - intros x Hx. unfold registered; simpl.
    rewrite registered_filter_other by (apply Hne, Hx). apply (Hr x Hx).
  - intros c Hc. destruct (Ha2 c Hc) as (H1 & H2 & H3).
    repeat split; auto. unfold registered; simpl.
    rewrite registered_filter_other by (apply Hnc, Hc). exact H1.
Qed.

Lemma consistent_aside_nil w : consistent w <-> consistent w /\ aside [] w.
Proof. split; [intros H; split; [exact H|intros c []]|intros [H _]; exact H]. Qed.

Lemma keeps_consistent_Cache_pop key : keeps consistent (Cache_pop key).
Proof.
  intros w Hw. apply consistent_aside_nil.
  apply (consistent_Cache_pop [] key w). apply consistent_aside_nil, Hw.
Qed.

(** Storing an object that is registered, and cached under this key at
    most, keeps the cache consistent, evictions included. *)
Lemma consistent_setitem key value :
  ends (fun w => consistent w /\ owned (cm_instance value) key w)
    (cache_setitem config key value) (fun _ => consistent) consistent.
Proof.
  set (c := cm_instance value).
  set (G := fun w => consistent w /\ owned c key w).
  set (H := fun w => consistent w /\ aside [c] w).
  assert (HG : keeps G cache_expire).
  { intros w [Hw (H1 & H2 & H3)]. split; [apply (consistent_expire w Hw)|].
    repeat split; auto.
    intros it Hin. simpl in Hin. apply filter_In in Hin as [Hin _]. auto. }
  assert (HH : forall fuel, keeps H (evict_loop config fuel)).
  { intros fuel. apply keeps_evict_loop, keeps_popitem.
    - intros w [Hw Ha]. split; [apply (consistent_expire w Hw)|].
      apply (aside_sub [c] w (live (now w)) Ha).
    - intros k. apply consistent_Cache_pop. }
  assert (HHG : forall w, H w -> G w).
  { intros w [Hw Ha]. split; [exact Hw|].
    destruct (Ha c (or_introl eq_refl)) as (H1 & H2 & H3).
    repeat split; auto. intros it Hin Hc. exfalso. apply (H3 it Hin Hc). }
  intros w Hw. unfold cache_setitem, bind.
  specialize (HG w Hw). destruct (cache_expire w) as [[u|e] w1] eqn:He;
    simpl in HG; [|apply HG].
  destruct (_ <? 1)%nat; [apply HG|].
  assert (Hroom : match (match cache_find key (metrics_cache w1) with
                         | Some _ => (Ok tt, w1)
                         | None => evict_loop config
                                     (length (metrics_cache w1)) w1
                         end) with
                  | (_, w2) => G w2
                  end).
  { destruct (cache_find key (metrics_cache w1)) eqn:Hf; [exact HG|].
    assert (HH1 : H w1).
    { destruct HG as [Hc1 (H1 & H2 & H3)]. split; [exact Hc1|].
      intros c' [<-|[]]. repeat split; auto.
      intros it Hin Hc. apply cache_find_none in Hf. apply Hf.
      rewrite <- (H3 it Hin Hc). apply in_map, Hin. }
    specialize (HH (length (metrics_cache w1)) w1 HH1).
    destruct (evict_loop config _ w1) as [r w2]. apply HHG, HH. }
  destruct (match cache_find key (metrics_cache w1) with
            | Some _ => _ | None => _ end) as [[u2|e2] w2];
    [|apply Hroom].
  destruct Hroom as [[Hwf [Hn Hr]] (H1 & H2 & H3)].
  split.
  - apply wf_put; [reflexivity|exact H2|exact Hwf].
  - split; simpl.
    + rewrite map_app. apply List.NoDup_app.
      * apply NoDup_map_filter, Hn.
      * apply List.NoDup_cons; [intros []|apply List.NoDup_nil].
      * intros x Hx [Hxc|[]]. subst x.
        apply in_map_iff in Hx as (it & Hi & Hin).
        apply cache_remove_in in Hin as [Hin Hne].
        apply Hne, (H3 it Hin Hi).
    + intros x Hx. apply in_app_iff in Hx as [Hx|[<-|[]]]; [|exact H1].
      apply cache_remove_in in Hx as [Hx _]. apply Hr, Hx.
Qed.

Lemma append_assign P i : append_only P -> assign_at i P.
Proof.
  intros [Hh _] w m H. apply Hh; [rewrite length_insert; lia|exact H].
Qed.

Lemma keeps_new_metric_append P cls name help labelnames :
  append_only P -> keeps P (new_metric cls name help labelnames).
Proof.
  intros [Hh Hr] w H. unfold new_metric.
  destruct (negb _); simpl; [exact H|].
  unfold bind, registry_register, ret.
  assert (H1 : P (set_heap
                    (heap w ++ [{| m_class := cls; m_name := name;
                                   m_documentation := help;
                                   m_labelnames := labelnames;
                                   m_metrics := [] |}]) w)).
  { apply Hh; [rewrite length_app; lia|exact H]. }
  destruct (existsb _ (metric_names cls name)); simpl; [exact H1|].
  apply (Hr _ _ H1).
Qed.

(** [setup_metric] only lengthens the heap and the registry, whether it
    returns or raises. *)
Lemma keeps_setup_metric_append P m_type name help labels value old :
  append_only P -> keeps P (setup_metric m_type name help labels value old).
Proof.
  intros HP; unfold setup_metric.
  assert (Hi : forall cls keys,
            keeps P (instance_or_new old cls name help keys)).
  { intros cls keys. destruct old; simpl; [apply keeps_ret|].
    apply keeps_new_metric_append, HP. }
  destruct m_type; try apply keeps_raise.
  destruct labels as [| | | | | |items]; try apply keeps_raise.
  destruct items as [|kv items]; [apply keeps_raise|].
  repeat match goal with
         | |- keeps _ (if ?b then _ else _) => destruct b
         end; try apply keeps_raise;
    (apply keeps_bind; [apply Hi|intros c];
     apply keeps_bind; [apply keeps_metric_labels, append_assign, HP|intros ch];
     apply keeps_bind; [|intros; apply keeps_ret]).
  - apply keeps_child_set, append_assign, HP.
  - apply keeps_child_inc, append_assign, HP.
  - apply keeps_raise.
Qed.

Lemma append_only_consistent : append_only consistent.
Proof.
  split.
  - intros w h Hh [[H1 H2] Ht]. split; [split; [exact H1|]|exact Ht].
    intros it Hin. specialize (H2 it Hin). simpl in *. lia.
  - intros w e [Hw [Hn Hr]]. split; [exact Hw|]. split; [exact Hn|].
    intros it Hin. apply registered_app; [exact []|]. apply Hr, Hin.
Qed.

Lemma assign_at_owned c key c0 :
  assign_at c0 (fun w => consistent w /\ owned c key w).
Proof.
  intros w m [[[H1 H2] Ht] (H3 & H4 & H5)].
  split; [split; [split; [exact H1|]|exact Ht]|].
  - intros it Hin. simpl. rewrite length_insert. apply H2, Hin.
  - repeat split; auto. unfold heap_has in *; simpl.
    rewrite length_insert. exact H4.
Qed.

(** [setup_metric] hands back an object that is registered and cached
    under this key at most. *)
Lemma consistent_setup_metric key m_type help labels value old :
  ends (fun w => consistent w
                 /\ forall c0, old = Some c0 ->
                      exists it, In it (metrics_cache w)
                                 /\ ci_key it = key /\ instance_of it = c0)
    (setup_metric m_type key help labels value old)
    (fun c w => consistent w /\ owned c key w) consistent.
Proof.
  intros w [Hw Hold]. destruct old as [c0|].
  - destruct (Hold c0 eq_refl) as (it & Hin & Hk & Hi).
    assert (Ho : consistent w /\ owned c0 key w).
    { split; [exact Hw|]. destruct Hw as [[_ Hh] [Hn Hr]].
      repeat split.
      - rewrite <- Hi. apply Hr, Hin.
      - unfold heap_has. rewrite <- Hi. apply Hh, Hin.
      - intros x Hx Hxc. rewrite <- Hk. f_equal.
        apply (NoDup_map_in_eq instance_of (metrics_cache w)); auto.
        congruence. }
    pose proof (keeps_setup_metric_old _ m_type key help labels value c0
                  (assign_at_owned c0 key c0) w Ho) as Hk2.
    destruct (setup_metric m_type key help labels value (Some c0) w)
      as [[c|e] w'] eqn:Hs; simpl in Hk2; [|apply Hk2].
    apply setup_metric_old in Hs as [-> _]. exact Hk2.
  - pose proof (keeps_setup_metric_append _ m_type key help labels value None
                  append_only_consistent w Hw) as Hk2.
    destruct (setup_metric m_type key help labels value None w)
      as [[c|e] w'] eqn:Hs; simpl in Hk2; [|exact Hk2].
    split; [exact Hk2|].
    apply setup_metric_new in Hs
      as (-> & Hlen & (names & Hreg) & Hcache & _ & _).
    repeat split.
    + apply registered_iff. rewrite Hreg, map_app. apply in_app_iff.
      right; left; reflexivity.
    + unfold heap_has. lia.
    + intros it Hin Hc. exfalso. rewrite Hcache in Hin.
      destruct Hw as [[_ Hh] _]. specialize (Hh it Hin).
      unfold instance_of in Hc. lia.
Qed.

(** After the lookup of lines 212-214 the cache is consistent, and the
    old instance, when there is one, is cached under the key. *)
Lemma store_metric_lookup_consistent key help m_type value labels w :
  consistent w ->
  exists old w1,
    store_metric config key help m_type value labels w
    = (do* c := setup_metric m_type key help labels value old in
       cache_setitem config key (entry_of c key help m_type value labels) ;;
       cache_expire) w1
    /\ heap w1 = heap w /\ registry w1 = registry w /\ now w1 = now w
    /\ (forall k, cache_find k (metrics_cache w1)
                  = cache_find k (metrics_cache w))
    /\ consistent w1
    /\ forall c0, old = Some c0 ->
         exists it, In it (metrics_cache w1)
                    /\ ci_key it = key /\ instance_of it = c0.
Proof.
  intros Hw.
  destruct (store_metric_lookup key help m_type value labels w)
    as (old & w1 & E & Hh & Hr & Hn & Hc & Hold).
  exists old, w1. repeat (split; [assumption|]).
  destruct old as [c0|].
  - destruct Hold as (it & Hf & Hl & Hi & Hcache).
    pose proof (consistent_requeue w key it Hw Hf) as Hq.
    apply cache_find_key in Hf as [Hk Hin].
    split.
    + destruct Hq as [[Q1 Q2] [Q3 Q4]]. simpl in *.
      split; [split|split]; rewrite ?Hcache; auto.
      * intros x Hx. rewrite Hh. apply Q2, Hx.
      * intros x Hx. unfold registered in *. rewrite Hr. apply (Q4 x Hx).
    + intros c1 Hc1. injection Hc1 as <-.
      exists it. rewrite Hcache. repeat split; auto.
      apply in_app_iff; right; left; reflexivity.
  - destruct Hold as [-> _]. split; [exact Hw|discriminate].
Qed.

Lemma keeps_consistent_store_metric key help m_type value labels :
  keeps consistent (store_metric config key help m_type value labels).
Proof.
  intros w Hw.
  destruct (store_metric_lookup_consistent key help m_type value labels w Hw)
    as (old & w1 & -> & _ & _ & _ & _ & Hw1).
  unfold bind at 1.
  pose proof (consistent_setup_metric key m_type help labels value old w1 Hw1)
    as Hs.
  destruct (setup_metric m_type key help labels value old w1)
    as [[c|e] w2]; [|exact Hs].
  unfold bind at 1.
  pose proof (consistent_setitem key
                (entry_of c key help m_type value labels) w2 Hs) as Hi.
  destruct (cache_setitem config key _ w2) as [[u|e] w3]; [|exact Hi].
  apply (consistent_expire w3 Hi).
Qed.

Lemma consistent_run evs w : consistent w -> consistent (run config evs w).
Proof.
  revert w; induction evs as [|ev evs IH]; intros w H; simpl; auto.
  apply IH. destruct ev as [event_title rq|d]; simpl; [|exact H].
  apply keeps_request;
    [apply keeps_consistent_store_metric|apply keeps_consistent_Cache_pop|].
  exact H.
Qed.

Lemma consistent_init t0 : consistent (init_world t0).
Proof.
  split; [apply wf_init|].
  split; simpl; [apply List.NoDup_nil|intros it []].
Qed.

Lemma consistent_reachable evs t0 :
  consistent (run config evs (init_world t0)).
Proof. apply consistent_run, consistent_init. Qed.

(** X13.  In every world the server can reach, the keys of the cache are
    distinct, no two entries share a metric object, and the metric of every
    entry, expired or not, is an object of the heap and is in the registry. *)
Theorem X13_cached_metrics_are_registered evs t0 :
  let w := run config evs (init_world t0) in
  List.NoDup (map ci_key (metrics_cache w))
  /\ List.NoDup (map instance_of (metrics_cache w))
  /\ forall it, In it (metrics_cache w) ->
       registered (instance_of it) w = true
       /\ exists m, heap w !! instance_of it = Some m.
Proof.
  intros w.
  destruct (consistent_reachable evs t0) as [[Hk Hh] [Hn Hr]].
  fold w in Hk, Hh, Hn, Hr.
  split; [exact Hk|]. split; [exact Hn|].
  intros it Hin. split; [apply Hr, Hin|].
  apply lookup_lt_is_Some_2. apply Hh, Hin.
Qed.

(** ** The delete *)

Lemma Cache_pop_live key w it m :
  cache_find key (metrics_cache w) = Some it ->
  live (now w) it = true ->
  heap w !! instance_of it = Some m ->
  registered (instance_of it) w = true ->
  Cache_pop key w
  = (Ok (ci_value it),
     {| heap := <[instance_of it := cleared m]> (heap w);
        registry := List.filter
                      (fun e => negb (Nat.eqb (fst e) (instance_of it)))
                      (registry w);
        metrics_cache := cache_remove key (metrics_cache w);
        now := now w |}).
Proof.
  intros Hf Hl Hm Hr. pose proof (Cache_pop_cases key w) as E.
  rewrite Hf, Hl in E. rewrite E, dispose_cases. simpl.
  rewrite Hm. unfold registered in *. simpl. rewrite Hr. reflexivity.
Qed.

(** X14.  The delete, in any world the server can reach.  For a key that
    is in the cache and has not expired, the request is answered 202 with
    the name; the entry is gone, its metric has lost its children and is out
    of the registry, and nothing else changes.  For any other key, an
    expired one included, the answer is 404 and nothing changes. *)
Theorem X14_delete_removes_and_unregisters evs t0 key (body vars : pyvalue) :
  let w := run config evs (init_world t0) in
  let rq := {| rq_method := DELETE; rq_json := body; rq_vars := vars |} in
  match cache_find key (metrics_cache w) with
  | Some it =>
      if live (now w) it then
        exists m,
          heap w !! instance_of it = Some m
          /\ receive_webhook_request config key rq w
             = (Ok {| rs_body := Some (JDict [("removed_metric", JStr key)]);
                      rs_status := 202 |},
                {| heap := <[instance_of it := cleared m]> (heap w);
                   registry :=
                     List.filter
                       (fun e => negb (Nat.eqb (fst e) (instance_of it)))
                       (registry w);
                   metrics_cache := cache_remove key (metrics_cache w);
                   now := now w |})
      else
        receive_webhook_request config key rq w
        = (Ok {| rs_body := Some (JDict [("error", JStr "not found")]);
                 rs_status := 404 |}, w)
  | None =>
      receive_webhook_request config key rq w
      = (Ok {| rs_body := Some (JDict [("error", JStr "not found")]);
               rs_status := 404 |}, w)
  end.
Proof.
  intros w rq. subst rq. rewrite delete_request.
  destruct (consistent_reachable evs t0) as [[_ Hh] [_ Hreg]].
  fold w in Hh, Hreg.
  destruct (cache_find key (metrics_cache w)) as [it|] eqn:Hf; [|reflexivity].
  destruct (live (now w) it) eqn:Hl; [|reflexivity].
  apply cache_find_key in Hf as Hk. destruct Hk as [_ Hin].
  pose proof (Hreg it Hin) as Hr.
  destruct (lookup_lt_is_Some_2 (heap w) (instance_of it) (Hh it Hin))
    as [m Hm].
  exists m; split; [exact Hm|].
  unfold bind. rewrite (Cache_pop_live key w it m Hf Hl Hm Hr). reflexivity.
Qed.


(** ** How long a stored entry is found *)

Lemma store_metric_ok_inv key help m_type value labels w w' :
  store_metric config key help m_type value labels w = (Ok tt, w') ->
  exists c w2,
    w' = expired
           (set_cache (cache_remove key (metrics_cache w2)
                       ++ [{| ci_key := key;
                              ci_value := entry_of c key help m_type value
                                            labels;
                              ci_expires := now w2 + ttl config |}]) w2).
Proof.
  intros H.
  destruct (store_metric_lookup key help m_type value labels w)
    as (old & w1 & E & _). rewrite E in H. clear E.
  apply bind_ok_inv in H as (c & wa & _ & H).
  apply bind_ok_inv in H as ([] & wb & Hset & H).
  inversion H; subst w'; clear H.
  destruct (cache_setitem_ok_keeps config (fun _ => True) key
              (entry_of c key help m_type value labels) wa tt wb)
    as (w2 & _ & ->); auto.
  exists c, w2. reflexivity.
Qed.

(** X11.  After an upsert that went through, the cache gives back what was
    stored for exactly [ttl] time units: asked [d] later, the key is in the
    cache and reads as the stored entry when [d < ttl], and is gone
    ([KeyError]) from [d = ttl] on.  With a positive [ttl] the key is the
    most recently used; with [ttl] zero or less it is never found. *)
Theorem X11_stored_entry_is_found_for_ttl key help m_type value labels w w' :
  store_metric config key help m_type value labels w = (Ok tt, w') ->
  exists c,
    (0 < ttl config ->
     exists older, map ci_key (metrics_cache w') = (older ++ [key])%list)
    /\ forall d, 0 <= d ->
         fst (cache_contains key (tick d w')) = Ok (d <? ttl config)
         /\ fst (cache_getitem key (tick d w'))
            = if d <? ttl config
              then Ok {| cm_instance := c; cm_name := key; cm_help := help;
                         cm_type := m_type; cm_value := value;
                         cm_labels := labels |}
              else Raise KeyError.
Proof.
  intros H. apply store_metric_ok_inv in H as (c & w2 & ->).
  exists c.
  set (new := {| ci_key := key;
                 ci_value := entry_of c key help m_type value labels;
                 ci_expires := now w2 + ttl config |}).
  assert (Hcache : metrics_cache
                     (expired (set_cache (cache_remove key (metrics_cache w2)
                                          ++ [new]) w2))
                   = (List.filter (live (now w2))
                        (cache_remove key (metrics_cache w2))
                      ++ (if 0 <? ttl config then [new] else []))%list).
  { unfold expired; simpl. rewrite List.filter_app. simpl.
    unfold live at 2. simpl.
    destruct (Z.ltb_spec 0 (ttl config)), (Z.ltb_spec (now w2) (now w2 + ttl config));
      try lia; reflexivity. }
  assert (Hfind : cache_find key
                    (metrics_cache
                       (expired (set_cache (cache_remove key (metrics_cache w2)
                                            ++ [new]) w2)))
                  = if 0 <? ttl config then Some new else None).
  { rewrite Hcache, cache_find_app.
    pose proof (filter_live_remove_gone key (now w2) (metrics_cache w2)) as Hg.
    apply cache_find_none in Hg. rewrite Hg.
    destruct (0 <? ttl config); [|reflexivity].
    unfold cache_find; simpl. rewrite String.eqb_refl. reflexivity. }
  split.
  - intros Httl. rewrite Hcache. apply Z.ltb_lt in Httl. rewrite Httl.
    rewrite map_app. eexists; reflexivity.
  - intros d Hd. unfold cache_contains, cache_getitem.
    cbn [fst tick metrics_cache now]. rewrite Hfind.
    change (now (expired (set_cache (cache_remove key (metrics_cache w2)
                                     ++ [new]) w2))) with (now w2).
    destruct (Z.ltb_spec 0 (ttl config)) as [Hp|Hp].
    + unfold live; simpl.
      destruct (Z.ltb_spec (now w2 + d) (now w2 + ttl config)),
               (Z.ltb_spec d (ttl config)); try lia; split; reflexivity.
    + destruct (Z.ltb_spec d (ttl config)); [lia|]. split; reflexivity.
Qed.

(** ** Gauges *)

Lemma child_get_put_other lv lv' x cs :
  strings_eqb lv' lv = false ->
  child_get lv' (child_put lv x cs) = child_get lv' cs.
Proof.
  intros Hne. induction cs as [|[l y] cs IH]; simpl.
  - rewrite Hne. reflexivity.
  - destruct (strings_eqb lv l) eqn:E; simpl.
    + apply strings_eqb_eq in E. subst l. rewrite Hne. reflexivity.
    + rewrite IH. reflexivity.
Qed.

Lemma child_put_absent lv x cs :
  child_get lv cs = None -> child_put lv x cs = (cs ++ [(lv, x)])%list.
Proof.
  induction cs as [|[l y] cs IH]; simpl; [reflexivity|].
  destruct (strings_eqb lv l); [discriminate|].
  intros H. rewrite IH by exact H. reflexivity.
Qed.

Lemma child_put_app_new lv x y cs :
  child_get lv cs = None ->
  child_put lv x (cs ++ [(lv, y)]) = child_put lv x cs.
Proof.
  intros H. rewrite (child_put_absent lv x cs H).
  induction cs as [|[l z] cs IH]; simpl.
  - rewrite strings_eqb_refl. reflexivity.
  - simpl in H. destruct (strings_eqb lv l); [discriminate|].
    rewrite IH by exact H. reflexivity.
Qed.

(** [set] on a child of a gauge. *)
Lemma child_set_gauge c lv v w m x :
  heap w !! c = Some m ->
  m_class m = Gauge ->
  child_get lv (m_metrics m) = Some x ->
  child_set (c, lv) v w
  = (Ok tt,
     set_heap (<[c := with_metrics m (child_put lv v (m_metrics m))]>
                 (heap w)) w).
Proof.
  intros Hm Hc Hx. unfold child_set, bind at 1, deref; simpl. rewrite Hm, Hc.
  unfold child_write, bind, deref; simpl. rewrite Hm, Hx. reflexivity.
Qed.

(** On a cached gauge whose label names are those of the request,
    [setup_metric] sets the child of the label values, made if need be. *)
Lemma setup_gauge_old key help items v c w m :
  items <> [] ->
  binds_self items = false ->
  heap w !! c = Some m ->
  m_class m = Gauge ->
  strings_eqb (sorted (map fst items)) (sorted (m_labelnames m)) = true ->
  setup_metric (JStr "gauge") key help (JDict items) v (Some c) w
  = (Ok c,
     set_heap
       (<[c := with_metrics m
                 (child_put (label_values (m_labelnames m) items) v
                    (m_metrics m))]> (heap w)) w).
Proof.
  intros Hi Hself Hm Hc Hs.
  destruct items as [|kv items]; [congruence|].
  pose proof (sorted_nonempty _ _ _ Hs) as Hn.
  unfold setup_metric.
  assert (E : String.eqb "gauge" "gauge" = true) by reflexivity.
  rewrite E.
  unfold instance_or_new, bind at 1, ret.
  unfold bind at 1.
  rewrite (metric_labels_eq c (kv :: items) w m Hm Hself).
  destruct (m_labelnames m) as [|n names] eqn:Hnames; [congruence|].
  rewrite Hs. simpl negb. cbv iota. cbv zeta.
  remember (label_values (n :: names) (kv :: items)) as lv eqn:Hlv.
  destruct (child_get lv (m_metrics m)) as [x|] eqn:Hx.
  - unfold bind. rewrite (child_set_gauge c lv v w m x Hm Hc Hx). reflexivity.
  - set (m2 := with_metrics m (m_metrics m ++ [(lv, 0%float)])).
    set (w2 := set_heap (<[c := m2]> (heap w)) w).
    assert (Hm2 : heap w2 !! c = Some m2).
    { subst w2; simpl. apply list_lookup_insert_eq.
      apply lookup_lt_Some in Hm; exact Hm. }
    unfold bind.
    rewrite (child_set_gauge c lv v w2 m2 0%float Hm2 Hc
               (child_get_app_new _ _ _ Hx)).
    f_equal. subst w2 m2. unfold set_heap; simpl.
    rewrite list_insert_insert_eq.
    rewrite (child_put_app_new lv v 0%float (m_metrics m) Hx).
    reflexivity.
Qed.

(** One more upsert on a cached gauge, with its label names: the child of
    the label values takes the value, every other child keeps its own. *)
Lemma gauge_step key c names w d help v items :
  gauge_at config key c names w ->
  items <> [] ->
  binds_self items = false ->
  strings_eqb (sorted (map fst items)) (sorted names) = true ->
  (1 <= maxsize config)%nat ->
  0 <= d < ttl config ->
  exists w',
    store_metric config key help (JStr "gauge") v (JDict items) (tick d w)
    = (Ok tt, w')
    /\ gauge_at config key c names w'
    /\ cache_find key (metrics_cache w')
       = Some {| ci_key := key;
                 ci_value := entry_of c key help (JStr "gauge") v
                               (JDict items);
                 ci_expires := now w' + ttl config |}
    /\ exported w' c (label_values names items) = Some v
    /\ forall lv, lv <> label_values names items ->
                  exported w' c lv = exported w c lv.
Proof.
  intros (it & m & Hf & He & Hc & Hm & Hcls & Hn & Hr) Hi Hself Hs Hmax Hd.
  assert (Hl : live (now (tick d w)) it = true).
  { unfold live; simpl. apply Z.ltb_lt. lia. }
  rewrite (store_metric_present config key help _ v _ (tick d w) it Hf Hl).
  rewrite Hc. unfold bind at 1. rewrite <- Hn in Hs.
  rewrite (setup_gauge_old key help items v c
             (set_cache (cache_remove key (metrics_cache (tick d w)) ++ [it])
                (tick d w)) m Hi Hself Hm Hcls Hs).
  rewrite Hn.
  set (m' := with_metrics m _).
  set (w2 := set_heap _ _).
  apply cache_find_key in Hf as Hk. destruct Hk as [Hk _].
  destruct (store_tail config key
              (entry_of c key help (JStr "gauge") v (JDict items))
              w2 (cache_remove key (metrics_cache w)) it Hmax ltac:(lia)
              eq_refl Hl Hk)
    as (w' & Hrun & Hh & Hreg & Hnow & Hfind).
  assert (Hm' : heap w' !! c = Some m').
  { rewrite Hh. subst w2; simpl. apply list_lookup_insert_eq.
    apply lookup_lt_Some in Hm; exact Hm. }
  assert (Hr' : registered c w' = true).
  { unfold registered in *. rewrite Hreg. exact Hr. }
  exists w'; split; [exact Hrun|].
  split; [|split; [|split]].
  - exists (new_item config key
              (entry_of c key help (JStr "gauge") v (JDict items)) w2), m'.
    repeat split; auto. simpl. rewrite Hnow. reflexivity.
  - rewrite Hfind. unfold new_item. rewrite Hnow. reflexivity.
  - unfold exported. rewrite Hr', Hm'. subst m'; simpl. apply child_get_put.
  - intros lv Hlv. unfold exported. rewrite Hr', Hm', Hr.
    assert (Hmw : heap w !! c = Some m) by exact Hm.
    rewrite Hmw. subst m'; simpl. apply child_get_put_other.
    destruct (strings_eqb lv (label_values names items)) eqn:E; [|reflexivity].
    apply strings_eqb_eq in E. contradiction.
Qed.

(** The first upsert of a gauge builds it with one child, at the value. *)
Lemma setup_gauge_new key help labels v w c wa :
  setup_metric (JStr "gauge") key help labels v None w = (Ok c, wa) ->
  exists items,
    labels = JDict items /\ items <> []
    /\ c = length (heap w)
    /\ heap wa !! c
       = Some {| m_class := Gauge; m_name := key; m_documentation := help;
                 m_labelnames := map fst items;
                 m_metrics := [(label_tuple labels, v)] |}
    /\ registered c wa = true
    /\ metrics_cache wa = metrics_cache w
    /\ now wa = now w
    /\ binds_self items = false.
Proof.
  intros H.
  pose proof (setup_metric_new _ _ _ _ _ _ _ _ H)
    as (Hc & _ & (names & Hreg) & Hcache & Hnow & _).
  destruct labels as [| | | | | |items]; try discriminate.
  pose proof (setup_metric_ok_self _ _ _ _ _ _ _ _ _ H) as Hself.
  unfold setup_metric in H.
  destruct items as [|kv items]; [discriminate|].
  exists (kv :: items).
  assert (E : String.eqb "gauge" "gauge" = true) by reflexivity.
  rewrite E in H.
  apply bind_ok_inv in H as (c0 & w1 & Hnew & H).
  simpl in Hnew. apply new_metric_ok in Hnew as [-> ->].
  set (m0 := {| m_class := Gauge; m_name := key; m_documentation := help;
                m_labelnames := map fst (kv :: items); m_metrics := [] |}) in *.
  set (w1 := set_registry _ _) in *.
  assert (Hm0 : heap w1 !! length (heap w) = Some m0)
    by (subst w1; simpl; apply list_lookup_middle; reflexivity).
  assert (Hs0 : strings_eqb (sorted (map fst (kv :: items)))
                  (sorted (m_labelnames m0)) = true)
    by apply strings_eqb_refl.
  assert (Hold : setup_metric (JStr "gauge") key help (JDict (kv :: items)) v
                   (Some (length (heap w))) w1 = (Ok c, wa)).
  { unfold setup_metric. rewrite E. unfold instance_or_new.
    unfold bind at 1, ret. exact H. }
  rewrite (setup_gauge_old key help (kv :: items) v _ w1 m0
             ltac:(discriminate) Hself Hm0 eq_refl Hs0) in Hold.
  inversion Hold; subst c wa; clear Hold.
  repeat split; auto; try discriminate.
  - simpl. rewrite list_lookup_insert_eq.
    + reflexivity.
    + subst w1; simpl. rewrite length_app; simpl; lia.
  - apply registered_iff. simpl. rewrite map_app. apply in_app_iff.
    right; left; reflexivity.
Qed.

(** The upsert that creates a gauge leaves it cached and registered, its
    child at the value. *)
Lemma gauge_create key help labels v w w' :
  well_formed w ->
  0 < ttl config ->
  match cache_find key (metrics_cache w) with
  | Some it => live (now w) it
  | None => false
  end = false ->
  store_metric config key help (JStr "gauge") v labels w = (Ok tt, w') ->
  exists items,
    labels = JDict items /\ items <> []
    /\ (1 <= maxsize config)%nat
    /\ gauge_at config key (length (heap w)) (map fst items) w'
    /\ exported w' (length (heap w)) (label_tuple labels) = Some v
    /\ binds_self items = false.
Proof.
  intros [_ Hwf] Httl Hfresh H.
  pose proof (store_metric_ok_maxsize config _ _ _ _ _ _ _ _ H) as Hmax.
  apply (store_fresh_inv config) in H as (c & wa & wb & Hs & Hset & ->);
    [|exact Hfresh].
  apply setup_gauge_new in Hs
    as (items & -> & Hi & -> & Hheap & Hreg & Hcache & Hnow & Hself).
  exists items. repeat split; auto.
  all: set (c := length (heap w)) in *.
  all: set (mf := {| m_class := Gauge; m_name := key; m_documentation := help;
                     m_labelnames := map fst items;
                     m_metrics := [(label_tuple (JDict items), v)] |}) in *.
  all: set (P := fun w0 : world =>
                   heap w0 !! c = Some mf /\ registered c w0 = true
                   /\ now w0 = now w
                   /\ forall it, In it (metrics_cache w0) ->
                                 cm_instance (ci_value it) <> c).
  all: assert (HPa : P wa)
    by (repeat split; auto; rewrite Hcache; intros it Hin;
        specialize (Hwf it Hin); subst c; lia).
  all: assert (Hexp : forall w0, P w0 -> P (expired w0))
    by (intros w0 (H1 & H2 & H3 & H4); repeat split; auto;
        intros it Hin; simpl in Hin; apply filter_In in Hin as [Hin _]; auto).
  all: assert (Hpop : forall k w0 v0 w1,
                 P w0 -> Cache_pop k w0 = (Ok v0, w1) -> P w1).
  1,3: intros k w0 v0 w1 (H1 & H2 & H3 & H4) Hp;
       apply Cache_pop_ok in Hp as (it & m & Hf & _ & -> & _ & _ & ->);
       apply cache_find_key in Hf as [_ Hin];
       pose proof (H4 it Hin) as Hne;
       repeat split; simpl; auto;
       [rewrite list_lookup_insert_ne by exact Hne; exact H1
       |unfold registered in *; simpl;
        rewrite registered_filter_other by auto; exact H2
       |intros x Hx; apply cache_remove_in in Hx as [Hx _]; auto].
  all: destruct (cache_setitem_ok_keeps config P key _ wa tt wb Hexp Hpop HPa
                   Hset) as (w2 & (H1 & H2 & H3 & H4) & ->).
  - set (new := {| ci_key := key; ci_value := _; ci_expires := _ |}).
    assert (Hnew : live (now w2) new = true).
    { unfold live; simpl. apply Z.ltb_lt. lia. }
    exists new, mf. unfold expired; simpl.
    rewrite List.filter_app. simpl. rewrite Hnew.
    repeat split; auto.
    apply cache_find_last; [apply filter_live_remove_gone|reflexivity].
  - unfold exported, expired, registered in *; simpl. rewrite H2, H1.
    simpl. rewrite strings_eqb_refl. reflexivity.
Qed.

Lemma last_cons_default {A} (l : list A) (x y : A) :
  List.last (x :: l) y = List.last l x.
Proof.
  revert x y; induction l as [|z l IH]; intros x y; [reflexivity|].
  change (List.last (x :: z :: l) y) with (List.last (z :: l) y).
  rewrite (IH z y), (IH z x). reflexivity.
Qed.

Lemma gauge_run key c items steps w :
  gauge_at config key c (map fst items) w ->
  items <> [] ->
  binds_self items = false ->
  (1 <= maxsize config)%nat ->
  Forall (fun s => 0 <= fst (fst s) < ttl config) steps ->
  forall v0,
    exported w c (label_tuple (JDict items)) = Some v0 ->
    exists wN,
      gauge_upserts config key (JDict items) steps w = (Ok tt, wN)
      /\ gauge_at config key c (map fst items) wN
      /\ exported wN c (label_tuple (JDict items))
         = Some (List.last (map snd steps) v0).
Proof.
  intros Hat Hi Hself Hmax Hsteps. revert w Hat.
  induction Hsteps as [|[[d help] v] steps Hd _ IH]; intros w Hat v0 Hv0.
  - exists w; repeat split; auto.
  - simpl in Hd.
    destruct (gauge_step key c (map fst items) w d help v items Hat Hi Hself
                (strings_eqb_refl _) Hmax Hd)
      as (w' & Hrun & Hat' & _ & Hex & _).
    destruct (IH _ Hat' v Hex) as (wN & HrunN & HatN & HexN).
    exists wN. split; [simpl; rewrite Hrun; exact HrunN|].
    split; [exact HatN|].
    rewrite HexN. f_equal. simpl map. symmetry. apply last_cons_default.
Qed.

(** X8.  From any world the server can reach, let an upsert create a gauge
    under a key the cache does not hold, and let further upserts to the key
    follow with the same labels, each before the entry could expire.  They
    all succeed, and the gauge, still cached under the key, exports for its
    labels the value posted last. *)
Theorem X8_gauge_exports_last_value evs t0 key help labels v steps w1 :
  0 < ttl config ->
  fst (cache_contains key (run config evs (init_world t0))) = Ok false ->
  store_metric config key help (JStr "gauge") v labels
    (run config evs (init_world t0)) = (Ok tt, w1) ->
  Forall (fun s => 0 <= fst (fst s) < ttl config) steps ->
  exists wN it,
    gauge_upserts config key labels steps w1 = (Ok tt, wN)
    /\ cache_find key (metrics_cache wN) = Some it
    /\ cm_instance (ci_value it)
       = length (heap (run config evs (init_world t0)))
    /\ exported wN (cm_instance (ci_value it)) (label_tuple labels)
       = Some (List.last (map snd steps) v).
Proof.
  intros Httl Hfresh Hfirst Hsteps.
  set (w0 := run config evs (init_world t0)) in *.
  assert (Hwf : well_formed w0) by (apply wf_run, wf_init).
  assert (Hfresh' : match cache_find key (metrics_cache w0) with
                    | Some it => live (now w0) it
                    | None => false
                    end = false).
  { unfold cache_contains in Hfresh. simpl in Hfresh. congruence. }
  destruct (gauge_create key help labels v w0 w1 Hwf Httl Hfresh' Hfirst)
    as (items & -> & Hi & Hmax & Hat & Hex & Hself).
  destruct (gauge_run key _ items steps w1 Hat Hi Hself Hmax Hsteps v Hex)
    as (wN & Hrun & HatN & HexN).
  pose proof HatN as (it & m & Hf & _ & Hc & _).
  exists wN, it. rewrite Hc. repeat split; auto.
Qed.

(** X9.  The label values select the child.  Two upserts on a cached
    gauge (none of whose label names is [self], as for every gauge the
    handler has cached) that give its label names different values both
    succeed and leave two series: each child exports the value posted for
    its label values, while the cache entry holds the value and labels of
    the second upsert only. *)
Theorem X9_one_series_per_label_values key c names w
  d1 d2 help1 help2 v1 v2 items1 items2 :
  gauge_at config key c names w ->
  ~ In "self" names ->
  items1 <> [] -> items2 <> [] ->
  strings_eqb (sorted (map fst items1)) (sorted names) = true ->
  strings_eqb (sorted (map fst items2)) (sorted names) = true ->
  label_values names items1 <> label_values names items2 ->
  (1 <= maxsize config)%nat ->
  0 <= d1 < ttl config -> 0 <= d2 < ttl config ->
  exists w1 w2,
    store_metric config key help1 (JStr "gauge") v1 (JDict items1) (tick d1 w)
    = (Ok tt, w1)
    /\ store_metric config key help2 (JStr "gauge") v2 (JDict items2)
         (tick d2 w1) = (Ok tt, w2)
    /\ exported w2 c (label_values names items1) = Some v1
    /\ exported w2 c (label_values names items2) = Some v2
    /\ exists it, cache_find key (metrics_cache w2) = Some it
                  /\ cm_value (ci_value it) = v2
                  /\ cm_labels (ci_value it) = JDict items2.
Proof.
  intros Hat Hplain Hi1 Hi2 Hs1 Hs2 Hne Hmax Hd1 Hd2.
  destruct (gauge_step key c names w d1 help1 v1 items1 Hat Hi1
              (names_no_self _ _ Hs1 Hplain) Hs1 Hmax Hd1)
    as (w1 & Hrun1 & Hat1 & _ & Hex1 & _).
  destruct (gauge_step key c names w1 d2 help2 v2 items2 Hat1 Hi2
              (names_no_self _ _ Hs2 Hplain) Hs2 Hmax Hd2)
    as (w2 & Hrun2 & _ & Hfind & Hex2 & Hother).
  exists w1, w2. repeat split; auto.
  - rewrite (Hother _ Hne). exact Hex1.
  - eexists; split; [exact Hfind|]. split; reflexivity.
Qed.


(** ** Room is always made *)

Lemma set_cache_same w : set_cache (metrics_cache w) w = w.
Proof. destruct w; reflexivity. Qed.

Lemma all_live_filter w :
  all_live w -> List.filter (live (now w)) (metrics_cache w) = metrics_cache w.
Proof.
  intros H. apply filter_all_live. intros it Hin.
  apply Z.ltb_lt. apply (H it Hin).
Qed.

Lemma all_live_expired w : all_live (expired w).
Proof.
  intros it Hin. simpl in *. apply filter_In in Hin as [_ Hl]. exact Hl.
Qed.

Lemma cache_remove_head (it : cache_item) (rest : list cache_item) :
  ~ In (ci_key it) (map ci_key rest) ->
  cache_remove (ci_key it) (it :: rest) = rest.
Proof.
  intros H. unfold cache_remove. simpl. rewrite String.eqb_refl. simpl.
  apply (cache_remove_absent (ci_key it) rest H).
Qed.

(** In a consistent cache without expired items, [popitem] returns: it
    takes out the least recently used item. *)
Lemma cache_popitem_consistent cs w it rest :
  consistent w -> aside cs w -> all_live w ->
  metrics_cache w = it :: rest ->
  exists w',
    cache_popitem w = (Ok (ci_key it, ci_value it), w')
    /\ consistent w' /\ aside cs w' /\ all_live w'
    /\ metrics_cache w' = rest.
Proof.
  intros Hw Ha Hl Hc.
  assert (Hin : In it (metrics_cache w)) by (rewrite Hc; left; reflexivity).
  assert (Hf : cache_find (ci_key it) (metrics_cache w) = Some it).
  { rewrite Hc. unfold cache_find; simpl. rewrite String.eqb_refl.
    reflexivity. }
  destruct Hw as [[Hk Hh] [Hn Hr]].
  destruct (lookup_lt_is_Some_2 (heap w) (instance_of it) (Hh it Hin))
    as [m Hm].
  pose proof (Cache_pop_live (ci_key it) w it m Hf (Hl it Hin) Hm (Hr it Hin))
    as Hpop.
  pose proof (consistent_Cache_pop cs (ci_key it) w
                (conj (conj (conj Hk Hh) (conj Hn Hr)) Ha)) as Hkeep.
  rewrite Hpop in Hkeep. simpl in Hkeep. destruct Hkeep as [Hw' Ha'].
  eexists. split; [|split; [exact Hw'|split; [exact Ha'|split]]].
  - unfold cache_popitem, bind at 1, cache_expire.
    rewrite (all_live_filter w Hl), set_cache_same.
    unfold bind at 1. rewrite Hc. unfold bind. rewrite <- Hc, Hpop.
    reflexivity.
  - intros x Hx. simpl in Hx. apply cache_remove_in in Hx as [Hx _].
    apply (Hl x Hx).
  - simpl. rewrite Hc. apply cache_remove_head.
    rewrite Hc in Hk. simpl in Hk. apply List.NoDup_cons_iff in Hk as [Hk _].
    exact Hk.
Qed.

(** The eviction loop of [__setitem__] never raises on a consistent cache
    that was just expired. *)
Lemma evict_loop_consistent cs fuel w :
  (1 <= maxsize config)%nat ->
  consistent w -> aside cs w -> all_live w ->
  (length (metrics_cache w) <= fuel)%nat ->
  exists w',
    evict_loop config fuel w = (Ok tt, w')
    /\ consistent w' /\ aside cs w' /\ now w' = now w.
Proof.
  intros Hmax. revert w. induction fuel as [|fuel IH];
    intros w Hw Ha Hl Hlen; simpl.
  - destruct (Nat.leb_spec (length (metrics_cache w) + 1) (maxsize config));
      [|lia].
    exists w; split; [reflexivity|auto].
  - destruct (Nat.leb_spec (length (metrics_cache w) + 1) (maxsize config)).
    + exists w; split; [reflexivity|auto].
    + destruct (metrics_cache w) as [|it rest] eqn:Hc; [simpl in *; lia|].
      destruct (cache_popitem_consistent cs w it rest Hw Ha Hl Hc)
        as (w1 & Hpop & Hw1 & Ha1 & Hl1 & Hc1).
      assert (Hnow : now w1 = now w).
      { apply cache_popitem_ok in Hpop as (? & ? & _ & _ & Hp).
        apply Cache_pop_ok in Hp as (? & ? & _ & _ & _ & _ & _ & ->).
        reflexivity. }
      destruct (IH w1 Hw1 Ha1 Hl1) as (w' & Hloop & Hw' & Ha' & Hn').
      { rewrite Hc1. simpl in Hlen. lia. }
      exists w'. unfold bind. rewrite Hpop. cbn beta iota.
      split; [exact Hloop|]. split; [exact Hw'|].
      split; [exact Ha'|congruence].
Qed.

Lemma cache_setitem_consistent key value w :
  (1 <= maxsize config)%nat ->
  consistent w -> owned (cm_instance value) key w ->
  exists w', cache_setitem config key value w = (Ok tt, w').
Proof.
  intros Hmax Hw Ho.
  unfold cache_setitem, bind at 1, cache_expire. fold (expired w).
  destruct (Nat.ltb_spec (maxsize config) 1); [lia|].
  assert (Hw1 : consistent (expired w)) by (apply (consistent_expire w Hw)).
  unfold bind.
  destruct (cache_find key (metrics_cache (expired w))) eqn:Hf;
    [eexists; reflexivity|].
  assert (Ha : aside [cm_instance value] (expired w)).
  { destruct Ho as (H1 & H2 & H3). intros c' [<-|[]]. repeat split; auto.
    intros it Hin Hc. apply cache_find_none in Hf. apply Hf.
    simpl in Hin. apply filter_In in Hin as [Hin Hl].
    rewrite <- (H3 it Hin Hc). apply in_map. simpl.
    apply filter_In; split; assumption. }
  destruct (evict_loop_consistent [cm_instance value]
              (length (metrics_cache (expired w))) (expired w) Hmax Hw1 Ha
              (all_live_expired w) (Nat.le_refl _))
    as (w' & Hloop & _).
  rewrite Hloop. eexists; reflexivity.
Qed.

(** X12.  Room is always made.  In any world the server can reach, with
    [maxsize] at least 1, storing never fails in the cache: when lines
    210-230 raise, the exception and the state are those [setup_metric]
    raised with, after the lookup of lines 212-214.  The evictions of a full
    cache always go through. *)
Theorem X12_a_store_fails_in_setup_metric_only
  evs t0 key help m_type value labels e w' :
  (1 <= maxsize config)%nat ->
  store_metric config key help m_type value labels
    (run config evs (init_world t0)) = (Raise e, w') ->
  exists old w1,
    setup_metric m_type key help labels value old w1 = (Raise e, w')
    /\ heap w1 = heap (run config evs (init_world t0))
    /\ registry w1 = registry (run config evs (init_world t0))
    /\ now w1 = now (run config evs (init_world t0))
    /\ forall k, cache_find k (metrics_cache w1)
                 = cache_find k (metrics_cache
                                   (run config evs (init_world t0))).
Proof.
  intros Hmax H.
  destruct (store_metric_lookup_consistent key help m_type value labels
              (run config evs (init_world t0)) (consistent_reachable evs t0))
    as (old & w1 & E & Hh & Hr & Hn & Hc & Hw1).
  rewrite E in H. clear E.
  exists old, w1. split; [|auto].
  unfold bind at 1 in H.
  pose proof (consistent_setup_metric key m_type help labels value old w1 Hw1)
    as Hs.
  destruct (setup_metric m_type key help labels value old w1)
    as [[c|e1] w2]; [|inversion H; reflexivity].
  exfalso. destruct Hs as [Hw2 Ho].
  destruct (cache_setitem_consistent key
              (entry_of c key help m_type value labels) w2 Hmax Hw2 Ho)
    as (w3 & Hset).
  unfold bind in H. rewrite Hset in H. discriminate.
Qed.

(** ** A name that is taken *)

Lemma setup_metric_class t name help items value w :
  items <> [] ->
  setup_metric (JStr t) name help (JDict items) value None w
  = match class_of t with
    | None => (Raise ValueError, w)
    | Some cls =>
        (do* c := new_metric cls name help (map fst items) in
         do* ch := metric_labels c items in
         match cls with
         | Gauge => child_set ch value
         | Counter => child_inc ch value
         | Info => child_info ch value
         end ;;
         ret c) w
    end.
Proof.
  intros Hi. destruct items as [|kv items]; [congruence|].
  unfold setup_metric, class_of.
  destruct (String.eqb t "gauge"); [reflexivity|].
  destruct (String.eqb t "counter"); [reflexivity|].
  destruct (String.eqb t "info"); reflexivity.
Qed.

Lemma taken_name_raises
  key help t cls items value w n :
  fst (cache_contains key w) = Ok false ->
  class_of t = Some cls ->
  items <> [] ->
  In n (metric_names cls key) ->
  In n (registered_names w) ->
  exists w',
    store_metric config key help (JStr t) value (JDict items) w
    = (Raise ValueError, w')
    /\ registry w' = registry w
    /\ metrics_cache w' = metrics_cache w.
Proof.
  intros Hc Hcls Hi Hn Hreg.
  rewrite store_metric_fresh.
  2: { unfold cache_contains in Hc. simpl in Hc. congruence. }
  unfold bind at 1. rewrite (setup_metric_class t key help items value w Hi).
  rewrite Hcls. unfold bind at 1, new_metric.
  destruct (negb (valid_metric cls key (map fst items)));
    [exists w; auto|].
  unfold bind at 1, registry_register.
  assert (Hdup : existsb
                   (fun n0 => existsb (String.eqb n0)
                                (registered_names
                                   (set_heap
                                      (heap w ++
                                       [{| m_class := cls; m_name := key;
                                           m_documentation := help;
                                           m_labelnames := map fst items;
                                           m_metrics := [] |}]) w)))
                   (metric_names cls key) = true).
  { apply existsb_exists. exists n; split; [exact Hn|].
    apply existsb_exists. exists n; split; [exact Hreg|apply String.eqb_refl]. }
  rewrite Hdup. eexists; repeat split; reflexivity.
Qed.

(** X10.  A create whose metric would claim a time series name the
    registry already holds raises [ValueError]: the constructor refuses a
    duplicate (or the name itself), nothing is registered and nothing is
    stored in the cache. *)
Theorem X10_taken_name_refuses_the_create
  key help t cls items value w n :
  fst (cache_contains key w) = Ok false ->
  class_of t = Some cls ->
  items <> [] ->
  In n (metric_names cls key) ->
  In n (registered_names w) ->
  exists w',
    store_metric config key help (JStr t) value (JDict items) w
    = (Raise ValueError, w')
    /\ registry w' = registry w
    /\ metrics_cache w' = metrics_cache w.
Proof.
  intros Hc Hcls Hi Hn Hreg.
  destruct (taken_name_raises key help t cls items value w n Hc Hcls Hi Hn Hreg)
    as (w' & H & Hr & Hm).
  exists w'. split; [exact H|]. split; [exact Hr|exact Hm].
Qed.


(** ** The victim of an eviction *)

(** X17.  In any world the server can reach, let a key the cache does not
    hold be stored while the entries that have not expired fill the cache.
    When the store goes through, the entry read or written least recently is
    the one that went: it is out of the cache and its metric out of the
    registry, the other entries stay, in their order and registered, and the
    new entry, registered, comes last. *)
Theorem X17_full_cache_evicts_the_least_recently_used
  evs t0 key help m_type value labels w' :
  0 < ttl config ->
  fst (cache_contains key (run config evs (init_world t0))) = Ok false ->
  length (List.filter (live (now (run config evs (init_world t0))))
            (metrics_cache (run config evs (init_world t0))))
  = maxsize config ->
  store_metric config key help m_type value labels
    (run config evs (init_world t0)) = (Ok tt, w') ->
  exists it rest,
    List.filter (live (now (run config evs (init_world t0))))
      (metrics_cache (run config evs (init_world t0))) = it :: rest
    /\ metrics_cache w'
       = (rest ++
          [{| ci_key := key;
              ci_value := entry_of
                            (length (heap (run config evs (init_world t0))))
                            key help m_type value labels;
              ci_expires := now (run config evs (init_world t0))
                            + ttl config |}])%list
    /\ registered (instance_of it) w' = false
    /\ (forall x, In x rest -> registered (instance_of x) w' = true)
    /\ registered (length (heap (run config evs (init_world t0)))) w' = true.
Proof.
  intros Httl Hfresh Hfull H.
  set (w := run config evs (init_world t0)) in *.
  destruct (consistent_reachable evs t0) as [[Hk Hh] [Hn Hr]].
  fold w in Hk, Hh, Hn, Hr.
  assert (Hfresh' : match cache_find key (metrics_cache w) with
                    | Some it => live (now w) it
                    | None => false
                    end = false).
  { unfold cache_contains in Hfresh. simpl in Hfresh. congruence. }
  pose proof (not_contained_no_live key w Hk Hfresh') as Hnone.
  apply (store_fresh_inv config) in H as (c & wa & wb & Hs & Hset & ->);
    [|exact Hfresh'].
  apply setup_metric_new in Hs
    as (-> & Hlen & (names & Hreg) & Hcache & Hnow & _).
  apply (cache_setitem_full_ok config) in Hset
    as (it & rest & v & w1 & Hcons & Hpop & ->).
  2: { rewrite Hcache, Hnow. exact Hnone. }
  2: { rewrite Hcache, Hnow. exact Hfull. }
  rewrite Hcache, Hnow in Hcons.
  assert (Hkeys : List.NoDup (map ci_key (it :: rest))).
  { rewrite <- Hcons. apply NoDup_keys_live, Hk. }
  assert (Hinst : List.NoDup (map instance_of (it :: rest))).
  { rewrite <- Hcons. apply NoDup_map_filter, Hn. }
  assert (Hsub : forall x, In x (it :: rest) ->
                           In x (metrics_cache w) /\ live (now w) x = true).
  { intros x Hx. rewrite <- Hcons in Hx. apply filter_In in Hx. exact Hx. }
  apply Cache_pop_ok in Hpop as (it' & m & Hf' & _ & -> & _ & _ & ->).
  simpl in Hf'. rewrite Hcache, Hnow, Hcons in Hf'.
  unfold cache_find in Hf'. simpl in Hf'. rewrite String.eqb_refl in Hf'.
  injection Hf' as <-.
  exists it, rest. split; [exact Hcons|].
  assert (Hrest : cache_remove key (cache_remove (ci_key it) (it :: rest))
                  = rest).
  { rewrite cache_remove_head.
    - apply cache_remove_absent. rewrite Hcons in Hnone.
      apply cache_find_none in Hnone. simpl in Hnone. tauto.
    - simpl in Hkeys. apply List.NoDup_cons_iff in Hkeys as [Hk1 _].
      exact Hk1. }
  split; [|split; [|split]].
  - unfold expired. simpl. rewrite Hcache, Hnow, Hcons, Hrest.
    rewrite List.filter_app. simpl.
    rewrite filter_all_live.
    2: { intros x Hx. apply Z.ltb_lt. apply (Hsub x). right; exact Hx. }
    unfold live at 1, new_item; simpl. rewrite Hnow.
    replace (now w <? now w + ttl config) with true
      by (symmetry; apply Z.ltb_lt; lia).
    reflexivity.
  - unfold registered. simpl. apply registered_filter_out.
  - intros x Hx. unfold registered. simpl.
    rewrite registered_filter_other.
    + rewrite Hreg, existsb_app.
      assert (Hrx : registered (instance_of x) w = true).
      { apply Hr, (Hsub x). right; exact Hx. }
      unfold registered in Hrx. rewrite Hrx. reflexivity.
    + intros Heq. simpl in Hinst.
      apply List.NoDup_cons_iff in Hinst as [Hi1 _]. apply Hi1.
      change (instance_of x = instance_of it) in Heq.
      rewrite <- Heq. apply (in_map instance_of), Hx.
  - unfold registered. simpl. rewrite registered_filter_other.
    + rewrite Hreg, existsb_app. simpl. rewrite Nat.eqb_refl.
      rewrite orb_true_r. reflexivity.
    + pose proof (Hh it (proj1 (Hsub it (or_introl eq_refl)))) as Hlt.
      lia.
Qed.


(** ** Names *)

Lemma named_with_heap extra w h :
  (forall i m, heap w !! i = Some m ->
     exists m', h !! i = Some m'
                /\ m_class m' = m_class m /\ m_name m' = m_name m) ->
  named_with extra w -> named_with extra (set_heap h w).
Proof.
  intros Hh [(Ha & Hc & Hd) He].
  assert (Hfor : forall c key, named_for c key w ->
                               named_for c key (set_heap h w)).
  { intros c key (m & Hm & Hn). destruct (Hh c m Hm) as (m' & Hm' & _ & Hn').
    exists m'; split; [exact Hm'|congruence]. }
  split; [split; [|split]|].
  - intros i ns Hin. destruct (Ha i ns Hin) as (m & Hm & ->).
    destruct (Hh i m Hm) as (m' & Hm' & Hc' & Hn').
    exists m'; split; [exact Hm'|]. rewrite Hc', Hn'. reflexivity.
  - exact Hc.
  - intros it Hin. apply Hfor, Hd, Hin.
  - intros c key Hin. apply Hfor, He, Hin.
Qed.

Lemma named_with_assign extra w c m m' :
  heap w !! c = Some m ->
  m_class m' = m_class m -> m_name m' = m_name m ->
  named_with extra w ->
  named_with extra (set_heap (<[c := m']> (heap w)) w).
Proof.
  intros Hm Hc Hn. apply named_with_heap. intros i m0 Hi.
  destruct (Nat.eq_dec i c) as [->|Hne].
  - exists m'. split; [|split; congruence].
    apply list_lookup_insert_eq. apply lookup_lt_Some in Hm; exact Hm.
  - exists m0. split; [|split; reflexivity].
    rewrite list_lookup_insert_ne by auto. exact Hi.
Qed.

Lemma named_with_cache extra w (c : list cache_item) :
  (forall it, In it c -> In it (metrics_cache w)) ->
  named_with extra w -> named_with extra (set_cache c w).
Proof.
  intros Hsub [(Ha & Hc & Hd) He].
  split; [split; [exact Ha|split; [exact Hc|]]|exact He].
  intros it Hin. apply (Hd it (Hsub it Hin)).
Qed.

Lemma keeps_named_metric_labels extra c items :
  keeps (named_with extra) (metric_labels c items).
Proof.
  intros w H. unfold metric_labels, bind, deref, assign, raise, ret.
  destruct (heap w !! c) as [m|] eqn:Hm; [|exact H].
  destruct (binds_self items); [exact H|].
  destruct (m_labelnames m); [exact H|].
  destruct (negb _); [exact H|].
  destruct (child_get _ _); [exact H|].
  simpl. apply (named_with_assign extra w c m); auto.
Qed.

Lemma keeps_named_child_write extra ch f :
  keeps (named_with extra) (child_write ch f).
Proof.
  intros w H. unfold child_write, bind, deref, assign, raise.
  destruct (heap w !! fst ch) as [m|] eqn:Hm; [|exact H].
  destruct (child_get _ _); [|exact H].
  simpl. apply (named_with_assign extra w (fst ch) m); auto.
Qed.

Lemma keeps_named_child_set extra ch v :
  keeps (named_with extra) (child_set ch v).
Proof.
  unfold child_set. apply keeps_bind; [apply keeps_deref|intros m].
  destruct (m_class m); try apply keeps_raise.
  apply keeps_named_child_write.
Qed.

Lemma keeps_named_child_inc extra ch v :
  keeps (named_with extra) (child_inc ch v).
Proof.
  unfold child_inc. apply keeps_bind; [apply keeps_deref|intros m].
  destruct (m_class m); try apply keeps_raise.
  - apply keeps_named_child_write.
  - destruct (PrimFloat.ltb v 0); [apply keeps_raise|].
    apply keeps_named_child_write.
Qed.

Lemma keeps_named_metric_clear extra i :
  keeps (named_with extra) (metric_clear i).
Proof.
  intros w H. unfold metric_clear, bind, deref, assign.
  destruct (heap w !! i) as [m|] eqn:Hm; [|exact H].
  simpl. apply (named_with_assign extra w i m); auto.
Qed.

Lemma keeps_named_unregister extra i :
  keeps (named_with extra) (registry_unregister i).
Proof.
  intros w [(Ha & Hc & Hd) He]. unfold registry_unregister.
  destruct (registered i w); simpl; [|repeat split; assumption].
  split; [split; [|split]|exact He]; simpl.
  - intros j ns Hin. apply filter_In in Hin as [Hin _]. apply (Ha j ns Hin).
  - intros j ns j' ms n H1 H2. apply filter_In in H1 as [H1 _].
    apply filter_In in H2 as [H2 _]. apply (Hc j ns j' ms n H1 H2).
  - exact Hd.
Qed.

Lemma registered_names_in w n :
  In n (registered_names w) <->
  exists i ns, In (i, ns) (registry w) /\ In n ns.
Proof.
  unfold registered_names. rewrite in_concat. split.
  - intros (ns & Hns & Hn). apply in_map_iff in Hns as ([i ns'] & <- & Hin).
    exists i, ns'; auto.
  - intros (i & ns & Hin & Hn). exists ns; split; [|exact Hn].
    apply in_map_iff. exists (i, ns); auto.
Qed.

(** What a constructor that returns has done. *)
Lemma new_metric_named extra cls name help labelnames :
  ends (named_with extra) (new_metric cls name help labelnames)
    (fun c w => named_with ((c, name) :: extra) w
                /\ exists m, heap w !! c = Some m /\ m_class m = cls
                             /\ m_labelnames m = labelnames
                             /\ m_metrics m = [])
    (named_with extra).
Proof.
  intros w H. unfold new_metric.
  destruct (negb _); [exact H|].
  set (m := {| m_class := cls; m_name := name; m_documentation := help;
               m_labelnames := labelnames; m_metrics := [] |}).
  assert (H1 : named_with extra (set_heap (heap w ++ [m]) w)).
  { apply named_with_heap; [|exact H]. intros i m0 Hi.
    exists m0; split; [|split; reflexivity].
    apply lookup_app_l_Some, Hi. }
  unfold bind, registry_register, ret.
  destruct (existsb _ (metric_names cls name)) eqn:Hdup; [exact H1|].
  assert (Hm : (heap w ++ [m])%list !! length (heap w) = Some m)
    by (apply list_lookup_middle; reflexivity).
  destruct H1 as [(Ha & Hc & Hd) He]. simpl in *.
  split; [split; [split; [|split]|]|].
  - intros i ns Hin. simpl in Hin. apply in_app_iff in Hin as [Hin|[Hin|[]]].
    + apply (Ha i ns Hin).
    + injection Hin as <- <-. exists m; split; [exact Hm|reflexivity].
  - assert (Hfresh : forall j ms n, In (j, ms) (registry w) -> In n ms ->
                                    In n (metric_names cls name) -> False).
    { intros j ms n Hin Hn Hn'.
      assert (Ht : existsb
                     (fun n0 => existsb (String.eqb n0)
                                  (registered_names
                                     (set_heap (heap w ++ [m]) w)))
                     (metric_names cls name) = true).
      { apply existsb_exists. exists n; split; [exact Hn'|].
        apply existsb_exists. exists n; split; [|apply String.eqb_refl].
        apply registered_names_in. exists j, ms; auto. }
      congruence. }
    intros i ns j ms n H1 H2 Hn1 Hn2. simpl in H1, H2.
    apply in_app_iff in H1 as [H1|[H1|[]]];
      apply in_app_iff in H2 as [H2|[H2|[]]].
    + apply (Hc i ns j ms n H1 H2 Hn1 Hn2).
    + injection H2 as <- <-. exfalso. apply (Hfresh i ns n H1 Hn1 Hn2).
    + injection H1 as <- <-. exfalso. apply (Hfresh j ms n H2 Hn2 Hn1).
    + injection H1 as <- <-. injection H2 as <- <-. reflexivity.
  - exact Hd.
  - intros c key [Hin|Hin]; [|apply (He c key Hin)].
    injection Hin as <- <-. exists m; split; [exact Hm|reflexivity].
  - exists m; repeat split; auto.
Qed.

Lemma keeps_named_new_metric extra cls name help labelnames :
  keeps (named_with extra) (new_metric cls name help labelnames).
Proof.
  apply ends_keeps.
  apply (ends_weaken _ _ _ _ _ _ _
           (new_metric_named extra cls name help labelnames)).
  - intros w H; exact H.
  - intros c w [[Hn He] _]. split; [exact Hn|].
    intros c' key Hin. apply He. right; exact Hin.
  - intros w H; exact H.
Qed.

Lemma keeps_named_setup_metric extra m_type name help labels value old :
  keeps (named_with extra)
    (setup_metric m_type name help labels value old).
Proof.
  unfold setup_metric.
  assert (Hi : forall cls keys,
            keeps (named_with extra) (instance_or_new old cls name help keys)).
  { intros cls keys. destruct old; simpl; [apply keeps_ret|].
    apply keeps_named_new_metric. }
  destruct m_type; try apply keeps_raise.
  destruct labels as [| | | | | |items]; try apply keeps_raise.
  destruct items as [|kv items]; [apply keeps_raise|].
  repeat match goal with
         | |- keeps _ (if ?b then _ else _) => destruct b
         end; try apply keeps_raise;
    (apply keeps_bind; [apply Hi|intros c];
     apply keeps_bind; [apply keeps_named_metric_labels|intros ch];
     apply keeps_bind; [|intros; apply keeps_ret]).
  - apply keeps_named_child_set.
  - apply keeps_named_child_inc.
  - apply keeps_raise.
Qed.

Lemma keeps_named_expire extra : keeps (named_with extra) cache_expire.
Proof.
  intros w H. simpl. apply named_with_cache; [|exact H].
  intros it Hin. apply filter_In in Hin as [Hin _]. exact Hin.
Qed.

Lemma keeps_named_Cache_pop extra key :
  keeps (named_with extra) (Cache_pop key).
Proof.
  intros w H. pose proof (Cache_pop_cases key w) as E.
  destruct (cache_find key (metrics_cache w)) as [it|] eqn:Hf;
    [|rewrite E; exact H].
  destruct (live (now w) it); [|rewrite E; exact H].
  rewrite E. clear E.
  assert (H1 : named_with extra
                 (set_cache (cache_remove key (metrics_cache w)) w)).
  { apply named_with_cache; [|exact H].
    intros x Hx. apply cache_remove_in in Hx as [Hx _]. exact Hx. }
  revert H1. generalize (set_cache (cache_remove key (metrics_cache w)) w).
  apply keeps_bind; [apply keeps_named_metric_clear|intros _].
  apply keeps_bind; [apply keeps_named_unregister|intros; apply keeps_ret].
Qed.

(** Storing an object that has the name of the key keeps the names. *)
Lemma named_setitem extra key value :
  ends (named_with ((cm_instance value, key) :: extra))
    (cache_setitem config key value)
    (fun _ => named_with extra) (named_with extra).
Proof.
  set (N := named_with ((cm_instance value, key) :: extra)).
  assert (Hweak : forall w, N w -> named_with extra w).
  { intros w [Hn He]. split; [exact Hn|].
    intros c k Hin. apply He. right; exact Hin. }
  assert (HNl : forall fuel, keeps N (evict_loop config fuel)).
  { intros fuel. apply keeps_evict_loop, keeps_popitem.
    - apply keeps_named_expire.
    - intros k. apply keeps_named_Cache_pop. }
  intros w Hw. unfold cache_setitem, bind.
  pose proof (keeps_named_expire _ w Hw) as He.
  destruct (cache_expire w) as [[u|e] w1]; simpl in He; [|apply Hweak, He].
  destruct (_ <? 1)%nat; [apply Hweak, He|].
  assert (Hroom : match (match cache_find key (metrics_cache w1) with
                         | Some _ => (Ok tt, w1)
                         | None => evict_loop config
                                     (length (metrics_cache w1)) w1
                         end) with
                  | (_, w2) => N w2
                  end).
  { destruct (cache_find key (metrics_cache w1)); [exact He|].
    specialize (HNl (length (metrics_cache w1)) w1 He).
    destruct (evict_loop config _ w1) as [r w2]; exact HNl. }
  destruct (match cache_find key (metrics_cache w1) with
            | Some _ => _ | None => _ end) as [[u2|e2] w2];
    [|apply Hweak, Hroom].
  destruct Hroom as [(Ha & Hc & Hd) Hx].
  split; [split; [exact Ha|split; [exact Hc|]]|].
  - intros it Hin. simpl in Hin. apply in_app_iff in Hin as [Hin|[<-|[]]].
    + apply cache_remove_in in Hin as [Hin _]. apply (Hd it Hin).
    + apply (Hx (cm_instance value) key). left; reflexivity.
  - intros c k Hin. apply (Hx c k). right; exact Hin.
Qed.

Lemma keeps_ends_weak {A} (P E : world -> Prop) (m : M A) :
  keeps P m -> (forall w, P w -> E w) -> ends P m (fun _ => P) E.
Proof.
  intros H HE w Hw. specialize (H w Hw).
  destruct (m w) as [[a|e] w1]; simpl in H; auto.
Qed.

Lemma named_with_tail c key extra w :
  named_with ((c, key) :: extra) w -> named_with extra w.
Proof.
  intros [Hn He]. split; [exact Hn|].
  intros c' k Hin. apply He. right; exact Hin.
Qed.

Lemma named_setup_metric extra key m_type help labels value old :
  ends (fun w => named_with extra w
                 /\ forall c0, old = Some c0 -> named_for c0 key w)
    (setup_metric m_type key help labels value old)
    (fun c w => named_with ((c, key) :: extra) w) (named_with extra).
Proof.
  destruct old as [c0|].
  - intros w [Hw Hold].
    assert (Hw0 : named_with ((c0, key) :: extra) w).
    { destruct Hw as [Hn He]. split; [exact Hn|].
      intros c k [Hin|Hin]; [|apply (He c k Hin)].
      injection Hin as <- <-. apply Hold. reflexivity. }
    pose proof (keeps_named_setup_metric _ m_type key help labels value
                  (Some c0) w Hw0) as Hk.
    destruct (setup_metric m_type key help labels value (Some c0) w)
      as [[c|e] w'] eqn:Hs; simpl in Hk;
      [|apply (named_with_tail c0 key), Hk].
    apply setup_metric_old in Hs as [-> _]. exact Hk.
  - intros w [Hw _]. revert w Hw.
    change (ends (named_with extra)
              (setup_metric m_type key help labels value None)
              (fun c w => named_with ((c, key) :: extra) w)
              (named_with extra)).
    assert (Hnew : forall cls keys,
              ends (named_with extra) (new_metric cls key help keys)
                (fun c w => named_with ((c, key) :: extra) w)
                (named_with extra)).
    { intros cls keys w Hw.
      pose proof (new_metric_named extra cls key help keys w Hw) as Hn.
      destruct (new_metric cls key help keys w) as [[c|e] w1];
        [apply Hn|exact Hn]. }
    unfold setup_metric.
    destruct m_type; try (apply ends_raise; auto).
    destruct labels as [| | | | | |items]; try (apply ends_raise; auto).
    destruct items as [|kv items]; [apply ends_raise; auto|].
    repeat match goal with
           | |- ends _ (if ?b then _ else _) _ _ => destruct b
           end; try (apply ends_raise; auto);
      (simpl instance_or_new;
       eapply ends_bind; [apply Hnew|intros c];
       eapply ends_bind;
         [apply keeps_ends_weak;
            [apply keeps_named_metric_labels|apply named_with_tail]
         |intros ch];
       eapply ends_bind;
         [apply keeps_ends_weak; [|apply named_with_tail]
         |intros; apply ends_ret; auto]).
    + apply keeps_named_child_set.
    + apply keeps_named_child_inc.
    + apply keeps_raise.
Qed.

Lemma keeps_named_store_metric key help m_type value labels :
  keeps (named_with []) (store_metric config key help m_type value labels).
Proof.
  intros w Hw.
  destruct (store_metric_lookup key help m_type value labels w)
    as (old & w1 & -> & Hh & Hr & Hn & Hc & Hold).
  assert (Hw1 : named_with [] w1
                /\ forall c0, old = Some c0 -> named_for c0 key w1).
  { destruct old as [c0|].
    - destruct Hold as (it & Hf & Hl & Hi & Hcache).
      apply cache_find_key in Hf as [Hk Hin].
      destruct Hw as [(Ha & Hcc & Hd) He].
      assert (Hfor : forall c k, named_for c k w -> named_for c k w1).
      { intros c k (m & Hm & Hnm). exists m. rewrite Hh. auto. }
      split; [split; [split; [|split]|]|].
      + intros i ns Hi'. rewrite Hr in Hi'. rewrite Hh. apply (Ha i ns Hi').
      + intros i ns j ms n H1 H2. rewrite Hr in H1, H2.
        apply (Hcc i ns j ms n H1 H2).
      + intros x Hx. rewrite Hcache in Hx. apply Hfor.
        apply in_app_iff in Hx as [Hx|[<-|[]]]; [|apply Hd, Hin].
        apply cache_remove_in in Hx as [Hx _]. apply Hd, Hx.
      + intros c k [].
      + intros c1 Hc1. injection Hc1 as <-. apply Hfor.
        rewrite <- Hk, <- Hi. apply (Hd it Hin).
    - destruct Hold as [-> _]. split; [exact Hw|discriminate]. }
  unfold bind at 1.
  pose proof (named_setup_metric [] key m_type help labels value old w1 Hw1)
    as Hs.
  destruct (setup_metric m_type key help labels value old w1)
    as [[c|e] w2]; [|exact Hs].
  unfold bind at 1.
  pose proof (named_setitem [] key
                (entry_of c key help m_type value labels) w2 Hs) as Hi.
  destruct (cache_setitem config key _ w2) as [[u|e] w3]; [|exact Hi].
  apply (keeps_named_expire [] w3 Hi).
Qed.

Lemma named_reachable evs t0 :
  named_with [] (run config evs (init_world t0)).
Proof.
  assert (Hinit : named_with [] (init_world t0)).
  { split; [split; [|split]|]; simpl; intros; contradiction. }
  revert Hinit. generalize (init_world t0).
  induction evs as [|ev evs IH]; intros w H; simpl; auto.
  apply IH. destruct ev as [event_title rq|d]; simpl.
  - apply keeps_request;
      [apply keeps_named_store_metric|apply keeps_named_Cache_pop|].
    exact H.
  - destruct H as [(Ha & Hc & Hd) He].
    split; [split; [|split]|]; auto.
Qed.


(** ** The labels of a cache entry are those of its metric *)

Lemma labelled_with_heap extra w h :
  (forall i m, heap w !! i = Some m ->
     exists m', h !! i = Some m' /\ m_labelnames m' = m_labelnames m) ->
  labelled_with extra w -> labelled_with extra (set_heap h w).
Proof.
  intros Hh [Hc He].
  assert (Hfor : forall c labels, labelled_for c labels w ->
                                  labelled_for c labels (set_heap h w)).
  { intros c labels (m & items & Hm & Hl & Hs & Hn).
    destruct (Hh c m Hm) as (m' & Hm' & Hn').
    exists m', items. rewrite Hn'. auto. }
  split.
  - intros it Hin. apply Hfor, Hc, Hin.
  - intros c labels Hin. apply Hfor, He, Hin.
Qed.

Lemma labelled_with_assign extra w c m m' :
  heap w !! c = Some m ->
  m_labelnames m' = m_labelnames m ->
  labelled_with extra w ->
  labelled_with extra (set_heap (<[c := m']> (heap w)) w).
Proof.
  intros Hm Hn. apply labelled_with_heap. intros i m0 Hi.
  destruct (Nat.eq_dec i c) as [->|Hne].
  - exists m'. split; [|congruence].
    apply list_lookup_insert_eq. apply lookup_lt_Some in Hm; exact Hm.
  - exists m0. split; [|reflexivity].
    rewrite list_lookup_insert_ne by auto. exact Hi.
Qed.

Lemma labelled_with_cache extra w (c : list cache_item) :
  (forall it, In it c -> In it (metrics_cache w)) ->
  labelled_with extra w -> labelled_with extra (set_cache c w).
Proof.
  intros Hsub [Hc He]. split; [|exact He].
  intros it Hin. apply (Hc it (Hsub it Hin)).
Qed.

Lemma labelled_with_tail c labels extra w :
  labelled_with ((c, labels) :: extra) w -> labelled_with extra w.
Proof.
  intros [Hn He]. split; [exact Hn|].
  intros c' l Hin. apply He. right; exact Hin.
Qed.

Lemma keeps_labelled_metric_labels extra c items :
  keeps (labelled_with extra) (metric_labels c items).
Proof.
  intros w H. unfold metric_labels, bind, deref, assign, raise, ret.
  destruct (heap w !! c) as [m|] eqn:Hm; [|exact H].
  destruct (binds_self items); [exact H|].
  destruct (m_labelnames m) eqn:Hn; [exact H|].
  destruct (negb _); [exact H|].
  destruct (child_get _ _); [exact H|].
  simpl. apply (labelled_with_assign extra w c m); auto.
Qed.

(** When [labels] returns, the object takes the dict it was given. *)
Lemma metric_labels_labelled extra c items :
  ends (labelled_with extra) (metric_labels c items)
    (fun _ w => labelled_with ((c, JDict items) :: extra) w)
    (labelled_with extra).
Proof.
  intros w H.
  pose proof (keeps_labelled_metric_labels extra c items w H) as Hk.
  destruct (metric_labels c items w) as [[ch|e] w1] eqn:Hl; [|exact Hk].
  simpl in Hk. split; [apply Hk|].
  intros c' l [Hin|Hin]; [|apply Hk, Hin]. injection Hin as <- <-.
  pose proof (metric_labels_ok_self _ _ _ _ _ Hl) as Hself.
  destruct (heap w !! c) as [m|] eqn:Hm.
  2: { unfold metric_labels, bind, deref in Hl. rewrite Hm in Hl.
       discriminate. }
  destruct (metric_labels_cases c items w m Hm)
    as [(e & He)|(_ & Hs & Hcase)]; [congruence|].
  cbv zeta in Hcase.
  destruct (child_get (label_values (m_labelnames m) items) (m_metrics m));
    rewrite Hcase in Hl; injection Hl as _ <-.
  - exists m, items. auto.
  - exists (with_metrics m
              (m_metrics m
               ++ [(label_values (m_labelnames m) items, 0%float)])), items.
    split; [|auto]. simpl. apply list_lookup_insert_eq.
    apply lookup_lt_Some in Hm; exact Hm.
Qed.

Lemma keeps_labelled_child_write extra ch f :
  keeps (labelled_with extra) (child_write ch f).
Proof.
  intros w H. unfold child_write, bind, deref, assign, raise.
  destruct (heap w !! fst ch) as [m|] eqn:Hm; [|exact H].
  destruct (child_get _ _); [|exact H].
  simpl. apply (labelled_with_assign extra w (fst ch) m); auto.
Qed.

Lemma keeps_labelled_child_set extra ch v :
  keeps (labelled_with extra) (child_set ch v).
Proof.
  unfold child_set. apply keeps_bind; [apply keeps_deref|intros m].
  destruct (m_class m); try apply keeps_raise.
  apply keeps_labelled_child_write.
Qed.

Lemma keeps_labelled_child_inc extra ch v :
  keeps (labelled_with extra) (child_inc ch v).
Proof.
  unfold child_inc. apply keeps_bind; [apply keeps_deref|intros m].
  destruct (m_class m); try apply keeps_raise.
  - apply keeps_labelled_child_write.
  - destruct (PrimFloat.ltb v 0); [apply keeps_raise|].
    apply keeps_labelled_child_write.
Qed.

Lemma keeps_labelled_metric_clear extra i :
  keeps (labelled_with extra) (metric_clear i).
Proof.
  intros w H. unfold metric_clear, bind, deref, assign.
  destruct (heap w !! i) as [m|] eqn:Hm; [|exact H].
  simpl. apply (labelled_with_assign extra w i m); auto.
Qed.

Lemma keeps_labelled_unregister extra i :
  keeps (labelled_with extra) (registry_unregister i).
Proof.
  intros w H. unfold registry_unregister.
  destruct (registered i w); exact H.
Qed.

Lemma keeps_labelled_new_metric extra cls name help labelnames :
  keeps (labelled_with extra) (new_metric cls name help labelnames).
Proof.
  intros w H. unfold new_metric.
  destruct (negb _); [exact H|].
  set (m := {| m_class := cls; m_name := name; m_documentation := help;
               m_labelnames := labelnames; m_metrics := [] |}).
  assert (H1 : labelled_with extra (set_heap (heap w ++ [m]) w)).
  { apply labelled_with_heap; [|exact H]. intros i m0 Hi.
    exists m0; split; [|reflexivity]. apply lookup_app_l_Some, Hi. }
  unfold bind, registry_register, ret.
  destruct (existsb _ (metric_names cls name)); exact H1.
Qed.

Lemma keeps_labelled_expire extra : keeps (labelled_with extra) cache_expire.
Proof.
  intros w H. simpl. apply labelled_with_cache; [|exact H].
  intros it Hin. apply filter_In in Hin as [Hin _]. exact Hin.
Qed.

Lemma keeps_labelled_Cache_pop extra key :
  keeps (labelled_with extra) (Cache_pop key).
Proof.
  intros w H. pose proof (Cache_pop_cases key w) as E.
  destruct (cache_find key (metrics_cache w)) as [it|] eqn:Hf;
    [|rewrite E; exact H].
  destruct (live (now w) it); [|rewrite E; exact H].
  rewrite E. clear E.
  assert (H1 : labelled_with extra
                 (set_cache (cache_remove key (metrics_cache w)) w)).
  { apply labelled_with_cache; [|exact H].
    intros x Hx. apply cache_remove_in in Hx as [Hx _]. exact Hx. }
  revert H1. generalize (set_cache (cache_remove key (metrics_cache w)) w).
  apply keeps_bind; [apply keeps_labelled_metric_clear|intros _].
  apply keeps_bind; [apply keeps_labelled_unregister|intros; apply keeps_ret].
Qed.

(** A [setup_metric] that returns has handed the labels to [labels] of the
    instance it returns, and nothing done after that changes its label
    names. *)
Lemma labelled_setup_metric extra m_type key help labels value old :
  ends (labelled_with extra)
    (setup_metric m_type key help labels value old)
    (fun c w => labelled_with ((c, labels) :: extra) w)
    (labelled_with extra).
Proof.
  assert (Hi : forall cls keys,
            ends (labelled_with extra)
              (instance_or_new old cls key help keys)
              (fun _ => labelled_with extra) (labelled_with extra)).
  { intros cls keys. apply keeps_ends. destruct old; simpl;
      [apply keeps_ret|apply keeps_labelled_new_metric]. }
  unfold setup_metric.
  destruct m_type; try (apply ends_raise; auto).
  destruct labels as [| | | | | |items]; try (apply ends_raise; auto).
  destruct items as [|kv items]; [apply ends_raise; auto|].
  repeat match goal with
         | |- ends _ (if ?b then _ else _) _ _ => destruct b
         end; try (apply ends_raise; auto);
    (eapply ends_bind; [apply Hi|intros c];
     eapply ends_bind; [apply metric_labels_labelled|intros ch];
     eapply ends_bind;
       [apply keeps_ends_weak; [|apply labelled_with_tail]
       |intros; apply ends_ret; auto]).
  - apply keeps_labelled_child_set.
  - apply keeps_labelled_child_inc.
  - apply keeps_raise.
Qed.

(** Storing an entry whose labels its instance takes keeps the cache
    labelled. *)
Lemma labelled_setitem extra key value :
  ends (labelled_with ((cm_instance value, cm_labels value) :: extra))
    (cache_setitem config key value)
    (fun _ => labelled_with extra) (labelled_with extra).
Proof.
  set (N := labelled_with ((cm_instance value, cm_labels value) :: extra)).
  assert (Hweak : forall w, N w -> labelled_with extra w)
    by (intros w; apply labelled_with_tail).
  assert (HNl : forall fuel, keeps N (evict_loop config fuel)).
  { intros fuel. apply keeps_evict_loop, keeps_popitem.
    - apply keeps_labelled_expire.
    - intros k. apply keeps_labelled_Cache_pop. }
  intros w Hw. unfold cache_setitem, bind.
  pose proof (keeps_labelled_expire _ w Hw) as He.
  destruct (cache_expire w) as [[u|e] w1]; simpl in He; [|apply Hweak, He].
  destruct (_ <? 1)%nat; [apply Hweak, He|].
  assert (Hroom : match (match cache_find key (metrics_cache w1) with
                         | Some _ => (Ok tt, w1)
                         | None => evict_loop config
                                     (length (metrics_cache w1)) w1
                         end) with
                  | (_, w2) => N w2
                  end).
  { destruct (cache_find key (metrics_cache w1)); [exact He|].
    specialize (HNl (length (metrics_cache w1)) w1 He).
    destruct (evict_loop config _ w1) as [r w2]; exact HNl. }
  destruct (match cache_find key (metrics_cache w1) with
            | Some _ => _ | None => _ end) as [[u2|e2] w2];
    [|apply Hweak, Hroom].
  destruct Hroom as [Hd Hx].
  split.
  - intros it Hin. simpl in Hin. apply in_app_iff in Hin as [Hin|[<-|[]]].
    + apply cache_remove_in in Hin as [Hin _]. apply (Hd it Hin).
    + apply (Hx (cm_instance value) (cm_labels value)). left; reflexivity.
  - intros c l Hin. apply (Hx c l). right; exact Hin.
Qed.

Lemma keeps_labelled_store_metric key help m_type value labels :
  keeps (labelled_with []) (store_metric config key help m_type value labels).
Proof.
  intros w Hw.
  destruct (store_metric_lookup key help m_type value labels w)
    as (old & w1 & -> & Hh & Hr & Hn & Hc & Hold).
  assert (Hw1 : labelled_with [] w1).
  { destruct old as [c0|]; [|destruct Hold as [-> _]; exact Hw].
    destruct Hold as (it & Hf & _ & _ & Hcache).
    apply cache_find_key in Hf as [_ Hin].
    destruct Hw as [Hd _]. split; [|intros c l []].
    intros x Hx. rewrite Hcache in Hx.
    assert (Hxin : In x (metrics_cache w)).
    { apply in_app_iff in Hx as [Hx|[<-|[]]]; [|exact Hin].
      apply cache_remove_in in Hx as [Hx _]. exact Hx. }
    destruct (Hd x Hxin) as (m & items & Hm & Hrest).
    exists m, items. rewrite Hh. auto. }
  unfold bind at 1.
  pose proof (labelled_setup_metric [] m_type key help labels value old w1 Hw1)
    as Hs.
  destruct (setup_metric m_type key help labels value old w1)
    as [[c|e] w2]; [|exact Hs].
  unfold bind at 1.
  pose proof (labelled_setitem [] key
                (entry_of c key help m_type value labels) w2 Hs) as Hi.
  destruct (cache_setitem config key _ w2) as [[u|e] w3]; [|exact Hi].
  apply (keeps_labelled_expire [] w3 Hi).
Qed.

Lemma labelled_reachable evs t0 :
  labelled_with [] (run config evs (init_world t0)).
Proof.
  assert (Hinit : labelled_with [] (init_world t0)).
  { split; [intros it []|intros c l []]. }
  revert Hinit. generalize (init_world t0).
  induction evs as [|ev evs IH]; intros w H; simpl; auto.
  apply IH. destruct ev as [event_title rq|d]; simpl.
  - apply keeps_request;
      [intros; apply keeps_labelled_store_metric
      |apply keeps_labelled_Cache_pop|].
    exact H.
  - exact H.
Qed.

(** X22.  In every world the server can reach, the labels recorded in a
    cache entry, expired or not, are a dict that [labels] of the entry's
    metric takes: none of its keys is [self], and its keys, sorted, are the
    label names of the metric object, sorted.  So no cached metric has a
    label named [self]. *)
Theorem X22_cached_labels_are_those_of_the_metric evs t0 :
  Forall (fun it =>
            exists m items,
              heap (run config evs (init_world t0)) !! instance_of it = Some m
              /\ cm_labels (ci_value it) = JDict items
              /\ binds_self items = false
              /\ sorted (map fst items) = sorted (m_labelnames m)
              /\ ~ In "self" (m_labelnames m))
    (metrics_cache (run config evs (init_world t0))).
Proof.
  apply List.Forall_forall. intros it Hin.
  destruct (labelled_reachable evs t0) as [Hd _].
  destruct (Hd it Hin) as (m & items & Hm & Hl & Hself & Hs).
  exists m, items. apply strings_eqb_eq in Hs.
  repeat split; auto.
  intros Hnamed.
  assert (H1 : In "self" (sorted (m_labelnames m)))
    by (apply sorted_In; exact Hnamed).
  rewrite <- Hs in H1. apply (proj1 (sorted_In _ _)) in H1.
  unfold binds_self in Hself.
  assert (Ht : existsb (String.eqb "self") (map fst items) = true).
  { apply existsb_exists. exists "self"; split; [exact H1|].
    apply String.eqb_refl. }
  congruence.
Qed.

(** ** When a create goes through *)

Lemma class_of_type t cls : class_of t = Some cls -> t = type_of cls.
Proof.
  unfold class_of.
  destruct (String.eqb_spec t "gauge") as [->|_];
    [intros H; injection H as <-; reflexivity|].
  destruct (String.eqb_spec t "counter") as [->|_];
    [intros H; injection H as <-; reflexivity|].
  destruct (String.eqb_spec t "info") as [->|_];
    [intros H; injection H as <-; reflexivity|discriminate].
Qed.

(** A new instance is set up as an old one is, once it is constructed. *)
Lemma setup_metric_construct m_type name help items value cls w :
  m_type = JStr (type_of cls) -> items <> [] ->
  setup_metric m_type name help (JDict items) value None w
  = match new_metric cls name help (map fst items) w with
    | (Ok c, w1) =>
        setup_metric m_type name help (JDict items) value (Some c) w1
    | (Raise e, w1) => (Raise e, w1)
    end.
Proof.
  intros -> Hi. destruct items as [|kv items]; [congruence|].
  unfold setup_metric.
  assert (E1 : String.eqb "gauge" "gauge" = true) by reflexivity.
  assert (E2 : String.eqb "counter" "gauge" = false) by reflexivity.
  assert (E3 : String.eqb "counter" "counter" = true) by reflexivity.
  assert (E4 : String.eqb "info" "gauge" = false) by reflexivity.
  assert (E5 : String.eqb "info" "counter" = false) by reflexivity.
  assert (E6 : String.eqb "info" "info" = true) by reflexivity.
  destruct cls;
    [change (type_of Gauge) with "gauge"; rewrite E1
    |change (type_of Counter) with "counter"; rewrite E2, E3
    |change (type_of Info) with "info"; rewrite E4, E5, E6];
    unfold instance_or_new, bind at 1;
    destruct (new_metric _ name help (map fst (kv :: items)) w)
      as [[c|e] w1]; reflexivity.
Qed.

Lemma new_metric_free cls name help labelnames w :
  valid_metric cls name labelnames = true ->
  (forall n, In n (metric_names cls name) -> ~ In n (registered_names w)) ->
  new_metric cls name help labelnames w
  = (Ok (length (heap w)),
     set_registry (registry w ++ [(length (heap w), metric_names cls name)])
       (set_heap (heap w ++ [{| m_class := cls; m_name := name;
                                m_documentation := help;
                                m_labelnames := labelnames;
                                m_metrics := [] |}]) w)).
Proof.
  intros Hv Hfree. unfold new_metric. rewrite Hv. simpl negb. cbv iota.
  unfold bind, registry_register, ret.
  destruct (existsb _ (metric_names cls name)) eqn:Hdup; [|reflexivity].
  exfalso. apply existsb_exists in Hdup as (n & Hn & Hex).
  apply existsb_exists in Hex as (n' & Hn' & He).
  apply String.eqb_eq in He. subst n'. apply (Hfree n Hn Hn').
Qed.

Lemma new_metric_ok_free cls name help labelnames w c w' :
  new_metric cls name help labelnames w = (Ok c, w') ->
  valid_metric cls name labelnames = true
  /\ forall n, In n (metric_names cls name) -> ~ In n (registered_names w).
Proof.
  unfold new_metric.
  destruct (valid_metric cls name labelnames); [|discriminate].
  simpl negb. cbv iota. unfold bind, registry_register, ret.
  destruct (existsb _ (metric_names cls name)) eqn:Hdup; [discriminate|].
  intros _. split; [reflexivity|]. intros n Hn Hreg.
  assert (Ht : existsb
                 (fun n0 => existsb (String.eqb n0)
                              (registered_names
                                 (set_heap
                                    (heap w ++
                                     [{| m_class := cls; m_name := name;
                                         m_documentation := help;
                                         m_labelnames := labelnames;
                                         m_metrics := [] |}]) w)))
                 (metric_names cls name) = true).
  { apply existsb_exists. exists n; split; [exact Hn|].
    apply existsb_exists. exists n; split; [exact Hreg|apply String.eqb_refl]. }
  congruence.
Qed.

(** On a cached counter whose label names are those of the request,
    [setup_metric] adds a delta that is not below zero to the child of the
    label values, made at zero if need be. *)
Lemma setup_counter_any key help items v c w m :
  items <> [] ->
  binds_self items = false ->
  heap w !! c = Some m ->
  m_class m = Counter ->
  strings_eqb (sorted (map fst items)) (sorted (m_labelnames m)) = true ->
  PrimFloat.ltb v 0%float = false ->
  setup_metric (JStr "counter") key help (JDict items) v (Some c) w
  = (Ok c,
     set_heap
       (<[c := with_metrics m
                 (child_put (label_values (m_labelnames m) items)
                    (PrimFloat.add
                       (default 0%float
                          (child_get (label_values (m_labelnames m) items)
                             (m_metrics m))) v)
                    (m_metrics m))]> (heap w)) w).
Proof.
  intros Hi Hself Hm Hc Hs Hv.
  destruct (child_get (label_values (m_labelnames m) items) (m_metrics m))
    as [x|] eqn:Hx.
  - rewrite (setup_counter_old key help items v c w m x Hi Hself Hm Hc Hs Hx),
      Hv.
    reflexivity.
  - destruct items as [|kv items]; [congruence|].
    pose proof (sorted_nonempty _ _ _ Hs) as Hn.
    unfold setup_metric.
    assert (E1 : String.eqb "counter" "gauge" = false) by reflexivity.
    assert (E2 : String.eqb "counter" "counter" = true) by reflexivity.
    rewrite E1, E2.
    unfold instance_or_new, bind at 1, ret.
    unfold bind at 1. rewrite (metric_labels_eq c (kv :: items) w m Hm Hself).
    destruct (m_labelnames m) as [|n names] eqn:Hnames; [congruence|].
    rewrite Hs. simpl negb. cbv iota. cbv zeta.
    remember (label_values (n :: names) (kv :: items)) as lv eqn:Hlv.
    rewrite Hx.
    set (m2 := with_metrics m (m_metrics m ++ [(lv, 0%float)])).
    set (w2 := set_heap (<[c := m2]> (heap w)) w).
    assert (Hm2 : heap w2 !! c = Some m2).
    { subst w2; simpl. apply list_lookup_insert_eq.
      apply lookup_lt_Some in Hm; exact Hm. }
    unfold bind.
    rewrite (child_inc_counter c lv v w2 m2 0%float Hm2 Hc
               (child_get_app_new _ _ _ Hx)), Hv.
    f_equal. subst w2 m2. unfold set_heap; simpl.
    rewrite list_insert_insert_eq.
    rewrite (child_put_app_new lv _ 0%float (m_metrics m) Hx).
    reflexivity.
Qed.

(** A create whose constructor is content and whose labels can be handed
    to [labels] goes through, in a consistent world. *)
Lemma create_consistent key help cls items v w :
  consistent w ->
  (1 <= maxsize config)%nat ->
  fst (cache_contains key w) = Ok false ->
  cls <> Info -> items <> [] ->
  binds_self items = false ->
  valid_metric cls key (map fst items) = true ->
  (forall n, In n (metric_names cls key) -> ~ In n (registered_names w)) ->
  (cls = Counter -> PrimFloat.ltb v 0%float = false) ->
  exists w',
    store_metric config key help (JStr (type_of cls)) v (JDict items) w
    = (Ok tt, w').
Proof.
  intros Hw Hmax Hfresh Hcls Hi Hself Hv Hfree Hneg.
  rewrite store_metric_fresh.
  2: { unfold cache_contains in Hfresh. simpl in Hfresh. congruence. }
  assert (Hs : exists c wa,
            setup_metric (JStr (type_of cls)) key help (JDict items) v None w
            = (Ok c, wa)).
  { rewrite (setup_metric_construct _ key help items v cls w eq_refl Hi).
    rewrite (new_metric_free cls key help (map fst items) w Hv Hfree).
    set (m0 := {| m_class := cls; m_name := key; m_documentation := help;
                  m_labelnames := map fst items; m_metrics := [] |}).
    set (w1 := set_registry _ _).
    assert (Hm0 : heap w1 !! length (heap w) = Some m0)
      by (subst w1; simpl; apply list_lookup_middle; reflexivity).
    assert (Hs0 : strings_eqb (sorted (map fst items))
                    (sorted (m_labelnames m0)) = true)
      by apply strings_eqb_refl.
    destruct cls; [| |congruence]; simpl type_of.
    - rewrite (setup_gauge_old key help items v _ w1 m0 Hi Hself Hm0 eq_refl
                 Hs0).
      eexists _, _; reflexivity.
    - rewrite (setup_counter_any key help items v _ w1 m0 Hi Hself Hm0 eq_refl
                 Hs0 (Hneg eq_refl)).
      eexists _, _; reflexivity. }
  destruct Hs as (c & wa & Hs).
  pose proof (consistent_setup_metric key (JStr (type_of cls)) help
                (JDict items) v None w
                (conj Hw (fun c0 (H : None = Some c0) =>
                            match H with end))) as Hc.
  unfold bind at 1. rewrite Hs in Hc |- *. destruct Hc as [Hwa Ho].
  destruct (cache_setitem_consistent key
              (entry_of c key help (JStr (type_of cls)) v (JDict items))
              wa Hmax Hwa Ho) as (w3 & Hset).
  unfold bind. rewrite Hset. eexists; reflexivity.
Qed.

(** X18.  When a create goes through.  In any world the server can reach,
    with [maxsize] at least 1, a request of type gauge or counter for a key
    the cache does not hold, with at least one label, is stored exactly
    when the constructor accepts the name and the label names, none of the
    time series names of the metric is in the registry, no label is named
    [self] (the call of [labels] would raise [TypeError], after the metric
    was built and registered), and, for a counter, the first delta is not
    below zero. *)
Theorem X18_when_a_create_goes_through evs t0 key help cls items v :
  (1 <= maxsize config)%nat ->
  fst (cache_contains key (run config evs (init_world t0))) = Ok false ->
  cls <> Info -> items <> [] ->
  (exists w',
     store_metric config key help (JStr (type_of cls)) v (JDict items)
       (run config evs (init_world t0)) = (Ok tt, w'))
  <-> (valid_metric cls key (map fst items) = true
       /\ (forall n, In n (metric_names cls key) ->
                     ~ In n (registered_names
                               (run config evs (init_world t0))))
       /\ binds_self items = false
       /\ (cls = Counter -> PrimFloat.ltb v 0%float = false)).
Proof.
  intros Hmax Hfresh Hcls Hi.
  set (w := run config evs (init_world t0)) in *.
  split.
  - intros (w' & H).
    apply (store_fresh_inv config) in H as (c & wa & wb & Hs & _ & _).
    2: { unfold cache_contains in Hfresh. simpl in Hfresh. congruence. }
    pose proof Hs as Hs'.
    pose proof (setup_metric_ok_self _ _ _ _ _ _ _ _ _ Hs) as Hself.
    rewrite (setup_metric_construct _ key help items v cls w eq_refl Hi)
      in Hs'.
    destruct (new_metric cls key help (map fst items) w) as [[c0|e] w1] eqn:Hn;
      [|discriminate].
    apply new_metric_ok_free in Hn as [Hv Hfree].
    split; [exact Hv|]. split; [exact Hfree|]. split; [exact Hself|].
    intros ->. simpl type_of in Hs.
    apply setup_counter_new in Hs as (? & _ & _ & Hneg & _). exact Hneg.
  - intros (Hv & Hfree & Hself & Hneg).
    apply create_consistent; auto. apply consistent_reachable.
Qed.

(** ** A delete frees the name *)




(** ** An expired entry keeps the name *)

(** X20.  In any world the server can reach, a key whose entry is in the
    cache past its time cannot be created again as a metric of the same
    class: expiry unregisters nothing, the metric of the entry still holds
    its time series names, and the create raises [ValueError], storing and
    registering nothing. *)
Theorem X20_expired_entry_blocks_the_create evs t0 key it m help items v :
  cache_find key (metrics_cache (run config evs (init_world t0))) = Some it ->
  live (now (run config evs (init_world t0))) it = false ->
  heap (run config evs (init_world t0)) !! instance_of it = Some m ->
  items <> [] ->
  metric_names (m_class m) key <> [] ->
  exists w',
    store_metric config key help (JStr (type_of (m_class m))) v (JDict items)
      (run config evs (init_world t0)) = (Raise ValueError, w')
    /\ registry w' = registry (run config evs (init_world t0))
    /\ metrics_cache w' = metrics_cache (run config evs (init_world t0)).
Proof.
  intros Hf Hl Hm Hi Hnames.
  set (w := run config evs (init_world t0)) in *.
  pose proof (consistent_reachable evs t0) as [_ [_ Hr]]. fold w in Hr.
  pose proof (named_reachable evs t0) as [(Ha & _ & Hd) _]. fold w in Ha, Hd.
  apply cache_find_key in Hf as Hk. destruct Hk as [Hk Hin].
  destruct (metric_names (m_class m) key) as [|n ns] eqn:Hmn; [congruence|].
  apply (taken_name_raises key help (type_of (m_class m)) (m_class m)
           items v w n).
  - unfold cache_contains. simpl. rewrite Hf, Hl. reflexivity.
  - destruct (m_class m); reflexivity.
  - exact Hi.
  - rewrite Hmn. left; reflexivity.
  - pose proof (Hr it Hin) as Hreg. apply registered_iff in Hreg.
    apply in_map_iff in Hreg as ([i ns'] & Hi' & Hiin). simpl in Hi'. subst i.
    destruct (Ha _ _ Hiin) as (m' & Hm' & Hns).
    rewrite Hm in Hm'. injection Hm' as <-.
    destruct (Hd it Hin) as (m'' & Hm'' & Hname).
    rewrite Hm in Hm''. injection Hm'' as <-.
    rewrite Hname, Hk, Hmn in Hns. subst ns'.
    apply registered_names_in. exists (instance_of it), (n :: ns).
    split; [exact Hiin|left; reflexivity].
Qed.


(** ** When an update goes through *)

(** The child operation of the request, on a child that is there. *)
Lemma child_op_accepts cls c lv v w m x :
  heap w !! c = Some m ->
  child_get lv (m_metrics m) = Some x ->
  (exists w',
     match cls with
     | Gauge => child_set (c, lv) v
     | Counter => child_inc (c, lv) v
     | Info => child_info (c, lv) v
     end w = (Ok tt, w'))
  <-> accepts cls (m_class m) v = true.
Proof.
  intros Hm Hx.
  destruct cls;
    unfold child_set, child_inc, child_info, child_write, bind, deref, raise,
      assign, accepts;
    cbn [fst snd]; rewrite ?Hm; cbn beta iota;
    destruct (m_class m); try destruct (PrimFloat.ltb v 0);
    rewrite ?Hm; cbn beta iota; rewrite ?Hx; cbn [negb];
    (split;
     [first [intros _; reflexivity | intros (w' & H); discriminate]
     |first [discriminate | intros _; eexists; reflexivity]]).
Qed.

Lemma setup_old_accepts cls key help items v c w m :
  items <> [] ->
  heap w !! c = Some m ->
  (exists w',
     setup_metric (JStr (type_of cls)) key help (JDict items) v (Some c) w
     = (Ok c, w'))
  <-> (binds_self items = false
       /\ strings_eqb (sorted (map fst items)) (sorted (m_labelnames m)) = true
       /\ accepts cls (m_class m) v = true).
Proof.
  intros Hi Hm. destruct items as [|kv items]; [congruence|].
  assert (E : setup_metric (JStr (type_of cls)) key help (JDict (kv :: items))
                v (Some c) w
              = (do* ch := metric_labels c (kv :: items) in
                 match cls with
                 | Gauge => child_set ch v
                 | Counter => child_inc ch v
                 | Info => child_info ch v
                 end ;; ret c) w).
  { unfold setup_metric.
    assert (E1 : String.eqb "gauge" "gauge" = true) by reflexivity.
    assert (E2 : String.eqb "counter" "gauge" = false) by reflexivity.
    assert (E3 : String.eqb "counter" "counter" = true) by reflexivity.
    assert (E4 : String.eqb "info" "gauge" = false) by reflexivity.
    assert (E5 : String.eqb "info" "counter" = false) by reflexivity.
    assert (E6 : String.eqb "info" "info" = true) by reflexivity.
    destruct cls;
      [change (type_of Gauge) with "gauge"; rewrite E1
      |change (type_of Counter) with "counter"; rewrite E2, E3
      |change (type_of Info) with "info"; rewrite E4, E5, E6];
      reflexivity. }
  rewrite E. clear E. unfold bind at 1.
  destruct (binds_self (kv :: items)) eqn:Hself.
  { rewrite (metric_labels_self c (kv :: items) w m Hm Hself).
    split; [intros (w' & H); discriminate|intros [H _]; discriminate]. }
  rewrite (metric_labels_eq c (kv :: items) w m Hm Hself).
  destruct (strings_eqb (sorted (map fst (kv :: items)))
              (sorted (m_labelnames m))) eqn:Hs.
  2: { destruct (m_labelnames m); simpl;
         (split; [intros (w' & H); discriminate
                 |intros (_ & H & _); discriminate]). }
  pose proof (sorted_nonempty _ _ _ Hs) as Hn.
  destruct (m_labelnames m) as [|n names] eqn:Hnames; [congruence|].
  simpl negb. cbv iota. cbv zeta.
  remember (label_values (n :: names) (kv :: items)) as lv eqn:Hlv.
  assert (Hgo : forall w1 m1 x,
            heap w1 !! c = Some m1 -> m_class m1 = m_class m ->
            child_get lv (m_metrics m1) = Some x ->
            (exists w',
               (match cls with
                | Gauge => child_set (c, lv) v
                | Counter => child_inc (c, lv) v
                | Info => child_info (c, lv) v
                end ;; ret c) w1 = (Ok c, w'))
            <-> (false = false /\ true = true
                 /\ accepts cls (m_class m) v = true)).
  { intros w1 m1 x Hm1 Hc1 Hx1. rewrite <- Hc1.
    rewrite <- (child_op_accepts cls c lv v w1 m1 x Hm1 Hx1).
    unfold bind.
    destruct (match cls with
              | Gauge => child_set (c, lv) v
              | Counter => child_inc (c, lv) v
              | Info => child_info (c, lv) v
              end w1) as [[[]|e] w2]; simpl.
    - split; [intros _; split; [reflexivity
                               |split; [reflexivity|eexists; reflexivity]]
             |intros _; eexists; reflexivity].
    - split; [intros (w' & H); discriminate
             |intros (_ & _ & (w' & H)); discriminate]. }
  destruct (child_get lv (m_metrics m)) as [x|] eqn:Hx.
  - apply (Hgo w m x Hm eq_refl Hx).
  - apply (Hgo _ (with_metrics m (m_metrics m ++ [(lv, 0%float)])) 0%float).
    + simpl. apply list_lookup_insert_eq.
      apply lookup_lt_Some in Hm; exact Hm.
    + reflexivity.
    + simpl. apply child_get_app_new, Hx.
Qed.

(** X21.  When an update goes through.  With [maxsize] at least 1, a
    request of a supported type for a key that is in the cache and has not
    expired, with at least one label, is stored exactly when [labels]
    takes its labels (none is named [self], and the label names are those
    of the cached instance) and the child of that instance takes the call:
    [set] on a gauge, [inc] on a gauge or on a counter, the counter with a
    delta that is not below zero.  The type of the request is not compared
    with the class of the instance. *)
Theorem X21_when_an_update_goes_through key it m help cls items v w :
  (1 <= maxsize config)%nat ->
  cache_find key (metrics_cache w) = Some it ->
  live (now w) it = true ->
  heap w !! instance_of it = Some m ->
  items <> [] ->
  (exists w',
     store_metric config key help (JStr (type_of cls)) v (JDict items) w
     = (Ok tt, w'))
  <-> (binds_self items = false
       /\ strings_eqb (sorted (map fst items)) (sorted (m_labelnames m)) = true
       /\ accepts cls (m_class m) v = true).
Proof.
  intros Hmax Hf Hl Hm Hi.
  rewrite (store_metric_present config key help _ v _ w it Hf Hl).
  fold (instance_of it).
  set (w1 := set_cache (cache_remove key (metrics_cache w) ++ [it]) w).
  assert (Hm1 : heap w1 !! instance_of it = Some m) by exact Hm.
  rewrite <- (setup_old_accepts cls key help items v (instance_of it) w1 m
                Hi Hm1).
  apply cache_find_key in Hf as Hk. destruct Hk as [Hk _].
  unfold bind at 1.
  destruct (setup_metric (JStr (type_of cls)) key help (JDict items) v
              (Some (instance_of it)) w1) as [[c|e] w2] eqn:Hs.
  - pose proof (setup_metric_old _ _ _ _ _ _ _ _ _ Hs)
      as (-> & _ & Hcache & Hnow & _).
    split; [intros _; eexists; reflexivity|intros _].
    unfold bind. rewrite cache_setitem_room.
    + eexists; reflexivity.
    + exact Hmax.
    + left. rewrite Hcache, Hnow. apply cache_find_live_last; assumption.
  - split; intros (w' & H); discriminate.
Qed.

End Further.

(** * Concrete runs *)

(** C1, the run where it fails.  A gauge is posted under ["odalogs_a"]
    and its entry holds instance 0, registered.  Eleven seconds later,
    past the ten of the entry's time to live, another key is posted: the
    store expires ["odalogs_a"], which is gone from the cache, and
    instance 0 is still in the registry.  A new post of ["odalogs_a"] then finds the name
    taken and raises [ValueError]. *)
Theorem C1_expired_entry_stays_registered :
  cache_find "odalogs_a" (metrics_cache w_a) = Some item_a
  /\ registered (cm_instance (ci_value item_a)) w_a = true
  /\ cache_find "odalogs_a" (metrics_cache w_ab) = None
  /\ registered (cm_instance (ci_value item_a)) w_ab = true
  /\ fst (serve "odalogs_a" (post "gauge" (JInt 1)) w_ab) = Raise ValueError.
Proof. repeat split; vm_compute; reflexivity. Qed.



(** C4, where it fails.  On the text of ["hello"] the pattern [(x)]
    matches nothing and the stage gives [None], not the default; the
    pattern [l] matches without a group and the stage raises
    [StopIteration].  A pattern whose group matches gives the group. *)
Theorem C4_regex_stage_without_match_or_group :
  run_extractor (L := Fragment.libs) (JStr "/(x)/") (JStr "hello")
    (JStr "gauge") = Ok JNull
  /\ run_extractor (L := Fragment.libs) (JStr "/l/") (JStr "hello")
       (JStr "gauge") = Raise StopIteration
  /\ run_extractor (L := Fragment.libs) (JStr "/(ll)/") (JStr "hello")
       (JStr "gauge") = Ok (JStr "ll").
Proof. repeat split; vm_compute; reflexivity. Qed.

(** C5, as stated, fails: the chain of an empty stage and the query
    [warn], run with the default of the labels, does not give the default
    but what [warn] finds in it. *)
Lemma C5_counterexample :
  truthy (JStr "") = false
  /\ run_extractor (L := Fragment.libs)
       (JList [JList [JStr ""; JStr "warn"]]) (JDict []) warn_default
     = Ok (JStr "label extraction failed")
  /\ JStr "label extraction failed" <> warn_default.
Proof.
  split; [reflexivity|]. split; [vm_compute; reflexivity|discriminate].
Qed.

Lemma C5_witness :
  run_chain (L := Fragment.libs) warn_default
    (JDict [("data", JDict [("x", JStr "y")])])
    ([JStr "data"] ++ JStr "" :: [JStr "warn"])
  = run_chain (L := Fragment.libs) warn_default warn_default [JStr "warn"]
  /\ run_chain (L := Fragment.libs) warn_default
       (JDict [("data", JDict [("x", JStr "y")])])
       ([JStr "data"] ++ [JStr ""])
     = Ok warn_default.
Proof.
  apply (C5_falsy_stage_restarts_from_default (L := Fragment.libs)
           warn_default (JDict [("data", JDict [("x", JStr "y")])])
           (JDict [("x", JStr "y")]) (JStr "") [JStr "data"] [JStr "warn"]);
    reflexivity.
Defined.

(** C6, as stated, fails twice.  A post whose value is [None] gets no
    response from the handler, which raises [TypeError].  And a post whose
    value is the text [inf], or [nan], which is no finite number, is
    answered 200: the gauge is built and registered, its entry cached, and
    the value it exports is the infinity, or the nan. *)
Lemma C6_counterexample :
  (serve "odalogs_a" (post "gauge" JNull) (init_world 0)
   = (Raise TypeError, init_world 0)
   /\ forall resp w',
        serve "odalogs_a" (post "gauge" JNull) (init_world 0)
        <> (Ok resp, w'))
  /\ (exists w',
        serve "odalogs_a" (post "gauge" (JStr "inf")) (init_world 0)
        = (Ok ok_200, w')
        /\ option_map (fun it => cm_value (ci_value it))
             (cache_find "odalogs_a" (metrics_cache w'))
           = Some PrimFloat.infinity
        /\ registered 0 w' = true
        /\ exported w' 0 ["a"] = Some PrimFloat.infinity)
  /\ (exists w',
        serve "odalogs_a" (post "gauge" (JStr "nan")) (init_world 0)
        = (Ok ok_200, w')
        /\ option_map (fun it => cm_value (ci_value it))
             (cache_find "odalogs_a" (metrics_cache w'))
           = Some PrimFloat.nan
        /\ registered 0 w' = true
        /\ exported w' 0 ["a"] = Some PrimFloat.nan).
Proof.
  assert (H : serve "odalogs_a" (post "gauge" JNull) (init_world 0)
              = (Raise TypeError, init_world 0)) by (vm_compute; reflexivity).
  split; [split; [exact H|]|split].
  - intros resp w'. rewrite H. discriminate.
  - eexists; split; [vm_compute; reflexivity|].
    repeat split; vm_compute; reflexivity.
  - eexists; split; [vm_compute; reflexivity|].
    repeat split; vm_compute; reflexivity.
Qed.

Lemma C6_witness :
  (exists e',
     serve "odalogs_a" (post "gauge" JNull) (init_world 0)
     = (Raise e', init_world 0))
  /\ serve "odalogs_a" (post "gauge" (JStr "inf")) (init_world 0)
     = (store_metric (L := Fragment.libs) sample_config "odalogs_a"
          (JStr "default help") (JStr "gauge") PrimFloat.infinity
          (JDict [("host", JStr "a")]) ;; ret ok_200)%py (init_world 0).
Proof.
  split.
  - destruct (C6_unparsable_value_raises (L := Fragment.libs) sample_config
                "odalogs_a" (post "gauge" JNull) (init_world 0)
                {| h_event_title := "^odalogs_.*";
                   h_extractors := ("help", JStr "data.help")
                                   :: sample_extractors |}
                JNull) as [H _].
    + discriminate.
    + vm_compute; reflexivity.
    + vm_compute; reflexivity.
    + destruct (H TypeError eq_refl) as (e' & He & _).
      exists e'; exact He.
  - destruct (C6_unparsable_value_raises (L := Fragment.libs) sample_config
                "odalogs_a" (post "gauge" (JStr "inf")) (init_world 0)
                {| h_event_title := "^odalogs_.*";
                   h_extractors := ("help", JStr "data.help")
                                   :: sample_extractors |}
                (JStr "inf")) as [_ H].
    + discriminate.
    + vm_compute; reflexivity.
    + vm_compute; reflexivity.
    + apply (H PrimFloat.infinity (JStr "default help") (JStr "gauge")
               (JDict [("host", JStr "a")]) (JDict [("host", JStr "a")]));
        vm_compute; reflexivity.
Defined.

(** C8, where it fails.  The first of two matching handlers is taken;
    but an event no handler matches, with a file that leaves
    [webhook_basepath] out, gets no 404: the handler raises [KeyError]. *)
Theorem C8_no_match_without_basepath_raises :
  find_handler (L := Fragment.libs) (event_handlers sample_config)
    "odalogs_error_1"
  = Ok (Some {| h_event_title := "^odalogs_error";
                h_extractors := sample_extractors |})
  /\ find_handler (L := Fragment.libs) (event_handlers sample_config) "other"
     = Ok None
  /\ webhook_basepath sample_config = None
  /\ serve "other" (post "gauge" (JInt 1)) (init_world 0)
     = (Raise KeyError, init_world 0).
Proof. repeat split; vm_compute; reflexivity. Qed.

(** C9, as stated, fails in its second half: the labels of the body are
    reached by the query [*.labels], which does not name [data].  On the
    wrapper dict it projects over the values, the body among them, and gives
    the list of the one dict of labels; line 208 merges that list into the
    dict, and the post is answered 200 with the labels of the body on the
    entry. *)
Lemma C9_counterexample :
  run_extractor (L := Fragment.libs) (JStr "*.labels")
    (wrapper (post "gauge" (JInt 5))) warn_default
  = Ok (JList [JDict [("host", JStr "a")]])
  /\ exists w',
       receive_webhook_request (L := Fragment.libs) star_config "odalogs_a"
         (post "gauge" (JInt 5)) (init_world 0)
       = (Ok ok_200, w')
       /\ option_map (fun it => cm_labels (ci_value it))
            (cache_find "odalogs_a" (metrics_cache w'))
          = Some (JDict [("host", JStr "a")])
       /\ exported w' 0 ["a"] = Some 5%float.
Proof.
  split; [vm_compute; reflexivity|].
  eexists; split; [vm_compute; reflexivity|].
  split; vm_compute; reflexivity.
Qed.

Lemma C9_witness :
  serve "odalogs_a" (post "gauge" (JInt 5)) (init_world 0)
  = (store_metric (L := Fragment.libs) sample_config "odalogs_a"
       (JStr "default help") (JStr "gauge") 5%float
       (JDict [("host", JStr "a")]) ;; ret ok_200)%py (init_world 0)
  /\ run_extractor (L := Fragment.libs) (JStr "value")
       (wrapper (post "gauge" (JInt 5))) (JStr "none")
     = Ok (JStr "none")
  /\ run_extractor (L := Fragment.libs)
       (JList [JList [JStr "data"; JStr "value"]])
       (wrapper (post "gauge" (JInt 5))) (JStr "none")
     = run_extractor (L := Fragment.libs) (JStr "value")
         (rq_json (post "gauge" (JInt 5))) (JStr "none").
Proof.
  destruct (C9_extractors_run_on_wrapper (L := Fragment.libs) sample_config
              "odalogs_a" (post "gauge" (JInt 5))
              {| h_event_title := "^odalogs_.*";
                 h_extractors := ("help", JStr "data.help")
                                 :: sample_extractors |}
              (init_world 0)) as (H1 & H2 & H3).
  - discriminate.
  - vm_compute; reflexivity.
  - split; [|split].
    + apply (H1 (JStr "default help") (JStr "gauge") (JInt 5) 5%float
               (JDict [("host", JStr "a")]) (JDict [("host", JStr "a")]));
        vm_compute; reflexivity.
    + apply (H2 "value").
      * intros d; reflexivity.
      * discriminate.
      * reflexivity.
      * discriminate.
      * discriminate.
    + apply H3.
      * intros d; reflexivity.
      * reflexivity.
      * intros l; discriminate.
Defined.

Lemma C10_witness :
  run_partial (L := Fragment.libs) (JStr "fallback")
    (JDict [("data", JDict [("value", JInt 0)])]) (JStr "data.value")
  = Ok (JStr "fallback").
Proof.
  apply (C10_falsy_query_result_becomes_default (L := Fragment.libs)
           (JStr "data.value") (JDict [("data", JDict [("value", JInt 0)])])
           (JStr "fallback") (JInt 0)).
  - reflexivity.
  - reflexivity.
  - reflexivity.
  - right; left; reflexivity.
Defined.


Lemma C7_witness :
  map ci_key (metrics_cache w_c) = ["odalogs_b"; "odalogs_c"]
  /\ length (metrics_cache w_c) = maxsize sample_config
  /\ length (registry w_c) = maxsize sample_config.
Proof.
  destruct (proj2 (C7_cache_bound (L := Fragment.libs) sample_config)
              0 "odalogs_a" ["odalogs_b"; "odalogs_c"] w_a w_c)
    as (H1 & H2 & _ & _ & H3).
  - apply (upserts_cons (L := Fragment.libs) sample_config
             "odalogs_a" [] 0 (init_world 0) w_a w_a); [lia| |constructor].
    exists (post "gauge" (JInt 5)); split; [discriminate|].
    vm_compute; reflexivity.
  - apply (upserts_cons (L := Fragment.libs) sample_config
             "odalogs_b" ["odalogs_c"] 1 w_a w_b w_c); [lia| |].
    + exists (post "gauge" (JInt 1)); split; [discriminate|].
      vm_compute; reflexivity.
    + apply (upserts_cons (L := Fragment.libs) sample_config
               "odalogs_c" [] 1 w_b w_c w_c); [lia| |constructor].
      exists (post "counter" (JInt 2)); split; [discriminate|].
      vm_compute; reflexivity.
  - repeat (apply List.NoDup_cons;
            [simpl; intros H; repeat destruct H as [H|H]; try discriminate;
             exact H|]).
    apply List.NoDup_nil.
  - reflexivity.
  - vm_compute; reflexivity.
  - repeat split; assumption.
Defined.

(** ** Further runs *)


Lemma X1_witness :
  _func_to_object (_func_items [("a", JInt 1); ("b", JStr "x")])
  = Ok (Some (JDict [("a", JInt 1); ("b", JStr "x")])).
Proof.
  apply (X1_to_object_inverts_items [("a", JInt 1); ("b", JStr "x")]).
  repeat (apply List.NoDup_cons;
          [simpl; intros H; repeat destruct H as [H|H]; try discriminate;
           exact H|]).
  apply List.NoDup_nil.
Defined.

Lemma X2_witness :
  exists extracted,
    JList [JStr "gauge"; JInt 5] = JList extracted
    /\ Forall2 (fun e x =>
                  run_chain (L := Fragment.libs) JNull
                    (wrapper (post "gauge" (JInt 5))) (as_list e) = Ok x)
         [JStr "data.type"; JStr "data.value"] extracted.
Proof.
  apply (X2_run_extractor_shape (L := Fragment.libs)
           [JStr "data.type"; JStr "data.value"]
           (wrapper (post "gauge" (JInt 5))) JNull
           (JList [JStr "gauge"; JInt 5])).
  vm_compute; reflexivity.
Defined.

Lemma X3_witness :
  exists e,
    receive_webhook_request (L := Fragment.libs) bare_config "odalogs_a"
      (post "gauge" (JInt 5)) (init_world 0)
    = (Raise e, init_world 0).
Proof.
  destruct (X3_handler_without_value_extractor (L := Fragment.libs)
              bare_config "odalogs_a" (post "gauge" (JInt 5)) (init_world 0)
              {| h_event_title := "^odalogs_.*"; h_extractors := [] |})
    as (e & H & _).
  - discriminate.
  - vm_compute; reflexivity.
  - reflexivity.
  - exists e; exact H.
Defined.

Lemma X4_witness :
  exists e,
    serve "odalogs_a" (post "gauge" (JInt 0)) (init_world 0)
    = (Raise e, init_world 0).
Proof.
  destruct (X4_zero_value_refused (L := Fragment.libs) sample_config
              "odalogs_a" (post "gauge" (JInt 0)) (init_world 0)
              {| h_event_title := "^odalogs_.*";
                 h_extractors := ("help", JStr "data.help")
                                 :: sample_extractors |}
              "data.value" (JInt 0)) as (e & H & _).
  - discriminate.
  - vm_compute; reflexivity.
  - reflexivity.
  - discriminate.
  - reflexivity.
  - vm_compute; reflexivity.
  - left; reflexivity.
  - exists e; exact H.
Defined.

Lemma X5_witness :
  exists m,
    merge_labels (JList [JDict (host "a");
                         JDict [("host", JStr "b"); ("zone", JStr "z")]])
    = Ok (JDict m)
    /\ dict_get "host" m JNull = JStr "b"
    /\ dict_get "zone" m JNull = JStr "z".
Proof.
  destruct (proj2 X5_merged_labels_last_wins (host "a")
              [[("host", JStr "b"); ("zone", JStr "z")]])
    as (m & Hm & _ & Hget).
  - repeat constructor; simpl; intros H;
      repeat destruct H as [H|H]; try discriminate; exact H.
  - exists m. split; [exact Hm|]. split; rewrite Hget; reflexivity.
Defined.

Lemma X6_witness :
  exists e w',
    store_metric (L := Fragment.libs) sample_config "odalogs_a" (JStr "h")
      (JStr "histogram") 1%float (JDict (host "a")) w_a = (Raise e, w')
    /\ heap w' = heap w_a /\ registry w' = registry w_a.
Proof.
  destruct (X6_rejected_before_construction (L := Fragment.libs)
              sample_config "odalogs_a" (JStr "h") (JStr "histogram") 1%float
              (JDict (host "a")) w_a) as (e & w' & H & Hh & Hr & _).
  - left. intros t Ht. injection Ht as <-. repeat split; discriminate.
  - exists e, w'. auto.
Defined.

Lemma X8_witness :
  exists wN it,
    gauge_upserts (L := Fragment.libs) sample_config "odalogs_g"
      (JDict (host "a"))
      [(1, JStr "h", 2%float); (0, JStr "h", 3%float)] w_g1 = (Ok tt, wN)
    /\ exported wN (cm_instance (ci_value it))
         (label_tuple (L := Fragment.libs) (JDict (host "a")))
       = Some 3%float.
Proof.
  destruct (X8_gauge_exports_last_value (L := Fragment.libs) sample_config
              [] 0 "odalogs_g" (JStr "h") (JDict (host "a"))
              5%float [(1, JStr "h", 2%float); (0, JStr "h", 3%float)] w_g1)
    as (wN & it & H1 & _ & _ & H2).
  - reflexivity.
  - reflexivity.
  - vm_compute; reflexivity.
  - repeat constructor; simpl; lia.
  - exists wN, it; split; [exact H1|exact H2].
Defined.

Lemma X9_witness :
  exists w1 w2,
    store_metric (L := Fragment.libs) sample_config "odalogs_a" (JStr "h")
      (JStr "gauge") 1%float (JDict (host "a")) (tick 1 w_a) = (Ok tt, w1)
    /\ store_metric (L := Fragment.libs) sample_config "odalogs_a" (JStr "h")
         (JStr "gauge") 2%float (JDict (host "b")) (tick 1 w1) = (Ok tt, w2)
    /\ exported w2 0%nat ["a"] = Some 1%float
    /\ exported w2 0%nat ["b"] = Some 2%float.
Proof.
  destruct (X9_one_series_per_label_values (L := Fragment.libs) sample_config
              "odalogs_a" 0%nat ["host"] w_a 1 1 (JStr "h") (JStr "h")
              1%float 2%float (host "a") (host "b"))
    as (w1 & w2 & H1 & H2 & H3 & H4 & _).
  - exists item_a,
      {| m_class := Gauge; m_name := "odalogs_a";
         m_documentation := JStr "default help";
         m_labelnames := ["host"]; m_metrics := [(["a"], 5%float)] |}.
    repeat split; vm_compute; reflexivity.
  - intros [H|[]]; discriminate.
  - discriminate.
  - discriminate.
  - reflexivity.
  - reflexivity.
  - intros H; vm_compute in H; discriminate.
  - vm_compute; lia.
  - vm_compute; split; [discriminate|reflexivity].
  - vm_compute; split; [discriminate|reflexivity].
  - exists w1, w2. repeat split; assumption.
Defined.

Lemma X10_witness :
  exists w',
    store_metric (L := Fragment.libs) sample_config "odalogs_a" (JStr "h")
      (JStr "gauge") 1%float (JDict (host "a")) w_ab = (Raise ValueError, w')
    /\ registry w' = registry w_ab.
Proof.
  destruct (X10_taken_name_refuses_the_create (L := Fragment.libs)
              sample_config "odalogs_a" (JStr "h") "gauge" Gauge (host "a")
              1%float w_ab "odalogs_a") as (w' & H & Hr & _).
  - vm_compute; reflexivity.
  - reflexivity.
  - discriminate.
  - left; reflexivity.
  - vm_compute. left; reflexivity.
  - exists w'; split; assumption.
Defined.

Lemma X11_witness :
  exists c : nat, forall d, 0 <= d ->
    fst (cache_contains "odalogs_c" (tick d w_c1)) = Ok (d <? 10).
Proof.
  destruct (X11_stored_entry_is_found_for_ttl (L := Fragment.libs)
              sample_config "odalogs_c" (JStr "h") (JStr "counter") 5%float
              (JDict [("host", JStr "a")])
              (run (L := Fragment.libs) sample_config [] (init_world 0))
              w_c1) as (c & _ & H).
  - vm_compute; reflexivity.
  - exists c. intros d Hd. apply (H d Hd).
Defined.

Lemma X12_witness :
  exists old w1,
    setup_metric (L := Fragment.libs) (JStr "counter") "odalogs_n" (JStr "h")
      (JDict (host "a")) (-1)%float old w1
    = (Raise ValueError,
       snd (store_metric (L := Fragment.libs) sample_config "odalogs_n"
              (JStr "h") (JStr "counter") (-1)%float (JDict (host "a"))
              (run (L := Fragment.libs) sample_config [] (init_world 0)))).
Proof.
  destruct (X12_a_store_fails_in_setup_metric_only (L := Fragment.libs)
              sample_config [] 0 "odalogs_n" (JStr "h") (JStr "counter")
              (-1)%float (JDict (host "a")) ValueError
              (snd (store_metric (L := Fragment.libs) sample_config
                      "odalogs_n" (JStr "h") (JStr "counter") (-1)%float
                      (JDict (host "a"))
                      (run (L := Fragment.libs) sample_config []
                         (init_world 0)))))
    as (old & w1 & H & _).
  - vm_compute; lia.
  - vm_compute; reflexivity.
  - exists old, w1; exact H.
Defined.

Lemma X16_witness :
  (rs_status ok_200 = 404 /\ w_a = init_world 0
   /\ find_handler (L := Fragment.libs) (event_handlers sample_config)
        "odalogs_a" = Ok None)
  \/ (ok_200 = {| rs_body := None; rs_status := 200 |}
      /\ exists handler,
           find_handler (L := Fragment.libs) (event_handlers sample_config)
             "odalogs_a" = Ok (Some handler)).
Proof.
  apply (X16_answers_of_the_handler (L := Fragment.libs) sample_config
           "odalogs_a" (post "gauge" (JInt 5)) (init_world 0) ok_200 w_a).
  vm_compute; reflexivity.
Defined.

Lemma X17_witness :
  exists it rest,
    List.filter
      (live (now (run (L := Fragment.libs) sample_config evs_ab
                    (init_world 0))))
      (metrics_cache (run (L := Fragment.libs) sample_config evs_ab
                        (init_world 0))) = it :: rest
    /\ ci_key it = "odalogs_a"
    /\ registered (instance_of it)
         (snd (store_metric (L := Fragment.libs) sample_config "odalogs_c"
                 (JStr "h") (JStr "counter") 2%float (JDict (host "a"))
                 (run (L := Fragment.libs) sample_config evs_ab
                    (init_world 0)))) = false.
Proof.
  destruct (X17_full_cache_evicts_the_least_recently_used
              (L := Fragment.libs) sample_config evs_ab 0 "odalogs_c"
              (JStr "h") (JStr "counter") 2%float (JDict (host "a"))
              (snd (store_metric (L := Fragment.libs) sample_config
                      "odalogs_c" (JStr "h") (JStr "counter") 2%float
                      (JDict (host "a"))
                      (run (L := Fragment.libs) sample_config evs_ab
                         (init_world 0)))))
    as (it & rest & H1 & _ & H2 & _).
  - reflexivity.
  - vm_compute; reflexivity.
  - vm_compute; reflexivity.
  - vm_compute; reflexivity.
  - exists it, rest. split; [exact H1|]. split; [|exact H2].
    vm_compute in H1. injection H1 as <- _. reflexivity.
Defined.

Lemma X18_witness :
  exists w',
    store_metric (L := Fragment.libs) sample_config "odalogs_g" (JStr "h")
      (JStr "gauge") 5%float (JDict (host "a"))
      (run (L := Fragment.libs) sample_config [] (init_world 0))
    = (Ok tt, w').
Proof.
  apply (proj2 (X18_when_a_create_goes_through (L := Fragment.libs)
                  sample_config [] 0 "odalogs_g" (JStr "h") Gauge (host "a")
                  5%float
                  ltac:(vm_compute; lia)
                  ltac:(vm_compute; reflexivity)
                  ltac:(discriminate)
                  ltac:(discriminate))).
  split; [vm_compute; reflexivity|].
  split; [intros n _ Hin; exact Hin|].
  split; [reflexivity|discriminate].
Defined.


Lemma X20_witness :
  exists w',
    store_metric (L := Fragment.libs) sample_config "odalogs_a" (JStr "h")
      (JStr "gauge") 1%float (JDict (host "a"))
      (run (L := Fragment.libs) sample_config
         [Request "odalogs_a" (post "gauge" (JInt 5)); Tick 11]
         (init_world 0))
    = (Raise ValueError, w').
Proof.
  destruct (X20_expired_entry_blocks_the_create (L := Fragment.libs)
              sample_config
              [Request "odalogs_a" (post "gauge" (JInt 5)); Tick 11] 0
              "odalogs_a" item_a
              {| m_class := Gauge; m_name := "odalogs_a";
                 m_documentation := JStr "default help";
                 m_labelnames := ["host"]; m_metrics := [(["a"], 5%float)] |}
              (JStr "h") (host "a") 1%float) as (w' & H & _).
  - vm_compute; reflexivity.
  - vm_compute; reflexivity.
  - vm_compute; reflexivity.
  - discriminate.
  - discriminate.
  - exists w'; exact H.
Defined.

Lemma X21_witness :
  exists w',
    store_metric (L := Fragment.libs) sample_config "odalogs_a" (JStr "h")
      (JStr "counter") 2%float (JDict (host "b")) w_a
    = (Ok tt, w').
Proof.
  apply (proj2 (X21_when_an_update_goes_through (L := Fragment.libs)
                  sample_config "odalogs_a" item_a
                  {| m_class := Gauge; m_name := "odalogs_a";
                     m_documentation := JStr "default help";
                     m_labelnames := ["host"];
                     m_metrics := [(["a"], 5%float)] |}
                  (JStr "h") Counter (host "b") 2%float w_a
                  ltac:(vm_compute; lia)
                  ltac:(vm_compute; reflexivity)
                  ltac:(vm_compute; reflexivity)
                  ltac:(vm_compute; reflexivity)
                  ltac:(discriminate))).
  repeat split; vm_compute; reflexivity.
Defined.
